(** * Evolve-UI: the retrieval pipeline of the chat server

    A shallow embedding of the similarity engine, the memory store, the
    search orchestrator, the search-backend adapter and the content
    extractor of the Evolve-UI server, with the properties its
    specification states about them.

    Conventions of the embedding:
    - a JavaScript number that is measured or computed (similarities,
      vector entries, confidences) is an IEEE 754 binary64 value, Rocq's
      primitive [float]; a counter or a length (ids, result counts, k) is an
      integer;
    - a JavaScript string is the list of its UTF-16 code units;
    - [undefined] and [null] are [None];
    - an [async] function that awaits the network or the disk is a function
      of an explicit world, in the state-and-exception monad [M] below; a
      [try]/[catch] is [try_catch]. *)

From stdpp Require Import gmap pretty.
From Stdlib Require Import ZArith NArith List Bool Lia Floats Sorted Permutation.
From Stdlib Require Ascii String.
Import ListNotations.

#[local] Open Scope Z_scope.

(* ===================================================================== *)
(** * Part I: definitions                                                 *)
(* ===================================================================== *)

(** ** JavaScript strings *)

Module JSString.

(** A string is its sequence of UTF-16 code units. *)
Definition jsstring : Type := list N.

(** The code units of an ASCII literal. *)
Definition js (s : String.string) : jsstring :=
List.map Ascii.N_of_ascii (String.list_ascii_of_string s).

Definition LF : N := 10%N.
Definition quote : N := 34%N.

(** ECMAScript LineTerminator: LF, CR, LS, PS. *)
Definition isLineTerminator (c : N) : bool :=
(c =? 10)%N || (c =? 13)%N || (c =? 0x2028)%N || (c =? 0x2029)%N.

(** ECMAScript WhiteSpace: TAB, VT, FF, ZWNBSP and the space separators. *)
Definition isWhiteSpace (c : N) : bool :=
(c =? 9)%N || (c =? 11)%N || (c =? 12)%N || (c =? 32)%N || (c =? 0xA0)%N
|| (c =? 0x1680)%N || ((0x2000 <=? c)%N && (c <=? 0x200A)%N)
|| (c =? 0x202F)%N || (c =? 0x205F)%N || (c =? 0x3000)%N || (c =? 0xFEFF)%N.

(** The class [\s] of a regular expression, also what [trim] strips. *)
Definition is_space (c : N) : bool := isWhiteSpace c || isLineTerminator c.



(** A string is falsy exactly when it is empty. *)
Definition nonempty (s : jsstring) : bool :=
match s with [] => false | _ :: _ => true end.

(** [x || d] on a possibly missing string. *)
Definition truthy (o : option jsstring) : bool :=
match o with Some s => nonempty s | None => false end.

Definition or_else (o : option jsstring) (d : jsstring) : jsstring :=
match o with
| Some s => if nonempty s then s else d
| None => d
end.

Definition eqb (s t : jsstring) : bool := bool_decide (s = t).

Fixpoint trimStart (s : jsstring) : jsstring :=
match s with
| c :: s' => if is_space c then trimStart s' else s
| [] => []
end.

Definition trimEnd (s : jsstring) : jsstring := rev (trimStart (rev s)).

(** [s.trim()] *)
Definition trim (s : jsstring) : jsstring := trimEnd (trimStart s).

(** [s.split('\n')]: never empty, [''] splits into [['']]. *)
Fixpoint split_lines (s : jsstring) : list jsstring :=
match s with
| [] => [[]]
| c :: s' =>
    if (c =? LF)%N then [] :: split_lines s'
    else match split_lines s' with
         | l :: ls => (c :: l) :: ls
         | [] => [[c]]
         end
end.

(** [s.startsWith(p)] *)
Fixpoint startsWith (s p : jsstring) {struct p} : bool :=
match p, s with
| [], _ => true
| a :: p', b :: s' => (a =? b)%N && startsWith s' p'
| _ :: _, [] => false
end.

(** [s.includes(p)] *)
Fixpoint includes (s p : jsstring) {struct s} : bool :=
startsWith s p || match s with [] => false | _ :: s' => includes s' p end.

(** [s.replace(/\s+/g, ' ')]: every maximal run of white space becomes one
    space. The flag tells whether the scan is inside such a run. *)
Fixpoint collapse_from (in_run : bool) (s : jsstring) : jsstring :=
match s with
| [] => []
| c :: s' =>
    if is_space c
    then if in_run then collapse_from true s' else 32%N :: collapse_from true s'
    else c :: collapse_from false s'
end.

Definition collapse_ws (s : jsstring) : jsstring := collapse_from false s.

(** The text before and after the first occurrence of a pattern. *)
Fixpoint split_at_first (pat s : jsstring) {struct s} : option (jsstring * jsstring) :=
if startsWith s pat then Some ([], skipn (List.length pat) s)
else match s with
     | [] => None
     | c :: s' =>
         match split_at_first pat s' with
         | Some (b, a) => Some (c :: b, a)
         | None => None
         end
     end.

(** Decimal digits of a count, as [String(n)] prints it. *)
Definition of_nat (n : nat) : jsstring := js (pretty n).






End JSString.

(** ** Exceptions and the world *)

Module Eff.
Import JSString.

(** A thrown [Error]: its [name] and its [message]. *)
Record exn : Type := { exn_name : jsstring; exn_message : jsstring }.

Definition Error (msg : jsstring) : exn :=
{| exn_name := js "Error"; exn_message := msg |}.

(** How an evaluation ends: with a value or with a thrown exception. *)
Inductive completion (A : Type) : Type :=
| Normal (a : A)
| Throw (e : exn).

Arguments Normal {A} a.
Arguments Throw {A} e.

(** A computation over a world [W]: what it changed in the world stays
    changed when it throws. *)
Definition M (W A : Type) : Type := W -> completion A * W.

Definition ret {W A : Type} (a : A) : M W A := fun w => (Normal a, w).

Definition throw {W A : Type} (e : exn) : M W A := fun w => (Throw e, w).

Definition lift {W A : Type} (c : completion A) : M W A := fun w => (c, w).

Definition bind {W A B : Type} (m : M W A) (k : A -> M W B) : M W B :=
fun w =>
  match m w with
  | (Normal a, w') => k a w'
  | (Throw e, w') => (Throw e, w')
  end.

(** [try { m } catch (e) { h e }] *)
Definition try_catch {W A : Type} (m : M W A) (h : exn -> M W A) : M W A :=
fun w =>
  match m w with
  | (Normal a, w') => (Normal a, w')
  | (Throw e, w') => h e w'
  end.

Declare Scope eff_scope.
Delimit Scope eff_scope with eff.
Notation "'let!' x ':=' m 'in' k" := (bind m (fun x => k))
  (at level 10, x name, m at level 100, k at level 200) : eff_scope.

End Eff.

(** ** JavaScript numbers: IEEE 754 binary64 *)

Module Binary64.

(** The results of rounding a non-zero value whose sign is [s]. *)
Inductive signed_nonzero (s : bool) : spec_float -> Prop :=
| sn_finite (m : positive) (e : Z) : signed_nonzero s (S754_finite s m e)
| sn_infinity : signed_nonzero s (S754_infinity s).

(** Zero of either sign, and the numbers that are neither NaN nor infinite,
    on the specification side of a float. *)
Definition SFis_zero (x : spec_float) : bool :=
match x with S754_zero _ => true | _ => false end.

Definition SFis_finite (x : spec_float) : bool :=
match x with S754_zero _ | S754_finite _ _ _ => true | _ => false end.

(** Anything but a negative finite number. *)
Definition SFnot_negative (x : spec_float) : bool :=
match x with S754_finite true _ _ => false | _ => true end.

End Binary64.

(** ** The similarity engine *)

Module Similarity.
#[local] Open Scope float_scope.

Definition vector : Type := list float.

(** The three accumulators of the loop of [cosSim]. *)
Record sums : Type := { dotProduct : float; normA : float; normB : float }.

Definition sums0 : sums := {| dotProduct := 0; normA := 0; normB := 0 |}.

(** [for (let i = 0; i < a.length; i++) { ... a[i] ... b[i] ... }]: the
    loop runs over the indices of [a]; reading [b] past its end gives
    [undefined], which arithmetic turns into NaN. *)
Fixpoint cosSim_loop (a b : vector) (acc : sums) : sums :=
match a with
| [] => acc
| x :: a' =>
    let y := hd nan b in
    cosSim_loop a' (tl b)
      {| dotProduct := dotProduct acc + x * y;
         normA := normA acc + x * x;
         normB := normB acc + y * y |}
end.

(** [Math.sqrt(normA) * Math.sqrt(normB)] after the loop. *)
Definition denominator (a b : vector) : float :=
let s := cosSim_loop a b sums0 in sqrt (normA s) * sqrt (normB s).

(** The core server's [cosSim]: null, undefined and vectors of different
    lengths give 0, and so does a zero denominator. *)
Definition cosSim (a b : option vector) : float :=
match a, b with
| Some a, Some b =>
    if negb (Nat.eqb (List.length a) (List.length b)) then 0
    else
      if denominator a b =? 0 then 0
      else dotProduct (cosSim_loop a b sums0) / denominator a b
| _, _ => 0
end.

(** 1e-8, the nearest binary64 value. *)
Definition epsilon : float := 0x1.5798ee2308c3ap-27.

(** [Math.sqrt(na) * Math.sqrt(nb) + 1e-8] *)
Definition denominator_legacy (a b : vector) : float := denominator a b + epsilon.

(** The first server's [cosSim] (server.js): no guard on its arguments, an
    epsilon in the denominator. It is called on arrays. *)
Definition cosSim_legacy (a b : vector) : float :=
dotProduct (cosSim_loop a b sums0) / denominator_legacy a b.

(** The sum of squares the loop accumulates in [normB]. *)
Definition sumOfSquares (v : vector) : float :=
fold_left (fun acc y => acc + y * y) v 0.

(** A vector whose entries are all zero, of either sign. *)
Definition is_zero_vector (z : vector) : bool := forallb (fun x => x =? 0) z.

End Similarity.

(** ** Array.prototype.sort *)

Module JSArray.
#[local] Open Scope float_scope.

Section Sort.
Context {A : Type}.
Variable compareFn : A -> A -> float.

(** [x] goes behind [y] exactly when [compareFn x y > 0]; a NaN or a
    non-positive result leaves [x] in front. *)
Fixpoint sort_insert (x : A) (l : list A) : list A :=
match l with
| [] => [x]
| y :: l' => if 0 <? compareFn x y then y :: sort_insert x l' else x :: l
end.

(** [l.sort(compareFn)]. The language requires the sort to be stable, and
    with a consistent comparison function every stable sort returns the
    same array; this one inserts the elements from the last to the first. *)
Definition sort (l : list A) : list A := fold_right sort_insert [] l.

End Sort.

End JSArray.

(** ** The memory store *)

Module MemoryStore.
Import JSString Eff Similarity JSArray.
#[local] Open Scope float_scope.
#[local] Open Scope eff_scope.

Record MemoryItem : Type := {
  id : Z;
  content : jsstring;
  type : jsstring;
  importance : jsstring;
  tags : list jsstring;
  timestamp : jsstring;
  embedding : option vector;
  source : jsstring
}.

(** The persisted document [{ longTerm, nextId }]. *)
Record Memory : Type := { longTerm : list MemoryItem; nextId : Z }.

(** What the caller hands to upsert: any field may be missing. *)
Record Candidate : Type := {
  c_content : option jsstring;
  c_type : option jsstring;
  c_importance : option jsstring;
  c_tags : option (list jsstring);
  c_source : option jsstring
}.

(** A retrieved item: [{ ...item, similarity }]. *)
Record Scored : Type := { item : MemoryItem; similarity : float }.

(** The disk, as far as the memory file goes: its parsed content ([None]
    when it is missing or is not JSON), whether a write succeeds (a failed
    write leaves the file as it was), and the documents written so far. *)
Record world : Type := {
  memoryFile : option Memory;
  writable : bool;
  writes : list Memory
}.

Definition readJSON : M world Memory :=
fun w =>
  match memoryFile w with
  | Some m => (Normal m, w)
  | None => (Throw (Error (js "Failed to read JSON file")), w)
  end.

Definition writeJSON (data : Memory) : M world unit :=
fun w =>
  if writable w
  then (Normal tt,
        {| memoryFile := Some data; writable := true; writes := writes w ++ [data] |})
  else (Throw (Error (js "Failed to write JSON file")), w).

Definition init : Memory := {| longTerm := []; nextId := 1 |}.

(** [loadMemory]: an unreadable file is replaced by the empty collection. *)
Definition loadMemory : M world Memory :=
try_catch readJSON (fun _ => let! _ := writeJSON init in ret init).

Definition saveMemory (memory : Memory) : M world unit := writeJSON memory.

(** 0.95, the nearest binary64 value. *)
Definition duplicateThreshold : float := 0x1.e666666666666p-1.

(** Non-increasing similarity, and the items tied at a similarity. *)
Definition desc (a b : Scored) : Prop := (similarity b <=? similarity a) = true.

Definition tied (s : float) (r : Scored) : bool := similarity r =? s.

(** A similarity that is a number. *)
Definition known (r : Scored) : Prop := is_nan (similarity r) = false.

Section Store.

(** The embedding service: the vectors it returns for a text, or the
    exception the request ends with. *)
Variable ollamaEmbed : jsstring -> completion (list vector).

(** The clock reading [nowISO()] stamps new items with. *)
Variable nowISO : jsstring.

Definition has_embedding (it : MemoryItem) : bool :=
match embedding it with Some _ => true | None => false end.

Definition score (queryEmbedding : vector) (it : MemoryItem) : Scored :=
{| item := it; similarity := cosSim (Some queryEmbedding) (embedding it) |}.

(** [(a, b) => b.similarity - a.similarity] *)
Definition bySimilarityDesc (a b : Scored) : float := similarity b - similarity a.

(** The items that pass the two filters, scored, in store order. *)
Definition candidates (memory : Memory) (queryEmbedding : vector) (minSim : float)
  : list Scored :=
List.filter (fun it => minSim <=? similarity it)
  (List.map (score queryEmbedding) (List.filter has_embedding (longTerm memory))).

(** [retrieveLongTermMemory(query, k = 5, minSim = 0.3)]; [k] is a count,
    as at its call sites (5 and 8), so [slice(0, k)] keeps the first [k]. *)
Definition retrieveLongTermMemory (query : jsstring) (k : nat) (minSim : float)
  : M world (list Scored) :=
try_catch
  (let! memory := loadMemory in
   if Nat.eqb (List.length (longTerm memory)) 0 then ret []
   else
     let! embs := lift (ollamaEmbed query) in
     match hd_error embs with
     | None => ret []
     | Some queryEmbedding =>
         ret (firstn k (sort bySimilarityDesc (candidates memory queryEmbedding minSim)))
     end)
  (fun _ => ret []).

(** The embedding of a candidate, best effort: [null] when the request
    throws, [undefined] when it returns no vector. *)
Definition embed_best_effort (text : jsstring) : option vector :=
match ollamaEmbed text with
| Normal embs => hd_error embs
| Throw _ => None
end.

(** The inner loop with its [break]: some stored item that has an embedding
    is more than 0.95 similar. *)
Definition isDuplicate (emb : option vector) (memory : Memory) : bool :=
match emb with
| Some e =>
    existsb (fun existing =>
               match embedding existing with
               | Some e' => duplicateThreshold <? cosSim (Some e) (Some e')
               | None => false
               end)
            (longTerm memory)
| None => false
end.

Definition newItem (memory : Memory) (c : Candidate) (text : jsstring)
  (emb : option vector) : MemoryItem :=
{| id := nextId memory;
   content := text;
   type := or_else (c_type c) (js "general");
   importance := or_else (c_importance c) (js "medium");
   tags := default [] (c_tags c);
   timestamp := nowISO;
   embedding := emb;
   source := or_else (c_source c) (js "system") |}.

(** One turn of the loop over the candidates, on the loaded collection and
    the items added so far. *)
Definition upsert_item (st : Memory * list MemoryItem) (c : Candidate)
  : Memory * list MemoryItem :=
let (memory, added) := st in
match c_content c with
| Some text =>
    if nonempty text then
      let emb := embed_best_effort text in
      if isDuplicate emb memory then st
      else
        let memoryItem := newItem memory c text emb in
        ({| longTerm := longTerm memory ++ [memoryItem];
            nextId := nextId memory + 1 |},
         added ++ [memoryItem])
    else st
| None => st
end.

Definition upsertLongTermMemory (memoryItems : list Candidate)
  : M world (list MemoryItem) :=
try_catch
  (if Nat.eqb (List.length memoryItems) 0 then ret []
   else
     let! memory := loadMemory in
     let (memory', added) := fold_left upsert_item memoryItems (memory, []) in
     let! _ := (if Nat.ltb 0 (List.length added) then saveMemory memory' else ret tt) in
     ret added)
  (fun _ => ret []).

End Store.

End MemoryStore.

(** ** The network: search backend and web pages *)

Module Web.
Import JSString Eff.
#[local] Open Scope eff_scope.

(** [{ title, url, snippet }] *)
Record SearchResult : Type := { title : jsstring; url : jsstring; snippet : jsstring }.

(** A result as the search backend sends it: every field may be missing. *)
Record RawResult : Type := {
  r_title : option jsstring;
  r_url : option jsstring;
  r_content : option jsstring;
  r_snippet : option jsstring
}.

(** The JSON body of a search response. *)
Record SearchJson : Type := { results : option (list RawResult) }.

(** A response of [fetch]: status, the content-type header if there is
    one, and what reading the body as JSON or as text ends with. *)
Record Response : Type := {
  ok : bool;
  contentType : option jsstring;
  body_json : completion SearchJson;
  body_text : completion jsstring
}.

Section Adapter.

(** The world the requests run in, and [fetch] in it: a timeout aborts the
    request, which then throws. *)
Variable W : Type.
Variable fetch : jsstring -> M W Response.

(** The base address of the search backend. *)
Variable SEARXNG : jsstring.

(** [encodeURIComponent] throws on a lone surrogate. *)
Variable encodeURIComponent : jsstring -> completion jsstring.

(** cheerio: the text of the main content region of a page, or of its body,
    once the non-content elements are removed; one selection per server. *)
Variable mainText : jsstring -> completion jsstring.
Variable mainText_legacy : jsstring -> completion jsstring.

Definition searchUrls (q : jsstring) : list jsstring :=
[ SEARXNG ++ js "/search?q=" ++ q ++ js "&format=json&language=en&safesearch=1";
  SEARXNG ++ js "/search?q=" ++ q ++ js "&format=json&engines=google,bing,duckduckgo";
  SEARXNG ++ js "/?q=" ++ q ++ js "&format=json" ].

Definition searchUrls_legacy (q : jsstring) : list jsstring :=
[ SEARXNG ++ js "/search?q=" ++ q
    ++ js "&format=json&language=en&safesearch=1&categories=general";
  SEARXNG ++ js "/search?q=" ++ q ++ js "&format=json&engines=google,bing,duckduckgo";
  SEARXNG ++ js "/?q=" ++ q ++ js "&format=json" ].

(** [r.url?.startsWith('http')] *)
Definition has_http_url (r : RawResult) : bool :=
match r_url r with
| Some u => startsWith u (js "http")
| None => false
end.

Definition raw_url (r : RawResult) : jsstring := default [] (r_url r).

(** The [map] step of the core server: the title falls back to the URL. *)
Definition toResult (r : RawResult) : SearchResult :=
{| title := trim (or_else (r_title r) (raw_url r));
   url := trim (raw_url r);
   snippet := trim (or_else (r_content r) (or_else (r_snippet r) [])) |}.

(** [(json.results || []).filter(...).slice(0, count).map(...)] *)
Definition processResults (count : nat) (json : SearchJson) : list SearchResult :=
List.map toResult (firstn count (List.filter has_http_url (default [] (results json)))).

(** The first server adds [.filter(r => r.title && r.url)]. *)
Definition processResults_legacy (count : nat) (json : SearchJson) : list SearchResult :=
List.filter (fun r => nonempty (title r) && nonempty (url r)) (processResults count json).

Definition is_json (response : Response) : bool :=
includes (or_else (contentType response) []) (js "application/json").

Definition is_html (response : Response) : bool :=
includes (or_else (contentType response) []) (js "text/html").

(** One turn of the loop over the URL variants: [Some results] when the
    turn returns, [None] when it goes on to the next variant. *)
Definition tryUrl (process : SearchJson -> list SearchResult) (u : jsstring)
  : M W (option (list SearchResult)) :=
try_catch
  (let! response := fetch u in
   if negb (ok response) then ret None
   else if negb (is_json response) then ret None
   else
     let! json := lift (body_json response) in
     let results := process json in
     if Nat.ltb 0 (List.length results) then ret (Some results) else ret None)
  (fun _ => ret None).

Fixpoint tryUrls (process : SearchJson -> list SearchResult) (urls : list jsstring)
  : M W (list SearchResult) :=
match urls with
| [] => ret []
| u :: rest =>
    let! r := tryUrl process u in
    match r with
    | Some results => ret results
    | None => tryUrls process rest
    end
end.

(** [webSearch] of the core server; the URLs are built before the [try]. *)
Definition webSearch (query : jsstring) (count : nat) : M W (list SearchResult) :=
let! q := lift (encodeURIComponent query) in
try_catch (tryUrls (processResults count) (searchUrls q)) (fun _ => ret []).

(** [webSearch] of the first server; the URLs are built inside the [try],
    and an abort that reaches the outer handler is thrown again. *)
Definition webSearch_legacy (query : jsstring) (count : nat) : M W (list SearchResult) :=
try_catch
  (let! q := lift (encodeURIComponent query) in
   tryUrls (processResults_legacy count) (searchUrls_legacy q))
  (fun error =>
     if eqb (exn_name error) (js "AbortError")
     then throw (Error (js "Search request timeout"))
     else ret []).

(** The tail of [fetchAndClean]: collapse, trim, cut. *)
Definition clean (cap : nat) (text : jsstring) : jsstring :=
firstn cap (trim (collapse_ws text)).

Definition fetchAndClean_with (extract : jsstring -> completion jsstring) (cap : nat)
  (u : jsstring) : M W jsstring :=
try_catch
  (let! response := fetch u in
   if negb (ok response) then ret []
   else if negb (is_html response) then ret []
   else
     let! html := lift (body_text response) in
     let! text := lift (extract html) in
     ret (clean cap text))
  (fun _ => ret []).

(** The character caps the two servers cut the text at. *)
Definition cap : nat := Z.to_nat 20000.
Definition cap_legacy : nat := Z.to_nat 15000.

Definition fetchAndClean (u : jsstring) : M W jsstring :=
fetchAndClean_with mainText cap u.

Definition fetchAndClean_legacy (u : jsstring) : M W jsstring :=
fetchAndClean_with mainText_legacy cap_legacy u.

(** What the specification says of the adapter, to compare [webSearch]
    with: a variant is accepted when its response is a success with a JSON
    content type whose body parses and whose processed result list is not
    empty; the variants are tried in order up to the first accepted one. *)
Definition accepted (process : SearchJson -> list SearchResult)
  (c : completion Response) : option (list SearchResult) :=
match c with
| Normal response =>
    if ok response && is_json response then
      match body_json response with
      | Normal json =>
          match process json with
          | [] => None
          | r :: rs => Some (r :: rs)
          end
      | Throw _ => None
      end
    else None
| Throw _ => None
end.

Fixpoint first_accepted (process : SearchJson -> list SearchResult)
  (urls : list jsstring) (w : W) : list SearchResult * W :=
match urls with
| [] => ([], w)
| u :: rest =>
    let (c, w') := fetch u w in
    match accepted process c with
    | Some found => (found, w')
    | None => first_accepted process rest w'
    end
end.

End Adapter.

(** Collapsed white space: every white-space character is a plain space
    that follows a character that is not white space (so none in front
    when the flag starts as [true]). *)
Fixpoint collapsed_from (after_space : bool) (s : jsstring) : bool :=
match s with
| [] => true
| c :: s' =>
    if is_space c then (c =? 32)%N && negb after_space && collapsed_from true s'
    else collapsed_from false s'
end.

Definition collapsed (s : jsstring) : bool := collapsed_from true s.

End Web.

(** ** The search orchestrator (class SmartWebSearch) *)

Module SmartWebSearch.
Import JSString Eff Web.
#[local] Open Scope eff_scope.

Inductive ThoughtType : Type := analysis | search_decision | error.

Record Thought : Type := {
  t_content : jsstring;
  t_type : ThoughtType;
  t_timestamp : option jsstring
}.


(** One entry of [searchResults]: [{ query, results, count }]. *)
Record QueryResults : Type := {
  qr_query : jsstring;
  qr_results : list SearchResult;
  qr_count : nat
}.

(** [{ searchResults, allSources, totalSources }] *)
Record SearchOutcome : Type := {
  searchResults : list QueryResults;
  allSources : list SearchResult;
  totalSources : nat
}.

(** [{ shouldContinue, reason, confidence, thoughts, resultCount }] *)
Record Decision : Type := {
  shouldContinue : bool;
  reason : jsstring;
  confidence : float;
  d_thoughts : list Thought;
  resultCount : nat
}.








(** [sources.filter(...)] with its closure over the set [seen]. *)
Section Dedup.
Variable toLowerCase : jsstring -> jsstring.

Fixpoint dedup_from (seen : gset jsstring) (sources : list SearchResult)
  : list SearchResult :=
match sources with
| [] => []
| s :: rest =>
    let key := toLowerCase (url s) in
    if bool_decide (key ∈ seen) then dedup_from seen rest
    else s :: dedup_from ({[ key ]} ∪ seen) rest
end.

Definition deduplicateSources (sources : list SearchResult) : list SearchResult :=
dedup_from ∅ sources.

End Dedup.

(** 'high' and the confidences 0.9, 0.7, 0.8, the nearest binary64 values. *)
Definition high : jsstring := js "high".
Definition medium : jsstring := js "medium".
Definition c09 : float := 0x1.ccccccccccccdp-1.
Definition c07 : float := 0x1.6666666666666p-1.
Definition c08 : float := 0x1.999999999999ap-1.

(** The branches of [shouldContinueSearching] on the result count, with
    the three variables they assign: [shouldContinue], [reason] and
    [confidence]. *)
Definition continuation (resultCount : nat) (complexity : jsstring)
  : bool * jsstring * float :=
let found := js "Found " ++ of_nat resultCount ++ js " results, " in
if Nat.eqb resultCount 0 then
  (true, js "No results found, continue searching", c09)
else if Nat.ltb resultCount 3 then
  let shouldContinue := eqb complexity high in
  (shouldContinue,
   found ++ (if shouldContinue
             then js "continue for more comprehensive coverage"
             else js "sufficient for basic query"),
   c07)
else if Nat.ltb resultCount 8 then
  let shouldContinue := eqb complexity high && Nat.ltb resultCount 5 in
  (shouldContinue,
   found ++ (if shouldContinue
             then js "continue for high complexity query"
             else js "sufficient coverage achieved"),
   c08)
else
  (false, found ++ js "sufficient coverage achieved", c09).

(** [parseThinkingResponse]: the bodies of the [<thinking>] blocks, found
    from left to right and each closed by the nearest closing tag, and the
    text with the blocks cut out. A block consumes at least the two tags,
    so a fuel of the length of the text is never used up. *)
Definition open_tag : jsstring := js "<thinking>".
Definition close_tag : jsstring := js "</thinking>".

Fixpoint thinking_blocks (fuel : nat) (s : jsstring) : list jsstring * jsstring :=
match fuel with
| O => ([], s)
| S fuel' =>
    match split_at_first open_tag s with
    | None => ([], s)
    | Some (before, rest) =>
        match split_at_first close_tag rest with
        | None => ([], s)
        | Some (body, after) =>
            let (bodies, text) := thinking_blocks fuel' after in
            (body :: bodies, before ++ text)
        end
    end
end.

Record Parsed : Type := { p_thoughts : list Thought; p_response : jsstring }.

Section Engine.

Variable W : Type.

(** The generation backend: [result.response] of the reply, if any. *)
Variable ollamaGenerate : jsstring -> jsstring -> M W (option jsstring).

(** The search backend adapter, [webSearch(query, options)]. *)
Variable webSearch : jsstring -> M W (list SearchResult).

Variable toLowerCase : jsstring -> jsstring.
Variable nowISO : jsstring.

(** [this.model] *)
Variable model : jsstring.

(** [shouldContinueSearching(query, currentResults, complexity = 'medium')]:
    [currentResults] is [None] when it is not an array; nothing in the body
    throws, so its handler is never entered. *)
Definition shouldContinueSearching {A : Type} (query : jsstring)
  (currentResults : option (list A)) (complexity : option jsstring) : Decision :=
let complexity := default medium complexity in
let resultCount := match currentResults with Some l => List.length l | None => 0%nat end in
let '(shouldContinue, reason, confidence) := continuation resultCount complexity in
{| shouldContinue := shouldContinue;
   reason := reason;
   confidence := confidence;
   d_thoughts :=
     [ {| t_content := js "Search continuation analysis: " ++ reason ++ js " ("
                         ++ of_nat resultCount ++ js " results, complexity: "
                         ++ complexity ++ js ")";
          t_type := search_decision;
          t_timestamp := Some nowISO |} ];
   resultCount := resultCount |}.

Definition parseThinkingResponse (content : jsstring) : Parsed :=
let (bodies, text) := thinking_blocks (List.length content) content in
{| p_thoughts :=
     List.map (fun b => {| t_content := b; t_type := analysis; t_timestamp := Some nowISO |})
       (List.filter nonempty (List.map trim bodies));
   p_response := trim text |}.

Definition unlines (ls : list jsstring) : jsstring :=
match ls with
| [] => []
| l :: ls' => l ++ flat_map (fun x => LF :: x) ls'
end.



(** The loop of [executeSearches] over the queries, on the two arrays it
    fills. *)
Fixpoint executeSearches_loop (queries : list jsstring)
  (results : list QueryResults) (all : list SearchResult)
  : M W (list QueryResults * list SearchResult) :=
match queries with
| [] => ret (results, all)
| query :: rest =>
    let! st := try_catch
                 (let! found := webSearch query in
                  if Nat.ltb 0 (List.length found)
                  then ret (results ++ [ {| qr_query := query;
                                            qr_results := found;
                                            qr_count := List.length found |} ],
                            all ++ found)
                  else ret (results, all))
                 (fun _ => ret (results, all)) in
    executeSearches_loop rest (fst st) (snd st)
end.

Definition executeSearches (queries : list jsstring) : M W SearchOutcome :=
let! st := executeSearches_loop queries [] [] in
ret {| searchResults := fst st;
       allSources := deduplicateSources toLowerCase (snd st);
       totalSources := List.length (snd st) |}.

(** What the specification says of [executeSearches], to compare the loop
    with: one call of the backend per query, in order, each in the world
    the one before left; the results of the calls that returned, and
    nothing for the calls that threw. *)
Fixpoint search_outcomes (queries : list jsstring) (w : W)
  : list (completion (list SearchResult)) * W :=
match queries with
| [] => ([], w)
| query :: rest =>
    let (c, w') := webSearch query w in
    let (cs, w'') := search_outcomes rest w' in
    (c :: cs, w'')
end.

Definition returned (c : completion (list SearchResult)) : list SearchResult :=
match c with Normal found => found | Throw _ => [] end.

Definition accumulated (cs : list (completion (list SearchResult))) : list SearchResult :=
flat_map returned cs.

(** The uniqueness key of a result. *)
Definition has_key (k : jsstring) (s : SearchResult) : bool :=
bool_decide (toLowerCase (url s) = k).

(** A backend that also records the queries it is called with. *)
Definition logged : jsstring -> M (list jsstring * W) (list SearchResult) :=
fun query lw =>
  let (c, w') := webSearch query (snd lw) in (c, (fst lw ++ [query], w')).

End Engine.

End SmartWebSearch.

(** ** Sample worlds *)

Module Samples.
Import JSString Eff Web.

(** A search backend that answers every variant with one result that has
    a URL and no title. *)
Definition untitled : RawResult :=
{| r_title := None;
   r_url := Some (js "http://a.example/");
   r_content := None;
   r_snippet := None |}.

Definition json_untitled : Response :=
{| ok := true;
   contentType := Some (js "application/json");
   body_json := Normal {| results := Some [untitled] |};
   body_text := Normal [] |}.

Definition fetch_untitled : jsstring -> M unit Response :=
fun _ w => (Normal json_untitled, w).

Definition searxng : jsstring := js "http://localhost:8080".

Definition encode_id : jsstring -> completion jsstring := fun q => Normal q.

(** A page server that answers with an HTML page. *)
Definition html_page : Response :=
{| ok := true;
   contentType := Some (js "text/html; charset=utf-8");
   body_json := Throw (Error (js "Unexpected token"));
   body_text := Normal (js "<p>  two   words </p>") |}.

Definition fetch_page : jsstring -> M unit Response :=
fun _ w => (Normal html_page, w).

(** A stand-in for the selection cheerio makes: the text as it is. *)
Definition text_as_is : jsstring -> completion jsstring := fun html => Normal html.

(** A store with one item, an embedding service that maps one text onto
    the stored direction and every other text onto an orthogonal one, and
    two candidates. *)
Definition stored : MemoryStore.MemoryItem :=
{| MemoryStore.id := 1;
   MemoryStore.content := js "likes tea";
   MemoryStore.type := js "general";
   MemoryStore.importance := js "medium";
   MemoryStore.tags := [];
   MemoryStore.timestamp := js "2024-01-01T00:00:00.000Z";
   MemoryStore.embedding := Some [1%float; 0%float];
   MemoryStore.source := js "system" |}.


Definition embed : jsstring -> completion (list Similarity.vector) :=
fun text =>
  if eqb text (js "likes tea a lot") then Normal [[1%float; 0%float]]
  else Normal [[0%float; 1%float]].

Definition now : jsstring := js "2024-01-02T00:00:00.000Z".


(** A store of four items: the first and the third have the same
    embedding, the last has none. *)
Definition item_with (n : Z) (text : jsstring) (emb : option Similarity.vector)
  : MemoryStore.MemoryItem :=
{| MemoryStore.id := n;
   MemoryStore.content := text;
   MemoryStore.type := js "general";
   MemoryStore.importance := js "medium";
   MemoryStore.tags := [];
   MemoryStore.timestamp := js "2024-01-01T00:00:00.000Z";
   MemoryStore.embedding := emb;
   MemoryStore.source := js "system" |}.

Definition memory4 : MemoryStore.Memory :=
{| MemoryStore.longTerm :=
     [ item_with 1 (js "likes tea") (Some [1%float; 0%float]);
       item_with 2 (js "owns a cat") (Some [0%float; 1%float]);
       item_with 3 (js "drinks tea") (Some [1%float; 0%float]);
       item_with 4 (js "no vector") None ];
   MemoryStore.nextId := 5 |}.

(** Lower case on the letters A to Z, a stand-in for [toLowerCase]. *)
Definition lower (s : jsstring) : jsstring :=
List.map (fun c => if (65 <=? c)%N && (c <=? 90)%N then (c + 32)%N else c) s.

Definition source (address : String.string) (name : String.string) : SearchResult :=
{| title := js name; url := js address; snippet := [] |}.

(** A search backend with a fixed answer per query; it throws on the
    query ["down"]. *)
Definition backend : jsstring -> M unit (list SearchResult) :=
fun query w =>
  if eqb query (js "down") then (Throw (Error (js "fetch failed")), w)
  else if eqb query (js "tea")
       then (Normal [ source "http://Tea.example/a" "first";
                      source "http://tea.example/b" "second" ], w)
       else (Normal [ source "http://tea.example/A" "third";
                      source "http://tea.example/c" "fourth" ], w).

Definition disk (file : option MemoryStore.Memory) : MemoryStore.world :=
{| MemoryStore.memoryFile := file;
   MemoryStore.writable := true;
   MemoryStore.writes := [] |}.

End Samples.
(** ** Replies of the endpoints, and type errors *)

Module Http.
Import JSString.

(** [res.json(body)], or [res.status(status).json({ error: message })]. *)
Inductive reply (A : Type) : Type :=
| json_reply (body : A)
| error_reply (status : nat) (message : jsstring).

Arguments json_reply {A} body.
Arguments error_reply {A} status message.

(** The exception a property read on [null] or [undefined] throws. *)
Definition TypeError (msg : jsstring) : Eff.exn :=
{| Eff.exn_name := js "TypeError"; Eff.exn_message := msg |}.

End Http.

(** ** Invariants of the memory store, and the endpoint that clears it *)

Module StoreInvariants.
Import JSString Eff Similarity MemoryStore Http.
#[local] Open Scope float_scope.
#[local] Open Scope eff_scope.

(** The accumulators of the loop of [cosSim] with the two vectors
    exchanged. *)
Definition swap (s : sums) : sums :=
{| dotProduct := dotProduct s; normA := normB s; normB := normA s |}.

(** The ids grow along the collection, and [nextId] is above all of them. *)
Definition ids_increasing (memory : Memory) : Prop :=
  StronglySorted Z.lt (List.map id (longTerm memory))
  /\ Forall (fun it => (id it < nextId memory)%Z) (longTerm memory).






End StoreInvariants.

(** ** The thinking engine (class AIThinkingEngine) *)

Module ThinkingEngine.
Import JSString Eff SmartWebSearch.
#[local] Open Scope eff_scope.

Definition searchKeywords : list jsstring :=
[ js "current"; js "recent"; js "latest"; js "news"; js "today"; js "now";
  js "this year"; js "weather"; js "price"; js "stock"; js "when did";
  js "what happened"; js "status"; js "who is currently";
  js "what is the current"; js "update on"; js "2024"; js "2025" ].

(** [{ needsSearch, confidence, reason, thoughts }]; two of the three
    [return]s leave [thoughts] out. *)
Record SearchNeed : Type := {
  needsSearch : bool;
  sn_confidence : float;
  sn_reason : jsstring;
  sn_thoughts : option (list Thought)
}.

(** 0.6 and 0.5, the nearest binary64 values. *)
Definition c06 : float := 0x1.3333333333333p-1.
Definition c05 : float := 0x1p-1.

(** A text without the character [<], so without a tag. *)
Definition tag_free (s : jsstring) : bool := forallb (fun c => negb (c =? 60)%N) s.

(** A reply made of a text and blocks, each a body between the two tags
    and the text that follows it. *)
Definition render (text : jsstring) (blocks : list (jsstring * jsstring)) : jsstring :=
text ++ flat_map (fun block => open_tag ++ fst block ++ close_tag ++ snd block) blocks.

Section Engine.

Variable W : Type.
Variable ollamaGenerate : jsstring -> jsstring -> M W (option jsstring).
Variable toLowerCase : jsstring -> jsstring.
Variable nowISO : jsstring.

(** [this.model] *)
Variable model : jsstring.

Definition searchNeedPrompt (query context : jsstring) : jsstring :=
unlines
  [ js "<thinking>";
    js "Should I search the web for current information to answer: "
      ++ [quote] ++ query ++ [quote] ++ js "?";
    [];
    js "Context: " ++ context;
    [];
    js "Consider:";
    js "- Does this require current/recent information?";
    js "- Is this general knowledge I likely already know?";
    js "- Would web search significantly improve the answer quality?";
    js "- Are there specific facts, dates, or data points needed?";
    [];
    js "Analyzing the need for web search...";
    js "</thinking>";
    [];
    js "Search decision: " ].

(** [searchKeywords.some(keyword => query.toLowerCase().includes(keyword))] *)
Definition has_keyword (query : jsstring) : bool :=
existsb (fun keyword => includes (toLowerCase query) keyword) searchKeywords.

(** The four words the reply of the model is searched for. *)
Definition says_yes (response : jsstring) : bool :=
includes response (js "yes") || includes response (js "search")
|| includes response (js "web") || includes response (js "current").

(** [determineSearchNeed(query, context = '')] *)
Definition determineSearchNeed (query context : jsstring) : M W SearchNeed :=
if has_keyword query then
  ret {| needsSearch := true;
         sn_confidence := c08;
         sn_reason := js "Contains time-sensitive keywords";
         sn_thoughts := None |}
else
  try_catch
    (let! result := ollamaGenerate model (searchNeedPrompt query context) in
     let thinking := parseThinkingResponse nowISO (or_else result []) in
     let response := toLowerCase (p_response thinking) in
     let needsSearch := says_yes response in
     ret {| needsSearch := needsSearch;
            sn_confidence := if needsSearch then c07 else c06;
            sn_reason := p_response thinking;
            sn_thoughts := Some (p_thoughts thinking) |})
    (fun _ =>
       ret {| needsSearch := false;
              sn_confidence := c05;
              sn_reason := js "Analysis failed";
              sn_thoughts := None |}).

End Engine.

End ThinkingEngine.

(** ** The search rounds of the chat endpoint *)

Module ChatSearch.
Import JSString Eff Web SmartWebSearch.
#[local] Open Scope eff_scope.

(** The events the rounds send: [sendSSE(event, data)]. *)
Inductive Event : Type :=
| search_start (query : jsstring) (round total : nat)
| search_results (query : jsstring) (results total : nat)
| search_complete (reason : jsstring) (totalResults : nat).

(** The queries of the [search_start] events of a stream. *)
Definition started (events : list Event) : list jsstring :=
flat_map (fun e => match e with search_start query _ _ => [query] | _ => [] end) events.

Section Rounds.

Variable W : Type.

(** [webSearch(query, { count })] *)
Variable webSearch : jsstring -> nat -> M W (list SearchResult).

Variable nowISO : jsstring.
Variable userMessage : jsstring.

(** The rounds run on the event stream written so far and the world of
    the search backend; [sendSSE] swallows its own write errors. *)
Definition sendSSE (e : Event) : M (list Event * W) unit :=
fun s => (Normal tt, (fst s ++ [e], snd s)).

Definition search (query : jsstring) : M (list Event * W) (list SearchResult) :=
fun s => let (c, w') := webSearch query 8 (snd s) in (c, (fst s, w')).

(** [for (const query of searchQueries) { ... }] from the query [rest]
    starts with, on [searchRound], [allSearchResults] and [allThoughts];
    [total] is [searchQueries.length]. *)
Fixpoint searchRounds_loop (rest : list jsstring) (total searchRound : nat)
  (allSearchResults : list SearchResult) (allThoughts : list Thought)
  : M (list Event * W) (list SearchResult * list Thought) :=
match rest with
| [] => ret (allSearchResults, allThoughts)
| query :: rest' =>
    let! _ := sendSSE (search_start query searchRound total) in
    let! results := search query in
    let all := if Nat.ltb 0 (List.length results)
               then allSearchResults ++ results else allSearchResults in
    let! _ := (if Nat.ltb 0 (List.length results)
               then sendSSE (search_results query (List.length results) (List.length all))
               else ret tt) in
    if Nat.ltb searchRound total then
      let continueDecision :=
        shouldContinueSearching nowISO userMessage (Some all) (Some high) in
      let thoughts := allThoughts ++ d_thoughts continueDecision in
      if negb (shouldContinue continueDecision) then
        let! _ := sendSSE (search_complete (js "Sufficient results found")
                             (List.length all)) in
        ret (all, thoughts)
      else searchRounds_loop rest' total (S searchRound) all thoughts
    else searchRounds_loop rest' total (S searchRound) all allThoughts
end.

Definition searchRounds (searchQueries : list jsstring) (allThoughts : list Thought)
  : M (list Event * W) (list SearchResult * list Thought) :=
searchRounds_loop searchQueries (List.length searchQueries) 1 [] allThoughts.

End Rounds.

End ChatSearch.

(** ** The streamed reply of the model *)

Module ChatStream.
Import JSString Eff Http.
#[local] Open Scope float_scope.
#[local] Open Scope eff_scope.

(** A value [JSON.parse] returns. *)
#[warnings="-register-all"] Inductive json : Type :=
| JNull
| JBool (b : bool)
| JNumber (x : float)
| JString (s : jsstring)
| JArray (items : list json)
| JObject (members : list (jsstring * json)).

(** The value of a key in the members of an object; of two members with
    the same key [JSON.parse] keeps the later one. *)
Fixpoint assoc (key : jsstring) (members : list (jsstring * json)) : option json :=
match members with
| [] => None
| (k, v) :: rest =>
    match assoc key rest with
    | Some v' => Some v'
    | None => if eqb k key then Some v else None
    end
end.

(** [v.message] and [v.content] on a value that is not [null]: only an
    object has such a property. *)
Definition get (v : json) (key : jsstring) : option json :=
match v with
| JObject members => assoc key members
| _ => None
end.

Definition truthy_json (v : option json) : bool :=
match v with
| None | Some JNull => false
| Some (JBool b) => b
| Some (JNumber x) => negb (x =? 0) && negb (is_nan x)
| Some (JString s) => nonempty s
| Some (JArray _) | Some (JObject _) => true
end.

(** [a || b] *)
Definition or_json (a b : option json) : option json := if truthy_json a then a else b.

(** [data.message?.content || data.content || ''] *)
Definition content_of (data : json) : completion (option json) :=
match data with
| JNull => Throw (TypeError (js "Cannot read properties of null (reading 'message')"))
| _ =>
    let inner := match get data (js "message") with
                 | None | Some JNull => None
                 | Some message => get message (js "content")
                 end in
    Normal (or_json (or_json inner (get data (js "content"))) (Some (JString [])))
end.

(** [sendSSE('response_chunk', { content })] *)
Inductive Event : Type := response_chunk (content : json).

(** [s.split('\n')] without its last element, and that last element:
    the lines of [s] that a line feed ends, and what follows the last
    line feed. *)
Definition complete_lines (s : jsstring) : list jsstring := removelast (split_lines s).
Definition last_line (s : jsstring) : jsstring := List.last (split_lines s) [].

Definition no_line_feed (s : jsstring) : bool := forallb (fun c => negb (c =? LF)%N) s.

Section Stream.

(** [JSON.parse], and the string [finalAnswer += content] appends for a
    content that is not a string. *)
Variable JSON_parse : jsstring -> completion json.
Variable ToString : json -> jsstring.

(** The chunks [reader.read()] delivers, and [decoder.decode(value)]. *)
Variable Uint8Array : Type.
Variable decode : Uint8Array -> jsstring.

Definition text_of (content : option json) : jsstring :=
match content with
| Some (JString s) => s
| Some v => ToString v
| None => []
end.

Definition sendSSE (e : Event) : M (list Event) unit :=
fun sent => (Normal tt, sent ++ [e]).

(** The body of [for (const line of lines)], on [finalAnswer]. *)
Definition onLine (line finalAnswer : jsstring) : M (list Event) jsstring :=
if negb (nonempty (trim line)) then ret finalAnswer
else
  try_catch
    (let! data := lift (JSON_parse line) in
     let! content := lift (content_of data) in
     if truthy_json content then
       let finalAnswer := finalAnswer ++ text_of content in
       let! _ := sendSSE (response_chunk (default (JString []) content)) in
       ret finalAnswer
     else ret finalAnswer)
    (fun _ =>
       let finalAnswer := finalAnswer ++ line in
       let! _ := sendSSE (response_chunk (JString line)) in
       ret finalAnswer).

Fixpoint forLines (lines : list jsstring) (finalAnswer : jsstring)
  : M (list Event) jsstring :=
match lines with
| [] => ret finalAnswer
| line :: rest =>
    let! finalAnswer := onLine line finalAnswer in
    forLines rest finalAnswer
end.

(** [while (true) { const { value, done } = await reader.read(); ... }]
    over the chunks that are still to come; after them [done] is true. *)
Fixpoint readLoop (chunks : list Uint8Array) (buffer finalAnswer : jsstring)
  : M (list Event) jsstring :=
match chunks with
| [] => ret finalAnswer
| value :: rest =>
    let chunk := decode value in
    let buffer := buffer ++ chunk in
    let lines := split_lines buffer in
    let buffer := List.last lines [] in
    let! finalAnswer := forLines (removelast lines) finalAnswer in
    readLoop rest buffer finalAnswer
end.

(** What a line adds to the answer, and what it sends. *)
Definition contribution (line : jsstring) : jsstring :=
if negb (nonempty (trim line)) then []
else match JSON_parse line with
     | Normal data =>
         match content_of data with
         | Normal content => if truthy_json content then text_of content else []
         | Throw _ => line
         end
     | Throw _ => line
     end.

Definition sent (line : jsstring) : list Event :=
if negb (nonempty (trim line)) then []
else match JSON_parse line with
     | Normal data =>
         match content_of data with
         | Normal content =>
             if truthy_json content
             then [response_chunk (default (JString []) content)] else []
         | Throw _ => [response_chunk (JString line)]
         end
     | Throw _ => [response_chunk (JString line)]
     end.

End Stream.

End ChatStream.

(** ** Sessions *)

Module Sessions.
Import JSString Eff JSArray Http.
#[local] Open Scope float_scope.
#[local] Open Scope eff_scope.

(** [{ autoSearch, useMemory, temperature, titleAutoGenerated }]; the
    temperature may be [null]. *)
Record Settings : Type := {
  autoSearch : bool;
  useMemory : bool;
  temperature : option float;
  titleAutoGenerated : bool
}.

Definition defaultSettings : Settings :=
{| autoSearch := true;
   useMemory := true;
   temperature := Some SmartWebSearch.c07;
   titleAutoGenerated := false |}.

(** [JSON.stringify] writes a number that is NaN or infinite as [null]. *)
Definition stringify_number (x : option float) : option float :=
match x with
| Some v => if is_finite v then Some v else None
| None => None
end.

Definition stringify_settings (st : Settings) : Settings :=
{| autoSearch := autoSearch st;
   useMemory := useMemory st;
   temperature := stringify_number (temperature st);
   titleAutoGenerated := titleAutoGenerated st |}.

(** [s.endsWith(p)] *)
Definition endsWith (s p : jsstring) : bool := startsWith (rev s) (rev p).

Section Sessions.

(** A message of a conversation, and its [content] if it has one. *)
Variable Message : Type.
Variable messageContent : Message -> option jsstring.

(** The object a session file holds: any property may be missing; one
    that is there has the type the server writes. A message is taken as
    JSON holds it. *)
Record SessionData : Type := {
  s_id : option jsstring;
  s_name : option jsstring;
  s_model : option jsstring;
  s_created : option jsstring;
  s_updated : option jsstring;
  s_messages : option (list Message);
  s_settings : option Settings
}.

(** What a file holds: a session object; a string, a number or a boolean,
    which has none of the properties and takes no assignment; or nothing
    that can be used, a text that is not JSON or [null], on which the first
    property read throws. *)
Inductive FileContent : Type :=
| Object (data : SessionData)
| Primitive
| Unusable.

(** The disk: the content of every path that exists, the paths a write
    succeeds on, and the paths that can be removed when they exist. *)
Record world : Type := {
  files : gmap jsstring FileContent;
  writable : jsstring -> bool;
  removable : jsstring -> bool
}.

(** A value without properties. *)
Definition noProperties : SessionData :=
{| s_id := None;
   s_name := None;
   s_model := None;
   s_created := None;
   s_updated := None;
   s_messages := None;
   s_settings := None |}.

(** [readJSON(file)] together with the first property read of its caller,
    which is inside the same [try]: the object, or [None] for a primitive
    value. *)
Definition readJSON (file : jsstring) : M world (option SessionData) :=
fun w =>
  match files w !! file with
  | Some (Object data) => (Normal (Some data), w)
  | Some Primitive => (Normal None, w)
  | _ => (Throw (Error (js "Failed to read JSON file")), w)
  end.

(** What reading back [JSON.stringify(data)] gives. *)
Definition stringify (data : SessionData) : SessionData :=
{| s_id := s_id data;
   s_name := s_name data;
   s_model := s_model data;
   s_created := s_created data;
   s_updated := s_updated data;
   s_messages := s_messages data;
   s_settings := option_map stringify_settings (s_settings data) |}.

Definition writeJSON (file : jsstring) (data : SessionData) : M world unit :=
fun w =>
  if writable w file
  then (Normal tt,
        {| files := <[file := Object (stringify data)]> (files w);
           writable := writable w;
           removable := removable w |})
  else (Throw (Error (js "Failed to write JSON file")), w).

(** [fs.unlink(file)] *)
Definition unlink (file : jsstring) : M world unit :=
fun w =>
  match files w !! file with
  | Some _ =>
      if removable w file
      then (Normal tt,
            {| files := delete file (files w);
               writable := writable w;
               removable := removable w |})
      else (Throw (Error (js "EACCES")), w)
  | None => (Throw (Error (js "ENOENT")), w)
  end.

Variable CHAT_MODEL : jsstring.
Variable sessionsDir : jsstring.

(** [path.join], [nowISO()], [new Date().toLocaleString()], and the two
    parts of a fresh id, [Date.now()] and
    [Math.random().toString(36).slice(2, 8)]. *)
Variable path_join : jsstring -> jsstring -> jsstring.
Variable nowISO : jsstring.
Variable localeNow : jsstring.
Variable dateNow : jsstring.
Variable random : jsstring.

Definition sessionFile (id : jsstring) : jsstring :=
path_join sessionsDir (id ++ js ".json").

Definition createSession (name model : option jsstring) : M world SessionData :=
let id := js "session_" ++ dateNow ++ js "_" ++ random in
let sessionData :=
  {| s_id := Some id;
     s_name := Some (or_else name (js "Chat " ++ localeNow));
     s_model := Some (or_else model CHAT_MODEL);
     s_created := Some nowISO;
     s_updated := Some nowISO;
     s_messages := Some [];
     s_settings := Some defaultSettings |} in
let! _ := writeJSON (sessionFile id) sessionData in
ret sessionData.

Definition defaultData (id : jsstring) : SessionData :=
{| s_id := Some id;
   s_name := Some (js "Chat " ++ localeNow);
   s_model := Some CHAT_MODEL;
   s_created := Some nowISO;
   s_updated := Some nowISO;
   s_messages := Some [];
   s_settings := Some defaultSettings |}.

(** The three assignments [loadSession] makes to what it read. *)
Definition withDefaults (data : SessionData) : SessionData :=
{| s_id := s_id data;
   s_name := s_name data;
   s_model := if truthy (s_model data) then s_model data else Some CHAT_MODEL;
   s_created := s_created data;
   s_updated := s_updated data;
   s_messages := match s_messages data with Some ms => Some ms | None => Some [] end;
   s_settings := match s_settings data with
                 | Some st => Some st
                 | None => Some defaultSettings
                 end |}.

(** The module is in strict mode: the assignment [data.model = CHAT_MODEL]
    to a primitive value throws. *)
Definition loadSession (id : jsstring) : M world (jsstring * SessionData) :=
let file := sessionFile id in
try_catch
  (let! parsed := readJSON file in
   match parsed with
   | Some data => ret (file, withDefaults data)
   | None => throw (TypeError (js "Cannot create property 'model'"))
   end)
  (fun _ =>
     let! _ := writeJSON file (defaultData id) in
     ret (file, defaultData id)).

Definition touch (data : SessionData) : SessionData :=
{| s_id := s_id data;
   s_name := s_name data;
   s_model := s_model data;
   s_created := s_created data;
   s_updated := Some nowISO;
   s_messages := s_messages data;
   s_settings := s_settings data |}.

(** [saveSession(file, data)]; it returns the object as it leaves it, with
    the new [updated]. *)
Definition saveSession (file : jsstring) (data : SessionData) : M world SessionData :=
let! _ := writeJSON file (touch data) in
ret (touch data).

(** A session object that [loadSession] returns as it is. *)
Definition is_complete (data : SessionData) : bool :=
truthy (s_model data)
&& match s_messages data with Some _ => true | None => false end
&& match s_settings data with Some _ => true | None => false end.

(** [DELETE /api/sessions/:id]; the body of the reply is [{ ok: true }]. *)
Definition deleteSession (id : jsstring) : M world (reply unit) :=
try_catch
  (let! _ := unlink (sessionFile id) in ret (json_reply tt))
  (fun _ => ret (error_reply 404 (js "Session not found"))).

Definition withName (name : jsstring) (data : SessionData) : SessionData :=
{| s_id := s_id data;
   s_name := Some name;
   s_model := s_model data;
   s_created := s_created data;
   s_updated := s_updated data;
   s_messages := s_messages data;
   s_settings := s_settings data |}.

(** [PUT /api/sessions/:id/name]; [name] is [None] when the body has no
    name or one that is not a string. *)
Definition renameSession (id : jsstring) (name : option jsstring) : M world (reply unit) :=
try_catch
  (match name with
   | Some text =>
       if negb (nonempty text) || Nat.ltb 100 (List.length text)
       then ret (error_reply 400 (js "Invalid name"))
       else
         let! loaded := loadSession id in
         let! _ := saveSession (fst loaded) (withName (trim text) (snd loaded)) in
         ret (json_reply tt)
   | None => ret (error_reply 400 (js "Invalid name"))
   end)
  (fun error => ret (error_reply 500 (exn_message error))).

(** One entry of the listing. *)
Record Summary : Type := {
  sm_id : option jsstring;
  sm_name : option jsstring;
  sm_model : option jsstring;
  sm_created : option jsstring;
  sm_updated : option jsstring;
  messageCount : nat;
  lastMessage : option jsstring
}.

Definition summary (data : SessionData) : Summary :=
{| sm_id := s_id data;
   sm_name := s_name data;
   sm_model := s_model data;
   sm_created := s_created data;
   sm_updated := s_updated data;
   messageCount := match s_messages data with Some ms => List.length ms | None => 0%nat end;
   lastMessage :=
     match s_messages data with
     | Some ms =>
         match List.last (List.map Some ms) None with
         | Some m => option_map (firstn 100) (messageContent m)
         | None => None
         end
     | None => None
     end |}.

(** [fs.readdir(sessionsDir)], and the time value of [new Date(updated)],
    NaN for an invalid date. *)
Variable readdir : M world (list jsstring).
Variable dateValue : option jsstring -> float.

(** [(a, b) => new Date(b.updated) - new Date(a.updated)] *)
Definition byUpdatedDesc (a b : Summary) : float :=
dateValue (sm_updated b) - dateValue (sm_updated a).

(** The loop over the files: an unreadable file is skipped. *)
Fixpoint readSessions (jsonFiles : list jsstring) (sessions : list Summary)
  : M world (list Summary) :=
match jsonFiles with
| [] => ret sessions
| file :: rest =>
    let! sessions :=
      try_catch
        (let! parsed := readJSON (path_join sessionsDir file) in
         ret (sessions ++ [summary (default noProperties parsed)]))
        (fun _ => ret sessions) in
    readSessions rest sessions
end.

Definition listSessions (limit : nat) : M world (list Summary) :=
try_catch
  (let! files := readdir in
   let jsonFiles := firstn limit (List.filter (fun f => endsWith f (js ".json")) files) in
   let! sessions := readSessions jsonFiles [] in
   ret (sort byUpdatedDesc sessions))
  (fun _ => ret []).

(** The entries of the usable files among [names], in their order. *)
Definition readable_summaries (w : world) (names : list jsstring) : list Summary :=
flat_map (fun file => match files w !! path_join sessionsDir file with
                      | Some (Object data) => [summary data]
                      | Some Primitive => [summary noProperties]
                      | _ => []
                      end) names.

End Sessions.

Arguments s_id {Message} _.
Arguments s_name {Message} _.
Arguments s_model {Message} _.
Arguments s_created {Message} _.
Arguments s_updated {Message} _.
Arguments s_messages {Message} _.
Arguments s_settings {Message} _.
Arguments files {Message} _.
Arguments writable {Message} _ _.
Arguments removable {Message} _ _.
Arguments Object {Message} data.
Arguments Primitive {Message}.
Arguments Unusable {Message}.
Arguments stringify {Message} data.
Arguments is_complete {Message} data.
Arguments withName {Message} name data.

End Sessions.

(** ** The memory store of the first server (server.js) *)

Module LegacyStore.
Import JSString Eff Http Similarity JSArray.
#[local] Open Scope float_scope.
#[local] Open Scope eff_scope.

Record MemoryItem : Type := {
  id : Z;
  content : jsstring;
  tags : list jsstring;
  addedAt : jsstring;
  embedding : option vector
}.

Record Memory : Type := { longTerm : list MemoryItem; nextId : Z }.

(** What the caller hands to upsert, and what upsert makes of it:
    [{ content, tags }]. *)
Record Candidate : Type := {
  c_content : option jsstring;
  c_tags : option (list jsstring)
}.

Record NewOne : Type := { n_content : jsstring; n_tags : list jsstring }.

(** A retrieved item: [{ ...item, sim }]. *)
Record Scored : Type := { item : MemoryItem; sim : float }.

Record world : Type := {
  memoryFile : option Memory;
  writable : bool;
  writes : list Memory
}.

Definition readJSON : M world Memory :=
fun w =>
  match memoryFile w with
  | Some m => (Normal m, w)
  | None => (Throw (Error (js "Failed to read JSON file")), w)
  end.

Definition writeJSON (data : Memory) : M world unit :=
fun w =>
  if writable w
  then (Normal tt,
        {| memoryFile := Some data; writable := true; writes := writes w ++ [data] |})
  else (Throw (Error (js "Failed to write JSON file")), w).

(** No fallback here: an unreadable file makes [loadMemory] throw. *)
Definition loadMemory : M world Memory := readJSON.
Definition saveMemory (mem : Memory) : M world unit := writeJSON mem.

Section Store.

(** The embedding service, called with an array of texts. *)
Variable ollamaEmbed : list jsstring -> completion (list vector).
Variable nowISO : jsstring.
Variable toLowerCase : jsstring -> jsstring.

(** [(a, b) => b.sim - a.sim] *)
Definition bySimDesc (a b : Scored) : float := sim b - sim a.

(** [item.embedding] is there. *)
Definition has_embedding (it : MemoryItem) : bool :=
match embedding it with Some _ => true | None => false end.

(** The loop over the stored items; [cosSim] reads [a.length] first, which
    throws when there is no query vector. *)
Fixpoint score_loop (qEmb : option vector) (minSim : float) (items : list MemoryItem)
  (scored : list Scored) : completion (list Scored) :=
match items with
| [] => Normal scored
| it :: rest =>
    match embedding it with
    | None => score_loop qEmb minSim rest scored
    | Some e =>
        match qEmb with
        | None =>
            Throw (TypeError (js "Cannot read properties of undefined (reading 'length')"))
        | Some q =>
            let s := cosSim_legacy q e in
            score_loop qEmb minSim rest
              (if minSim <=? s then scored ++ [ {| item := it; sim := s |} ] else scored)
        end
    end
end.

(** [retrieveLongTermMemory(query, k = 5, minSim = 0.25)] *)
Definition retrieveLongTermMemory (query : jsstring) (k : nat) (minSim : float)
  : M world (list Scored) :=
let! mem := loadMemory in
if Nat.eqb (List.length (longTerm mem)) 0 then ret []
else
  let! embs := lift (ollamaEmbed [query]) in
  let! scored := lift (score_loop (hd_error embs) minSim (longTerm mem) []) in
  ret (firstn k (sort bySimDesc scored)).

(** The keys of the stored items: [i.content.trim().toLowerCase()]. *)
Definition existing (mem : Memory) : gset jsstring :=
list_to_set (List.map (fun i => toLowerCase (trim (content i))) (longTerm mem)).

Definition toNewOne (i : Candidate) : NewOne :=
{| n_content := trim (or_else (c_content i) []); n_tags := default [] (c_tags i) |}.

Definition is_new (mem : Memory) (i : NewOne) : bool :=
nonempty (n_content i) && negb (bool_decide (toLowerCase (n_content i) ∈ existing mem)).

(** [newOnes.forEach((it, idx) => mem.longTerm.push(...))] from [idx] on. *)
Fixpoint push_all (newOnes : list NewOne) (idx : nat) (embs : list vector) (mem : Memory)
  : Memory :=
match newOnes with
| [] => mem
| it :: rest =>
    push_all rest (S idx) embs
      {| longTerm := longTerm mem
                     ++ [ {| id := nextId mem;
                             content := n_content it;
                             tags := n_tags it;
                             addedAt := nowISO;
                             embedding := nth_error embs idx |} ];
         nextId := nextId mem + 1 |}
end.

(** [upsertLongTermMemory(items)]; [items] is [None] when it is [null] or
    [undefined]. *)
Definition upsertLongTermMemory (items : option (list Candidate)) : M world (list NewOne) :=
match items with
| None | Some [] => ret []
| Some items =>
    let! mem := loadMemory in
    let newOnes := List.filter (is_new mem) (List.map toNewOne items) in
    if Nat.eqb (List.length newOnes) 0 then ret []
    else
      let! embs := lift (ollamaEmbed (List.map n_content newOnes)) in
      let mem := push_all newOnes 0 embs mem in
      let! _ := saveMemory mem in
      ret newOnes
end.

End Store.

End LegacyStore.

(** ** The title the chat endpoint gives a session *)

Module AutoTitle.
Import JSString Eff Http Sessions.
#[local] Open Scope eff_scope.

(** The class [[.?!]]. *)
Definition is_end_mark (c : N) : bool := (c =? 46)%N || (c =? 63)%N || (c =? 33)%N.

Fixpoint drop_end_marks (s : jsstring) : jsstring :=
match s with
| c :: s' => if is_end_mark c then drop_end_marks s' else s
| [] => []
end.

(** [s.replace(/[.?!]+$/, '')]: the match, if there is one, is the run of
    end marks the string ends with. *)
Definition strip_end_marks (s : jsstring) : jsstring := rev (drop_end_marks (rev s)).

(** [sendSSE('title_updated', { title })] *)
Inductive Event : Type := title_updated (title : jsstring).

Section Title.

Variable Message : Type.
Variable messageRole : Message -> option jsstring.
Variable messageContent : Message -> option jsstring.

(** The generation backend: [result.response] of the reply to a prompt. *)
Variable ollamaGenerate : jsstring -> jsstring -> completion (option jsstring).
Variable nowISO : jsstring.
Variable model : jsstring.

Definition sendSSE (e : Event) : M (list Event * world Message) unit :=
fun s => (Normal tt, (fst s ++ [e], snd s)).

Definition onDisk {A : Type} (m : M (world Message) A) : M (list Event * world Message) A :=
fun s => let (c, w') := m (snd s) in (c, (fst s, w')).

(** [`${m.role}: ${m.content.slice(0, 100)}`] *)
Definition messageLine (m : Message) : completion jsstring :=
match messageContent m with
| Some text =>
    Normal (default (js "undefined") (messageRole m) ++ js ": " ++ firstn 100 text)
| None =>
    Throw (TypeError (js "Cannot read properties of undefined (reading 'slice')"))
end.

Fixpoint messageLines (messages : list Message) : completion (list jsstring) :=
match messages with
| [] => Normal []
| m :: rest =>
    match messageLine m with
    | Normal line =>
        match messageLines rest with
        | Normal lines => Normal (line :: lines)
        | Throw e => Throw e
        end
    | Throw e => Throw e
    end
end.

Definition titlePrompt (messages : list Message) : completion jsstring :=
match messageLines (skipn (List.length messages - 4) messages) with
| Normal lines =>
    Normal (SmartWebSearch.unlines
              [ js "Generate a concise title (4-6 words) for this conversation. Return only the title:";
                [];
                js "Recent messages:";
                SmartWebSearch.unlines lines;
                [];
                js "Title:" ])
| Throw e => Throw e
end.

Definition is_user (m : Message) : bool :=
match messageRole m with Some role => eqb role (js "user") | None => false end.

(** [!data.settings?.titleAutoGenerated] *)
Definition untitled (data : SessionData Message) : bool :=
match s_settings data with
| Some st => negb (titleAutoGenerated st)
| None => true
end.

(** The title read off a reply. *)
Definition titleOf (response : option jsstring) : jsstring :=
strip_end_marks (trim (hd [] (split_lines (or_else response [])))).

Definition flagged (data : SessionData Message) (st : Settings) : SessionData Message :=
{| s_id := s_id data;
   s_name := s_name data;
   s_model := s_model data;
   s_created := s_created data;
   s_updated := s_updated data;
   s_messages := s_messages data;
   s_settings := Some {| autoSearch := autoSearch st;
                         useMemory := useMemory st;
                         temperature := temperature st;
                         titleAutoGenerated := true |} |}.

(** The block [// Auto-generate title] of the chat endpoint, on the session
    object; it returns the object as the block leaves it. An assignment
    made before an exception stays made. *)
Definition autoTitle (file : jsstring) (data : SessionData Message)
  : M (list Event * world Message) (SessionData Message) :=
match s_messages data with
| None => ret data
| Some messages =>
    if Nat.leb 2 (List.length (List.filter is_user messages)) && untitled data then
      match titlePrompt messages with
      | Throw _ => ret data
      | Normal prompt =>
          match ollamaGenerate model prompt with
          | Throw _ => ret data
          | Normal response =>
              let title := titleOf response in
              if nonempty title && Nat.ltb 3 (List.length title)
                 && negb (bool_decide (s_name data = Some title))
              then
                let named := withName (firstn 50 title) data in
                match s_settings named with
                | None => ret named
                | Some st =>
                    let marked := flagged named st in
                    try_catch
                      (let! saved := onDisk (saveSession Message nowISO file marked) in
                       let! _ := sendSSE (title_updated (firstn 50 title)) in
                       ret saved)
                      (fun _ => ret (touch Message nowISO marked))
                end
              else ret data
          end
      end
    else ret data
end.

End Title.

Arguments untitled {Message} data.

End AutoTitle.

(** ** The sources of an answer *)

Module Sources.
Import JSString Eff Web.

(** [{ idx, title, url }] *)
Record Source : Type := { idx : nat; s_title : jsstring; s_url : jsstring }.

(** [{ ...result, content, index }] *)
Record Fetched : Type := { f_result : SearchResult; f_content : jsstring; f_index : nat }.

(** [results.map((r, i) => ({ idx: i + 1, title: r.title, url: r.url }))]
    from the index [i] on. *)
Fixpoint numberFrom (i : nat) (results : list SearchResult) : list Source :=
match results with
| [] => []
| r :: rest =>
    {| idx := i + 1; s_title := title r; s_url := url r |} :: numberFrom (S i) rest
end.

(** The sources of an answer that is not streamed: the first five of the
    deduplicated sources. *)
Definition plainSources (allSources : list SearchResult) : list Source :=
numberFrom 0 (firstn 5 allSources).

Section Select.

(** The pages are fetched concurrently: [settled i r] is what the promise
    [fetchAndClean(r.url)] of the result at index [i] settles with. *)
Variable settled : nat -> SearchResult -> completion jsstring.

(** [results.map(async (result, index) => ...)] from [index] on, as
    [Promise.allSettled] reports it. *)
Fixpoint contentResults (results : list SearchResult) (index : nat)
  : list (completion Fetched) :=
match results with
| [] => []
| result :: rest =>
    match settled index result with
    | Normal content =>
        Normal {| f_result := result; f_content := content; f_index := index + 1 |}
    | Throw e => Throw e
    end :: contentResults rest (S index)
end.

(** [.filter(p => p.status === 'fulfilled' && p.value.content.length >
    threshold).map(p => p.value)] *)
Definition validResults (threshold : nat) (settledResults : list (completion Fetched))
  : list Fetched :=
flat_map (fun p => match p with
                   | Normal value =>
                       if Nat.ltb threshold (List.length (f_content value))
                       then [value] else []
                   | Throw _ => []
                   end) settledResults.

Definition toSource (r : Fetched) : Source :=
{| idx := f_index r; s_title := title (f_result r); s_url := url (f_result r) |}.

(** The sources of the answer, from the first [top] search results. *)
Definition selectSources (top threshold : nat) (results : list SearchResult)
  : list Source :=
List.map toSource (validResults threshold (contentResults (firstn top results) 0)).

(** A source made from the result at its place, counted from one, whose
    page gave more than [threshold] characters. *)
Definition cites (threshold : nat) (results : list SearchResult) (s : Source) : Prop :=
  exists (r : SearchResult) (content : jsstring),
    nth_error results (idx s - 1) = Some r
    /\ (1 <= idx s)%nat
    /\ s_title s = title r /\ s_url s = url r
    /\ settled (idx s - 1) r = Normal content
    /\ (threshold < List.length content)%nat.

(** The chat endpoint reads the pages of the first six results and keeps
    those that gave more than 300 characters. *)
Definition chatSources : list SearchResult -> list Source := selectSources 6 300.

End Select.

End Sources.

(** ** More sample data *)

Module MoreSamples.
Import JSString Eff.

(** A disk whose memory file cannot be written. *)
Definition readonly (file : option MemoryStore.Memory) : MemoryStore.world :=
{| MemoryStore.memoryFile := file;
   MemoryStore.writable := false;
   MemoryStore.writes := [] |}.

(** A generation backend that answers every prompt with the same reply,
    and one that is down. *)
Definition replies (reply : jsstring) : jsstring -> jsstring -> M unit (option jsstring) :=
fun _ _ w => (Normal (Some reply), w).

Definition generate_down : jsstring -> jsstring -> M unit (option jsstring) :=
fun _ _ w => (Throw (Error (js "Request timeout")), w).

(** A disk with one session on it, without write protection. *)
Definition join (dir file : jsstring) : jsstring := dir ++ js "/" ++ file.

Definition chat : Sessions.SessionData jsstring :=
{| Sessions.s_id := Some (js "s1");
   Sessions.s_name := Some (js "Tea");
   Sessions.s_model := Some (js "llama3");
   Sessions.s_created := Some (js "2024-01-01T00:00:00.000Z");
   Sessions.s_updated := Some (js "2024-01-01T00:00:00.000Z");
   Sessions.s_messages := Some [js "hello"];
   Sessions.s_settings := Some Sessions.defaultSettings |}.

Definition session_disk : Sessions.world jsstring :=
{| Sessions.files :=
     {[ Sessions.sessionFile (js "sessions") join (js "s1") := Sessions.Object chat ]};
   Sessions.writable := fun _ => true;
   Sessions.removable := fun _ => true |}.





End MoreSamples.


(* ===================================================================== *)
(** * Part II: properties                                                 *)
(* ===================================================================== *)

(** ** Facts about binary64 arithmetic *)

Module Binary64Facts.
Import Binary64.

Abbreviation prec := 53%Z (only parsing).
Abbreviation emax := 1024%Z (only parsing).
Abbreviation emin := (SpecFloat.emin 53 1024) (only parsing).

Lemma shr_1_m (r : shr_record) :
  0 <= shr_m r -> shr_m (shr_1 r) = Z.div2 (shr_m r).
Proof.
  destruct r as [m r s]; simpl.
  destruct m as [|[p|p|]|p]; simpl; try reflexivity; lia.
Qed.

Lemma iter_shr_1_m (p : positive) : forall r : shr_record,
  0 <= shr_m r -> shr_m (iter_pos shr_1 p r) = shr_m r / 2 ^ Zpos p.
Proof.
  assert (step : forall r, 0 <= shr_m r -> 0 <= shr_m (shr_1 r)).
  { intros r Hr. rewrite shr_1_m by assumption. rewrite Z.div2_div.
    apply Z.div_pos; lia. }
  induction p as [p IH|p IH|]; intros r Hr; cbn [iter_pos].
  - rewrite IH, IH, shr_1_m; auto.
    + rewrite Z.div2_div, !Z.div_div by lia.
      f_equal. replace (Zpos p~1) with (1 + (Zpos p + Zpos p)) by lia.
      rewrite !Z.pow_add_r by lia. lia.
    + rewrite IH by auto. apply Z.div_pos; [auto|lia].
  - rewrite IH, IH; auto.
    + rewrite Z.div_div by lia. f_equal.
      replace (Zpos p~0) with (Zpos p + Zpos p) by lia.
      rewrite Z.pow_add_r by lia. lia.
    + rewrite IH by auto. apply Z.div_pos; [auto|lia].
  - rewrite shr_1_m by assumption. rewrite Z.div2_div. reflexivity.
Qed.

Lemma digits2_pos_bounds (m : positive) :
  2 ^ (Zpos (digits2_pos m) - 1) <= Zpos m < 2 ^ Zpos (digits2_pos m).
Proof.
  induction m as [m IH|m IH|]; cbn [digits2_pos].
  - rewrite Pos2Z.inj_succ, Z.pow_succ_r by lia.
    replace (Z.succ (Zpos (digits2_pos m)) - 1)
      with (Z.succ (Zpos (digits2_pos m) - 1)) by lia.
    rewrite Z.pow_succ_r by lia. lia.
  - rewrite Pos2Z.inj_succ, Z.pow_succ_r by lia.
    replace (Z.succ (Zpos (digits2_pos m)) - 1)
      with (Z.succ (Zpos (digits2_pos m) - 1)) by lia.
    rewrite Z.pow_succ_r by lia. lia.
  - simpl. lia.
Qed.

Lemma shr_record_of_loc_m (m : Z) (l : location) : shr_m (shr_record_of_loc m l) = m.
Proof. destruct l as [|[]]; reflexivity. Qed.

(** Shifting a positive mantissa to its canonical exponent never loses it
    entirely as long as the exponent is not below [emin]. *)
Lemma shr_fexp_pos (m e : Z) (l : location) :
  0 < m -> emin <= e ->
  0 < shr_m (fst (shr_fexp prec emax m e l)) /\ emin <= snd (shr_fexp prec emax m e l).
Proof.
  intros Hm He. unfold shr_fexp, shr.
  destruct m as [|m|m]; try lia. cbn [Zdigits2].
  pose proof (digits2_pos_bounds m) as Hd.
  set (d := Zpos (digits2_pos m)) in *.
  destruct (fexp prec emax (d + e) - e) as [|n|n] eqn:Hn; cbn [fst snd];
    rewrite ?shr_record_of_loc_m; try (split; lia).
  rewrite iter_shr_1_m by (rewrite shr_record_of_loc_m; lia).
  rewrite shr_record_of_loc_m.
  unfold fexp in Hn. unfold SpecFloat.emin in *.
  assert (Zpos n = d - prec) as -> by lia.
  split; [|lia].
  assert (2 ^ (d - 1) = 2 ^ (prec - 1) * 2 ^ (d - prec)) as E.
  { rewrite <- Z.pow_add_r by lia. f_equal. lia. }
  assert (0 < 2 ^ (d - prec)) by (apply Z.pow_pos_nonneg; lia).
  assert (2 ^ (prec - 1) <= Zpos m / 2 ^ (d - prec)).
  { apply Z.div_le_lower_bound; lia. }
  assert (0 < 2 ^ (prec - 1)) by (apply Z.pow_pos_nonneg; lia).
  lia.
Qed.

Lemma round_nearest_even_ge (m : Z) (l : location) : m <= round_nearest_even m l.
Proof. destruct l as [|[]]; simpl; try lia. destruct (Z.even m); lia. Qed.

Lemma binary_round_aux_nonzero (s : bool) (m e : Z) (l : location) :
  0 < m -> emin <= e ->
  signed_nonzero s (binary_round_aux prec emax s m e l).
Proof.
  intros Hm He. unfold binary_round_aux.
  destruct (shr_fexp_pos m e l Hm He) as [H1 H2].
  destruct (shr_fexp prec emax m e l) as [mrs' e']; simpl in H1, H2.
  pose proof (round_nearest_even_ge (shr_m mrs') (loc_of_shr_record mrs')) as Hr.
  set (m1 := round_nearest_even _ _) in *.
  destruct (shr_fexp_pos m1 e' loc_Exact ltac:(lia) H2) as [H3 H4].
  destruct (shr_fexp prec emax m1 e' loc_Exact) as [mrs'' e'']; simpl in H3, H4.
  destruct (shr_m mrs''); try lia.
  destruct (e'' <=? emax - prec); constructor.
Qed.

Lemma iter_xO (d m : positive) : Zpos (Pos.iter xO m d) = Zpos m * 2 ^ Zpos d.
Proof.
  rewrite <- (Pos2Z.inj_pow 2 d), <- Pos2Z.inj_mul. f_equal.
  revert m. induction d using Pos.peano_ind; intros m.
  - simpl. lia.
  - rewrite Pos.iter_succ, IHd, Pos.pow_succ_r. lia.
Qed.

Lemma shl_align_spec (m : positive) (e e' : Z) :
  e' <= e ->
  Zpos (fst (shl_align m e e')) = Zpos m * 2 ^ (e - e') /\ snd (shl_align m e e') = e'.
Proof.
  intros H. unfold shl_align.
  destruct (e' - e) as [|d|d] eqn:E; cbn [fst snd]; try lia.
  - assert (e - e' = 0) as -> by lia. rewrite Z.pow_0_r. lia.
  - rewrite iter_xO. split; [|reflexivity]. do 2 f_equal. lia.
Qed.

Lemma binary_round_nonzero (s : bool) (m : positive) (e : Z) :
  emin <= e -> signed_nonzero s (binary_round prec emax s m e).
Proof.
  intros He. unfold binary_round.
  destruct (shl_align m e _) as [mz ez] eqn:E.
  apply binary_round_aux_nonzero; [lia|].
  unfold shl_align in E.
  destruct (fexp prec emax (Zpos (digits2_pos m) + e) - e) eqn:E';
    inversion E; subst; try lia.
  unfold fexp, SpecFloat.emin in *. lia.
Qed.

Lemma ltb_zero_signed_nonzero (s : bool) (x : spec_float) :
  signed_nonzero s x -> SFltb (S754_zero false) x = negb s.
Proof. intros []; destruct s; reflexivity. Qed.

Lemma ltb_zero_normalize (D ez : Z) :
  emin <= ez ->
  SFltb (S754_zero false) (binary_normalize prec emax D ez false) = (0 <? D).
Proof.
  intros He. destruct D as [|m|m]; cbn [binary_normalize].
  - reflexivity.
  - rewrite (ltb_zero_signed_nonzero false) by (apply binary_round_nonzero; assumption).
    reflexivity.
  - rewrite (ltb_zero_signed_nonzero true) by (apply binary_round_nonzero; assumption).
    reflexivity.
Qed.

Lemma bounded_inv (m : positive) (e : Z) :
  bounded prec emax m e = true ->
  emin <= e /\ Zpos (digits2_pos m) <= prec /\ (emin < e -> Zpos (digits2_pos m) = prec).
Proof.
  unfold bounded, canonical_mantissa, fexp, SpecFloat.emin.
  intros H. apply andb_prop in H as [H _]. apply Z.eqb_eq in H. lia.
Qed.

(** On canonical mantissas the exponent decides the magnitude. *)
Lemma canonical_lt (mx my : positive) (ex ey : Z) :
  bounded prec emax mx ex = true -> bounded prec emax my ey = true ->
  ex < ey -> Zpos mx < Zpos my * 2 ^ (ey - ex).
Proof.
  intros Hx Hy Hlt.
  apply bounded_inv in Hx as (Hx1 & Hx2 & _), Hy as (Hy1 & _ & Hy3).
  specialize (Hy3 ltac:(lia)).
  pose proof (digits2_pos_bounds mx) as [_ Bx].
  pose proof (digits2_pos_bounds my) as [By _].
  rewrite Hy3 in By.
  assert (2 ^ Zpos (digits2_pos mx) <= 2 ^ prec) by (apply Z.pow_le_mono_r; lia).
  assert (2 ^ 1 <= 2 ^ (ey - ex)) by (apply Z.pow_le_mono_r; lia).
  change (2 ^ 1) with 2 in *. change (2 ^ (prec - 1)) with 4503599627370496 in By.
  change (2 ^ prec) with 9007199254740992 in *.
  nia.
Qed.

Lemma SFltb_sub_finite (sx sy : bool) (mx my : positive) (ex ey : Z) :
  bounded prec emax mx ex = true -> bounded prec emax my ey = true ->
  SFltb (S754_zero false)
        (SFsub prec emax (S754_finite sy my ey) (S754_finite sx mx ex))
  = SFltb (S754_finite sx mx ex) (S754_finite sy my ey).
Proof.
  intros Hx Hy. cbn [SFsub].
  pose proof (bounded_inv _ _ Hx) as (Hx1 & _).
  pose proof (bounded_inv _ _ Hy) as (Hy1 & _).
  rewrite ltb_zero_normalize by lia.
  destruct (shl_align_spec my ey (Z.min ey ex) ltac:(lia)) as [-> _].
  destruct (shl_align_spec mx ex (Z.min ey ex) ltac:(lia)) as [-> _].
  unfold SFltb, SFcompare.
  change (Pos.compare_cont Eq mx my) with (Pos.compare mx my).
  change (Pos.compare mx my) with (Z.compare (Zpos mx) (Zpos my)).
  assert (0 < 2 ^ (ey - Z.min ey ex)) by (apply Z.pow_pos_nonneg; lia).
  assert (0 < 2 ^ (ex - Z.min ey ex)) by (apply Z.pow_pos_nonneg; lia).
  destruct (Z.compare_spec ex ey) as [E|E|E].
  - subst ey. rewrite Z.min_id, Z.sub_diag in *. rewrite Z.pow_0_r, !Z.mul_1_r.
    destruct sx, sy; cbn [cond_Zopp]; try (apply Z.ltb_lt; lia); try (apply Z.ltb_ge; lia).
    + destruct (Z.compare_spec (Zpos mx) (Zpos my)); cbn [CompOpp];
        try (apply Z.ltb_lt; lia); try (apply Z.ltb_ge; lia).
    + destruct (Z.compare_spec (Zpos mx) (Zpos my)); cbn [CompOpp];
        try (apply Z.ltb_lt; lia); try (apply Z.ltb_ge; lia).
  - pose proof (canonical_lt _ _ _ _ Hx Hy E) as L.
    rewrite Z.min_r in * by lia. rewrite Z.sub_diag, Z.pow_0_r, Z.mul_1_r in *.
    destruct sx, sy; cbn [cond_Zopp]; try (apply Z.ltb_lt; lia); try (apply Z.ltb_ge; lia).
  - pose proof (canonical_lt _ _ _ _ Hy Hx E) as L.
    rewrite Z.min_l in * by lia. rewrite Z.sub_diag, Z.pow_0_r, Z.mul_1_r in *.
    destruct sx, sy; cbn [cond_Zopp]; try (apply Z.ltb_lt; lia); try (apply Z.ltb_ge; lia).
Qed.

Lemma SFltb_sub (x y : spec_float) :
  SpecFloat.valid_binary prec emax x = true ->
  SpecFloat.valid_binary prec emax y = true ->
  x <> S754_nan -> y <> S754_nan ->
  SFltb (S754_zero false) (SFsub prec emax y x) = SFltb x y.
Proof.
  intros Vx Vy Nx Ny.
  destruct x as [sx|sx| |sx mx ex], y as [sy|sy| |sy my ey]; try congruence;
    try (destruct sx, sy; reflexivity); try (destruct sx; reflexivity);
    try (destruct sy; reflexivity).
  apply SFltb_sub_finite; assumption.
Qed.

(** The order of the specification is a total preorder away from NaN;
    each fact is a case analysis on the two or three numbers. *)
Ltac sf_cases :=
  unfold SFleb, SFltb, SFeqb, SFcompare;
  repeat match goal with
         | x : spec_float |- _ => destruct x as [[]|[]| |[] ? ?]
         end;
  intros; try congruence; try reflexivity;
  change (Pos.compare_cont Eq) with Pos.compare in *;
  repeat match goal with
         | H : context [Z.compare ?a ?b] |- _ => destruct (Z.compare_spec a b)
         | |- context [Z.compare ?a ?b] => destruct (Z.compare_spec a b)
         | H : context [Pos.compare ?a ?b] |- _ => destruct (Pos.compare_spec a b)
         | |- context [Pos.compare ?a ?b] => destruct (Pos.compare_spec a b)
         end;
  cbn [CompOpp] in *; subst; try congruence; try reflexivity; try lia.

Lemma SFleb_trans (x y z : spec_float) :
  SFleb x y = true -> SFleb y z = true -> SFleb x z = true.
Proof. sf_cases. Qed.

Lemma SFltb_false_leb (x y : spec_float) :
  x <> S754_nan -> y <> S754_nan -> SFltb x y = false -> SFleb y x = true.
Proof. sf_cases. Qed.

Lemma SFltb_leb (x y : spec_float) : SFltb x y = true -> SFleb x y = true.
Proof. sf_cases. Qed.

Lemma SFltb_eqb_false (x y s : spec_float) :
  SFltb x y = true -> SFeqb x s = true -> SFeqb y s = false.
Proof. sf_cases. Qed.

Lemma SFleb_not_nan (x y : spec_float) :
  SFleb x y = true -> x <> S754_nan /\ y <> S754_nan.
Proof. sf_cases; split; congruence. Qed.

#[local] Open Scope float_scope.

Lemma is_nan_false (x : float) : is_nan x = false <-> Prim2SF x <> S754_nan.
Proof.
  unfold is_nan. rewrite FloatAxioms.eqb_spec.
  destruct (Prim2SF x) as [[]|[]| |[] m e]; unfold SFeqb, SFcompare;
    rewrite ?Z.compare_refl, ?Pos.compare_cont_refl; cbn [CompOpp negb];
    split; try congruence; try discriminate.
Qed.

(** The sign of a difference decides the order of its operands: gradual
    underflow keeps the difference of two different numbers away from
    zero. *)
Lemma sub_pos_iff_lt (x y : float) :
  is_nan x = false -> is_nan y = false -> (0 <? y - x) = (x <? y).
Proof.
  intros Hx Hy. rewrite !ltb_spec, sub_spec.
  change (Prim2SF 0) with (S754_zero false).
  apply SFltb_sub; try apply Prim2SF_valid; apply is_nan_false; assumption.
Qed.

Lemma leb_not_nan (x y : float) : (x <=? y) = true -> is_nan x = false /\ is_nan y = false.
Proof.
  rewrite leb_spec, !is_nan_false. apply SFleb_not_nan.
Qed.

Lemma leb_trans (x y z : float) :
  (x <=? y) = true -> (y <=? z) = true -> (x <=? z) = true.
Proof. rewrite !leb_spec. apply SFleb_trans. Qed.

Lemma ltb_false_leb (x y : float) :
  is_nan x = false -> is_nan y = false -> (x <? y) = false -> (y <=? x) = true.
Proof. rewrite !is_nan_false, ltb_spec, leb_spec. apply SFltb_false_leb. Qed.

Lemma ltb_leb (x y : float) : (x <? y) = true -> (x <=? y) = true.
Proof. rewrite ltb_spec, leb_spec. apply SFltb_leb. Qed.

Lemma ltb_eqb_false (x y s : float) :
  (x <? y) = true -> (x =? s) = true -> (y =? s) = false.
Proof. rewrite ltb_spec, !FloatAxioms.eqb_spec. apply SFltb_eqb_false. Qed.

(** Floats on the specification side. *)
Lemma is_finite_SF (x : float) : is_finite x = SFis_finite (Prim2SF x).
Proof.
  unfold is_finite, is_nan, is_infinity.
  rewrite !FloatAxioms.eqb_spec, abs_spec.
  change (Prim2SF infinity) with (S754_infinity false).
  destruct (Prim2SF x) as [[]|[]| |[] m e]; unfold SFeqb, SFcompare, SFabs;
    rewrite ?Z.compare_refl, ?Pos.compare_cont_refl; reflexivity.
Qed.

Lemma is_zero_SF (x : float) : (x =? 0) = SFis_zero (Prim2SF x).
Proof.
  rewrite FloatAxioms.eqb_spec. change (Prim2SF 0) with (S754_zero false).
  destruct (Prim2SF x) as [[]|[]| |[] m e]; reflexivity.
Qed.

Lemma SF_zero_eq (x : float) : Prim2SF x = S754_zero false -> x = 0.
Proof. intros H. apply Prim2SF_inj. exact H. Qed.

Lemma SFadd_finite_inv (x y : spec_float) :
  SFis_finite (SFadd prec emax x y) = true ->
  SFis_finite x = true /\ SFis_finite y = true.
Proof. destruct x as [[]|[]| |[] ? ?], y as [[]|[]| |[] ? ?]; cbn; auto. Qed.

Lemma SFmul_finite_inv (x y : spec_float) :
  SFis_finite (SFmul prec emax x y) = true ->
  SFis_finite x = true /\ SFis_finite y = true.
Proof. destruct x as [[]|[]| |[] ? ?], y as [[]|[]| |[] ? ?]; cbn; auto. Qed.

Lemma SFsqrt_finite_inv (x : spec_float) :
  SFis_finite (SFsqrt prec emax x) = true -> SFis_finite x = true.
Proof. destruct x as [[]|[]| |[] ? ?]; cbn; auto. Qed.

Lemma SFmul_zero_l (x y : spec_float) :
  SFis_zero x = true -> SFis_finite y = true -> SFis_zero (SFmul prec emax x y) = true.
Proof. destruct x as [[]|[]| |[] ? ?], y as [[]|[]| |[] ? ?]; cbn; congruence. Qed.

Lemma SFadd_pzero_zero (y : spec_float) :
  SFis_zero y = true -> SFadd prec emax (S754_zero false) y = S754_zero false.
Proof. destruct y as [[]|[]| |[] ? ?]; cbn; congruence. Qed.

Lemma SFadd_zero_finite (x : spec_float) (s : bool) (m : positive) (e : Z) :
  SFis_zero x = true -> SFadd prec emax x (S754_finite s m e) = S754_finite s m e.
Proof. destruct x as [[]|[]| |[] ? ?]; cbn; congruence. Qed.

(** Rounding keeps the sign it is given. *)
Lemma binary_round_aux_not_negative (m e : Z) (l : location) :
  SFnot_negative (binary_round_aux prec emax false m e l) = true.
Proof.
  unfold binary_round_aux.
  destruct (shr_fexp prec emax m e l) as [mrs' e'].
  destruct (shr_fexp prec emax _ e' loc_Exact) as [mrs'' e''].
  destruct (shr_m mrs''); [reflexivity | | reflexivity].
  destruct (e'' <=? emax - prec)%Z; reflexivity.
Qed.

Lemma SFsqrt_not_negative (x : spec_float) :
  SFnot_negative (SFsqrt prec emax x) = true.
Proof.
  destruct x as [[]|[]| |[] m e]; try reflexivity.
  unfold SFsqrt. destruct (SFsqrt_core_binary prec emax (Zpos m) e) as [[mz ez] lz].
  apply binary_round_aux_not_negative.
Qed.

Lemma SFmul_not_negative (x y : spec_float) :
  SFnot_negative x = true -> SFnot_negative y = true ->
  SFnot_negative (SFmul prec emax x y) = true.
Proof.
  destruct x as [[]|[]| |[] mx ex], y as [[]|[]| |[] my ey]; try reflexivity;
    try discriminate.
  intros _ _. apply binary_round_aux_not_negative.
Qed.

Lemma eqb_zero_signed_nonzero (s : bool) (x : spec_float) :
  signed_nonzero s x -> SFeqb x (S754_zero false) = false.
Proof. intros []; destruct s; reflexivity. Qed.

(** Adding a positive number to a number that is not negative never gives
    zero. *)
Lemma SFadd_positive_nonzero (x : spec_float) (m : positive) (e : Z) :
  SpecFloat.valid_binary prec emax x = true -> bounded prec emax m e = true ->
  SFnot_negative x = true ->
  SFeqb (SFadd prec emax x (S754_finite false m e)) (S754_zero false) = false.
Proof.
  intros Vx Vm Hx.
  destruct x as [[]|[]| |[] mx ex]; try reflexivity; try discriminate.
  cbn [SFadd cond_Zopp]. cbn [SpecFloat.valid_binary] in Vx.
  pose proof (bounded_inv _ _ Vx) as (Hx1 & _).
  pose proof (bounded_inv _ _ Vm) as (Hm1 & _).
  set (ez := Z.min ex e).
  assert (Hez : (emin <= ez)%Z) by (unfold ez; lia).
  change (Zpos (fst (shl_align mx ex ez)) + Zpos (fst (shl_align m e ez)))%Z
    with (Zpos (fst (shl_align mx ex ez) + fst (shl_align m e ez))).
  cbn [binary_normalize].
  apply (eqb_zero_signed_nonzero false), binary_round_nonzero. assumption.
Qed.

End Binary64Facts.

(** ** The similarity engine *)

Module SimilarityFacts.
Import Binary64 Binary64Facts Similarity.
#[local] Open Scope float_scope.

Lemma zero_is_finite (x : float) : (x =? 0) = true -> is_finite x = true.
Proof.
  rewrite is_zero_SF, is_finite_SF. destruct (Prim2SF x); cbn; congruence.
Qed.

(** Adding the product of a zero and a finite number to +0 leaves +0. *)
Lemma add_zero_mul (x y : float) :
  (x =? 0) = true -> is_finite y = true -> 0 + x * y = 0.
Proof.
  rewrite is_zero_SF, is_finite_SF. intros Hx Hy.
  apply SF_zero_eq. rewrite add_spec, mul_spec.
  change (Prim2SF 0) with (S754_zero false).
  apply SFadd_pzero_zero, SFmul_zero_l; assumption.
Qed.

Lemma add_finite_inv (x y : float) :
  is_finite (x + y) = true -> is_finite x = true /\ is_finite y = true.
Proof. rewrite !is_finite_SF, add_spec. apply SFadd_finite_inv. Qed.

Lemma square_finite_inv (x : float) : is_finite (x * x) = true -> is_finite x = true.
Proof. rewrite !is_finite_SF, mul_spec. intros H. apply SFmul_finite_inv in H. tauto. Qed.

Lemma sqrt_finite_inv (x : float) : is_finite (sqrt x) = true -> is_finite x = true.
Proof. rewrite !is_finite_SF, sqrt_spec. apply SFsqrt_finite_inv. Qed.

(** A finite sum of squares has finite terms. *)
Lemma sum_of_squares_finite (v : vector) : forall acc : float,
  is_finite (fold_left (fun acc y => acc + y * y) v acc) = true ->
  is_finite acc = true /\ Forall (fun y => is_finite y = true) v.
Proof.
  induction v as [|y v IH]; intros acc H; cbn [fold_left] in H.
  - split; [assumption | constructor].
  - apply IH in H as [H1 H2]. apply add_finite_inv in H1 as [Ha Hy].
    split; [assumption|]. constructor; [|assumption].
    apply square_finite_inv. assumption.
Qed.

(** The loop on a zero vector: the dot product and [normA] stay +0, and
    [normB] is the sum of the squares of the other vector. *)
Lemma cosSim_loop_zero (z : vector) : forall (v : vector) (acc : sums),
  List.length z = List.length v ->
  is_zero_vector z = true ->
  Forall (fun y => is_finite y = true) v ->
  dotProduct acc = 0 -> normA acc = 0 ->
  dotProduct (cosSim_loop z v acc) = 0
  /\ normA (cosSim_loop z v acc) = 0
  /\ normB (cosSim_loop z v acc) = fold_left (fun acc y => acc + y * y) v (normB acc).
Proof.
  induction z as [|x z IH]; intros v acc Hlen Hz Hv Hd Ha.
  - destruct v; [|discriminate]. cbn. auto.
  - destruct v as [|y v]; [discriminate|].
    cbn [is_zero_vector forallb] in Hz. apply andb_prop in Hz as [Hx Hz].
    inversion Hv as [|? ? Hy Hv']; subst.
    cbn [cosSim_loop hd tl fold_left]. injection Hlen as Hlen.
    apply IH; auto; cbn [dotProduct normA].
    + rewrite Hd. apply add_zero_mul; assumption.
    + rewrite Ha. apply add_zero_mul; [assumption|]. apply zero_is_finite. assumption.
Qed.

Lemma zero_sums (z v : vector) :
  List.length z = List.length v ->
  is_zero_vector z = true ->
  is_finite (sqrt (sumOfSquares v)) = true ->
  dotProduct (cosSim_loop z v sums0) = 0
  /\ normA (cosSim_loop z v sums0) = 0
  /\ normB (cosSim_loop z v sums0) = sumOfSquares v.
Proof.
  intros Hlen Hz Hn. apply sqrt_finite_inv in Hn.
  apply sum_of_squares_finite in Hn as [_ Hv].
  apply (cosSim_loop_zero z v sums0); auto.
Qed.

(** [sqrt 0 * s] is a zero when [s] is finite. *)
Lemma zero_denominator (s : float) : is_finite s = true -> (sqrt 0 * s =? 0) = true.
Proof.
  rewrite is_finite_SF, is_zero_SF, mul_spec. intros H.
  apply SFmul_zero_l; [reflexivity | assumption].
Qed.

Lemma epsilon_SF : exists m e, Prim2SF epsilon = S754_finite false m e.
Proof. vm_compute. eauto. Qed.

Lemma zero_plus_epsilon (d : float) : (d =? 0) = true -> d + epsilon = epsilon.
Proof.
  rewrite is_zero_SF. intros H. apply Prim2SF_inj. rewrite add_spec.
  destruct epsilon_SF as (m & e & ->).
  apply SFadd_zero_finite. assumption.
Qed.

Lemma zero_over_epsilon (d : float) : (d =? 0) = true -> 0 / (d + epsilon) = 0.
Proof.
  intros H. rewrite zero_plus_epsilon by assumption. reflexivity.
Qed.

(** The denominator of the first server is never zero: the product of
    the two square roots is not negative, and the epsilon is positive. *)
Lemma denominator_legacy_nonzero (a b : vector) : (denominator_legacy a b =? 0) = false.
Proof.
  unfold denominator_legacy, denominator. cbn zeta.
  set (s := cosSim_loop a b sums0).
  rewrite FloatAxioms.eqb_spec, add_spec. change (Prim2SF 0) with (S754_zero false).
  pose proof (Prim2SF_valid epsilon) as Ve.
  destruct epsilon_SF as (m & e & He). rewrite He in *.
  apply SFadd_positive_nonzero.
  - apply Prim2SF_valid.
  - exact Ve.
  - rewrite mul_spec, !sqrt_spec.
    apply SFmul_not_negative; apply SFsqrt_not_negative.
Qed.

(** The core server divides only by a denominator that is not zero. *)
Lemma cosSim_guarded (a b : vector) :
  (denominator a b =? 0) = true -> cosSim (Some a) (Some b) = 0.
Proof.
  intros H. unfold cosSim. rewrite H. destruct (negb _); reflexivity.
Qed.

(** C8, as stated, fails: against the one-entry vector [1e200] (its
    nearest binary64 value is written out below) the zero vector has
    similarity NaN in both servers, because the sum of squares overflows to
    infinity and [0 * Infinity] is NaN; the guard [denominator === 0] does
    not catch NaN, and neither does the epsilon. *)
Lemma cosSim_zero_vector_overflow :
  cosSim (Some [0]) (Some [0x1.4e718d7d7625ap+664]) = nan
  /\ cosSim_legacy [0] [0x1.4e718d7d7625ap+664] = nan
  /\ is_nan nan = true /\ (nan =? 0) = false.
Proof. vm_compute. auto. Qed.

(** C8, amended: for every vector [v] whose norm, as the loop computes it,
    is a finite number (no NaN or infinite entry, no overflow of the sum of
    squares), and every all-zero vector [z] of the same length, both
    servers return 0. Neither server ever divides by zero, whatever the two
    vectors: the core server returns 0 without dividing when its
    denominator is zero, and the denominator of the first server, with its
    epsilon, is never zero. *)
Theorem cosSim_zero_vector (z v : vector) :
  List.length z = List.length v ->
  is_zero_vector z = true ->
  is_finite (sqrt (sumOfSquares v)) = true ->
  cosSim (Some z) (Some v) = 0
  /\ (denominator z v =? 0) = true
  /\ cosSim_legacy z v = 0
  /\ denominator_legacy z v = epsilon
  /\ (forall a b : vector,
        (denominator a b =? 0) = true -> cosSim (Some a) (Some b) = 0)
  /\ (forall a b : vector, (denominator_legacy a b =? 0) = false).
Proof.
  intros Hlen Hz Hn.
  destruct (zero_sums z v Hlen Hz Hn) as (Hd & Ha & Hb).
  assert (Hden : (denominator z v =? 0) = true).
  { unfold denominator. cbn zeta. rewrite Ha, Hb. apply zero_denominator. assumption. }
  split; [|split; [|split; [|split; [|split]]]].
  - apply cosSim_guarded. assumption.
  - assumption.
  - unfold cosSim_legacy, denominator_legacy. rewrite Hd.
    apply zero_over_epsilon. assumption.
  - unfold denominator_legacy. apply zero_plus_epsilon. assumption.
  - exact cosSim_guarded.
  - exact denominator_legacy_nonzero.
Qed.

Lemma cosSim_zero_vector_witness :
  cosSim (Some [0; 0]) (Some [3; 4]) = 0
  /\ (denominator [0; 0] [3; 4] =? 0) = true
  /\ cosSim_legacy [0; 0] [3; 4] = 0
  /\ denominator_legacy [0; 0] [3; 4] = epsilon.
Proof.
  destruct (cosSim_zero_vector [0; 0] [3; 4] eq_refl eq_refl eq_refl)
    as (H1 & H2 & H3 & H4 & _).
  auto.
Defined.

(** C10: the core server's [cosSim] returns 0, not NaN and not a value
    computed on a truncated vector, whenever an argument is null or
    undefined or the two vectors differ in length. *)
Theorem cosSim_guard (a b : option vector) :
  a = None \/ b = None
  \/ (exists va vb, a = Some va /\ b = Some vb /\ List.length va <> List.length vb) ->
  cosSim a b = 0.
Proof.
  intros [-> | [-> | (va & vb & -> & -> & Hne)]].
  - reflexivity.
  - destruct a; reflexivity.
  - unfold cosSim. apply Nat.eqb_neq in Hne. rewrite Hne. reflexivity.
Qed.

Lemma cosSim_guard_witness : cosSim (Some [1; 2]) (Some [1]) = 0.
Proof.
  apply (cosSim_guard (Some [1; 2]) (Some [1])).
  right; right. exists [1; 2], [1]. repeat split; cbn; lia.
Defined.

End SimilarityFacts.

(** ** The search orchestrator *)

Module SmartWebSearchFacts.
Import JSString Eff Web SmartWebSearch.

Lemma eqb_eq (s t : jsstring) : eqb s t = true <-> s = t.
Proof. unfold eqb. apply bool_decide_eq_true. Qed.

Lemma continuation_table (n : nat) (complexity : jsstring) :
  (n = 0%nat -> fst (fst (continuation n complexity)) = true)
  /\ ((1 <= n <= 2)%nat ->
      (fst (fst (continuation n complexity)) = true <-> complexity = high))
  /\ ((3 <= n <= 7)%nat ->
      (fst (fst (continuation n complexity)) = true
       <-> complexity = high /\ (n < 5)%nat))
  /\ ((8 <= n)%nat -> fst (fst (continuation n complexity)) = false).
Proof.
  unfold continuation.
  destruct (Nat.eqb_spec n 0) as [E0|E0]; cbn [fst].
  { repeat split; intros; try lia; reflexivity. }
  destruct (Nat.ltb_spec n 3) as [E3|E3]; cbn [fst].
  { repeat split; intros; try lia; apply eqb_eq; assumption. }
  destruct (Nat.ltb_spec n 8) as [E8|E8]; cbn [fst].
  { repeat split; intros; try lia.
    - apply eqb_eq. eapply proj1, andb_prop. eassumption.
    - apply Nat.ltb_lt. eapply proj2, andb_prop. eassumption.
    - apply andb_true_intro. split; [apply eqb_eq | apply Nat.ltb_lt]; tauto. }
  repeat split; intros; try lia; try discriminate.
Qed.

Lemma shouldContinueSearching_fields (A : Type) (nowISO query : jsstring)
  (currentResults : option (list A)) (complexity : option jsstring) :
  let n := match currentResults with Some l => List.length l | None => 0%nat end in
  let d := shouldContinueSearching nowISO query currentResults complexity in
  resultCount d = n
  /\ shouldContinue d = fst (fst (continuation n (default medium complexity))).
Proof.
  cbv zeta. unfold shouldContinueSearching.
  destruct (continuation _ _) as [[b r] c]. split; reflexivity.
Qed.

(** C3: the decision depends on the number of results and the complexity
    only: continue on no result; on 1 or 2 results continue exactly when the
    complexity is 'high'; on 3 to 7 results continue exactly when the
    complexity is 'high' and there are fewer than 5; stop on 8 or more. The
    three sample calls of the specification are the last three lines. *)
Theorem shouldContinueSearching_table (A : Type) (nowISO query : jsstring)
  (currentResults : option (list A)) (complexity : jsstring) :
  let d := shouldContinueSearching nowISO query currentResults (Some complexity) in
  let n := resultCount d in
  n = match currentResults with Some l => List.length l | None => 0%nat end
  /\ (forall (nowISO' query' : jsstring) (currentResults' : option (list A)),
        resultCount (shouldContinueSearching nowISO' query' currentResults'
                       (Some complexity)) = n ->
        shouldContinue (shouldContinueSearching nowISO' query' currentResults'
                          (Some complexity)) = shouldContinue d)
  /\ (n = 0%nat -> shouldContinue d = true)
  /\ ((1 <= n <= 2)%nat -> (shouldContinue d = true <-> complexity = high))
  /\ ((3 <= n <= 7)%nat ->
      (shouldContinue d = true <-> complexity = high /\ (n < 5)%nat))
  /\ ((8 <= n)%nat -> shouldContinue d = false)
  /\ shouldContinue (shouldContinueSearching nowISO query (Some (@nil A)) (Some medium))
     = true
  /\ (forall x y : A,
        shouldContinue (shouldContinueSearching nowISO query (Some [x; y]) (Some high))
        = true)
  /\ (forall x : A,
        shouldContinue
          (shouldContinueSearching nowISO query (Some (repeat x 8)) (Some high))
        = false).
Proof.
  cbv zeta.
  destruct (shouldContinueSearching_fields A nowISO query currentResults (Some complexity))
    as [Hn Hd].
  cbv zeta in Hn, Hd. cbn [default] in Hd. rewrite Hn, Hd.
  split; [reflexivity|]. split.
  { intros nowISO' query' currentResults' Hn'.
    destruct (shouldContinueSearching_fields A nowISO' query' currentResults'
                (Some complexity)) as [Hn2 Hd2].
    cbv zeta in Hn2, Hd2. cbn [default] in Hd2. rewrite Hd2. congruence. }
  destruct (continuation_table
              (match currentResults with Some l => List.length l | None => 0%nat end)
              complexity) as (H0 & H1 & H2 & H3).
  repeat split; try tauto; try (apply H1; assumption); try (apply H2; assumption);
    intros; reflexivity.
Qed.

(** *** Parsing the list of queries *)















Section QueryGeneration.
Variable W : Type.
Variable ollamaGenerate : jsstring -> jsstring -> M W (option jsstring).
Variable nowISO : jsstring.
Variable model : jsstring.


End QueryGeneration.

(** *** The fuel of [parseThinkingResponse] *)

Lemma startsWith_length (p : jsstring) : forall s : jsstring,
  startsWith s p = true -> (List.length p <= List.length s)%nat.
Proof.
  induction p as [|a p IH]; intros s H; cbn [startsWith] in H; [cbn; lia|].
  destruct s as [|b s]; [discriminate|].
  apply andb_prop in H as [_ H]. apply IH in H. cbn. lia.
Qed.

Lemma split_at_first_length (pat : jsstring) : forall s b a : jsstring,
  split_at_first pat s = Some (b, a) ->
  (List.length b + List.length pat + List.length a = List.length s)%nat.
Proof.
  induction s as [|c s IH]; intros b a H.
  - cbn [split_at_first] in H. destruct (startsWith [] pat) eqn:E; [|discriminate].
    apply startsWith_length in E. injection H as <- <-.
    rewrite length_skipn. cbn in *. lia.
  - cbn [split_at_first] in H. destruct (startsWith (c :: s) pat) eqn:E.
    + apply startsWith_length in E. injection H as <- <-.
      rewrite length_skipn. cbn in *. lia.
    + destruct (split_at_first pat s) as [[b' a']|] eqn:E'; [|discriminate].
      injection H as <- <-. specialize (IH _ _ eq_refl). cbn. lia.
Qed.

(** A fuel of the length of the text is enough: more changes nothing. *)
Lemma thinking_blocks_fuel (n : nat) : forall (m : nat) (s : jsstring),
  (List.length s <= n)%nat -> (List.length s <= m)%nat ->
  thinking_blocks n s = thinking_blocks m s.
Proof.
  induction n as [|n IH]; intros m s Hn Hm.
  - destruct s; [|cbn in Hn; lia]. destruct m; reflexivity.
  - destruct m as [|m].
    { destruct s; [reflexivity | cbn in Hm; lia]. }
    cbn [thinking_blocks].
    destruct (split_at_first open_tag s) as [[before rest]|] eqn:E1; [|reflexivity].
    destruct (split_at_first close_tag rest) as [[body after]|] eqn:E2; [|reflexivity].
    apply split_at_first_length in E1, E2.
    change (List.length open_tag) with 10%nat in E1.
    rewrite (IH m after) by lia. reflexivity.
Qed.

(** *** Running the searches *)

Section Deduplication.
Variable toLowerCase : jsstring -> jsstring.

Abbreviation key := (fun s : SearchResult => toLowerCase (url s)) (only parsing).

Lemma dedup_from_fresh (sources : list SearchResult) : forall (seen : gset jsstring) s,
  In s (dedup_from toLowerCase seen sources) -> key s ∉ seen.
Proof.
  induction sources as [|x sources IH]; intros seen s Hs; cbn [dedup_from] in Hs.
  - destruct Hs.
  - case_bool_decide as Hx.
    + apply IH. assumption.
    + destruct Hs as [<- | Hs]; [assumption|].
      apply IH in Hs. set_solver.
Qed.

Lemma dedup_from_NoDup (sources : list SearchResult) : forall seen : gset jsstring,
  List.NoDup (List.map key (dedup_from toLowerCase seen sources)).
Proof.
  induction sources as [|x sources IH]; intros seen; cbn [dedup_from].
  - constructor.
  - case_bool_decide as Hx; [apply IH|].
    cbn [List.map]. constructor; [|apply IH].
    intros Hin. apply in_map_iff in Hin as (s & Hk & Hs).
    apply dedup_from_fresh in Hs. set_solver.
Qed.

Lemma dedup_from_sublist (sources : list SearchResult) : forall seen : gset jsstring,
  sublist (dedup_from toLowerCase seen sources) sources.
Proof.
  induction sources as [|x sources IH]; intros seen; cbn [dedup_from].
  - constructor.
  - case_bool_decide; [apply sublist_cons | apply sublist_skip]; apply IH.
Qed.

(** The result with a given key is the first source with that key. *)
Lemma dedup_from_first (sources : list SearchResult) :
  forall (seen : gset jsstring) (k : jsstring),
  k ∉ seen ->
  List.find (has_key toLowerCase k) (dedup_from toLowerCase seen sources)
  = List.find (has_key toLowerCase k) sources.
Proof.
  induction sources as [|x sources IH]; intros seen k Hk; cbn [dedup_from].
  - reflexivity.
  - case_bool_decide as Hx; cbn [List.find];
      destruct (has_key toLowerCase k x) eqn:Hxk; try reflexivity.
    + apply bool_decide_eq_true in Hxk. subst k. contradiction.
    + apply IH. assumption.
    + apply bool_decide_eq_false in Hxk. apply IH.
      rewrite not_elem_of_union, not_elem_of_singleton. split; [congruence|assumption].
Qed.

End Deduplication.

Section Batch.
Variable W : Type.
Variable webSearch : jsstring -> M W (list SearchResult).

(** The loop against the specification's run: same final world, and the
    sources gathered are those of the calls that returned. *)
Lemma executeSearches_loop_run (queries : list jsstring) :
  forall (results : list QueryResults) (all : list SearchResult) (w : W),
  exists results',
    executeSearches_loop W webSearch queries results all w
    = (Normal (results', all ++ accumulated (fst (search_outcomes W webSearch queries w))),
       snd (search_outcomes W webSearch queries w)).
Proof.
  induction queries as [|query rest IH]; intros results all w.
  - exists results. cbn. rewrite app_nil_r. reflexivity.
  - cbn [executeSearches_loop search_outcomes]. unfold bind at 1, try_catch, bind at 1.
    destruct (webSearch query w) as [[found|e] w'].
    + destruct (search_outcomes W webSearch rest w') as [cs w''] eqn:Hrest.
      cbn [fst snd accumulated flat_map returned].
      destruct (Nat.ltb 0 (List.length found)) eqn:Hlen; cbn [ret fst snd].
      * destruct (IH (results ++ [{| qr_query := query; qr_results := found;
                                     qr_count := List.length found |}])
                     (all ++ found) w') as [results' ->].
        exists results'. rewrite Hrest. cbn [fst snd].
        unfold accumulated. rewrite app_assoc. reflexivity.
      * destruct found; [|discriminate].
        destruct (IH results all w') as [results' ->].
        exists results'. rewrite Hrest. reflexivity.
    + destruct (search_outcomes W webSearch rest w') as [cs w''] eqn:Hrest.
      cbn [fst snd accumulated flat_map returned ret app].
      destruct (IH results all w') as [results' ->].
      exists results'. rewrite Hrest. reflexivity.
Qed.

Lemma search_outcomes_length (queries : list jsstring) : forall w : W,
  List.length (fst (search_outcomes W webSearch queries w)) = List.length queries.
Proof.
  induction queries as [|query rest IH]; intros w; cbn [search_outcomes].
  - reflexivity.
  - destruct (webSearch query w) as [c w']. specialize (IH w').
    destruct (search_outcomes W webSearch rest w') as [cs w'']. cbn in *. lia.
Qed.

End Batch.

Lemma logged_outcomes (W : Type) (webSearch : jsstring -> M W (list SearchResult))
  (queries : list jsstring) : forall (log : list jsstring) (w : W),
  fst (snd (search_outcomes (list jsstring * W) (logged W webSearch) queries (log, w)))
  = log ++ queries.
Proof.
  induction queries as [|query rest IH]; intros log w; cbn [search_outcomes].
  - cbn. rewrite app_nil_r. reflexivity.
  - unfold logged at 1. cbn [fst snd].
    destruct (webSearch query w) as [c w']. specialize (IH (log ++ [query]) w').
    destruct (search_outcomes _ _ rest (log ++ [query], w')) as [cs lw].
    cbn [snd] in *. rewrite IH, <- app_assoc. reflexivity.
Qed.

(** C5: [executeSearches] calls the backend once per query, in the order of
    the queries (a backend that records its calls has recorded exactly the
    queries); it returns normally whatever the calls do, a call that throws
    adding nothing; and [allSources] holds no two results with the same
    lower-cased URL, is in accumulation order, and has for every URL the
    first accumulated result with that URL. *)
Theorem executeSearches_dedup (W : Type)
  (webSearch : jsstring -> M W (list SearchResult))
  (toLowerCase : jsstring -> jsstring) (queries : list jsstring) (w : W) :
  let outcomes := fst (search_outcomes W webSearch queries w) in
  let found := accumulated outcomes in
  List.length outcomes = List.length queries
  /\ (forall log : list jsstring,
        fst (snd (executeSearches (list jsstring * W) (logged W webSearch)
                    toLowerCase queries (log, w)))
        = log ++ queries)
  /\ exists r : SearchOutcome,
       executeSearches W webSearch toLowerCase queries w
       = (Normal r, snd (search_outcomes W webSearch queries w))
       /\ totalSources r = List.length found
       /\ allSources r = deduplicateSources toLowerCase found
       /\ List.NoDup (List.map (fun s => toLowerCase (url s)) (allSources r))
       /\ sublist (allSources r) found
       /\ (forall k : jsstring,
             List.find (has_key toLowerCase k) (allSources r)
             = List.find (has_key toLowerCase k) found).
Proof.
  cbv zeta. split; [apply search_outcomes_length|]. split.
  - intros log. unfold executeSearches, bind.
    destruct (executeSearches_loop_run _ (logged W webSearch) queries [] [] (log, w))
      as [results' ->].
    cbn [ret snd]. apply logged_outcomes.
  - unfold executeSearches, bind.
    destruct (executeSearches_loop_run W webSearch queries [] [] w) as [results' ->].
    cbn [app ret fst snd]. eexists. split; [reflexivity|]. cbn [totalSources allSources].
    repeat split.
    + apply dedup_from_NoDup.
    + apply dedup_from_sublist.
    + intros k. apply dedup_from_first. apply not_elem_of_empty.
Qed.

(** A run on the sample backend: three queries, the second fails; the
    four results of the other two are gathered, and of the two whose URLs
    differ in case only the first is kept. *)
Example executeSearches_sample :
  let r := executeSearches unit Samples.backend Samples.lower
             [ js "tea"; js "down"; js "more tea" ] tt in
  exists out : SearchOutcome,
    r = (Normal out, tt)
    /\ totalSources out = 4%nat
    /\ List.map title (allSources out) = [ js "first"; js "second"; js "fourth" ].
Proof. cbv zeta. eexists. vm_compute. auto. Qed.

End SmartWebSearchFacts.

(** ** The search backend adapter and the content extractor *)

Module WebFacts.
Import JSString Eff Web.

Lemma In_firstn (A : Type) (n : nat) (x : A) : forall l : list A,
  In x (firstn n l) -> In x l.
Proof.
  induction n as [|n IH]; intros [|y l] H; cbn in *; try tauto.
  destruct H as [H|H]; auto.
Qed.

(** Every processed result comes from a raw result with an
    [http]-prefixed URL. *)
Lemma processResults_from (count : nat) (json : SearchJson) (r : SearchResult) :
  In r (processResults count json) ->
  exists raw, In raw (default [] (results json))
              /\ has_http_url raw = true /\ r = toResult raw.
Proof.
  unfold processResults. intros H.
  apply in_map_iff in H as (raw & <- & H). apply In_firstn in H.
  apply filter_In in H as [H1 H2]. exists raw. auto.
Qed.

Lemma processResults_legacy_from (count : nat) (json : SearchJson) (r : SearchResult) :
  In r (processResults_legacy count json) ->
  In r (processResults count json) /\ nonempty (title r) = true /\ nonempty (url r) = true.
Proof.
  unfold processResults_legacy. intros H.
  apply filter_In in H as [H1 H2]. apply andb_prop in H2. tauto.
Qed.

Lemma trimStart_snoc (l : jsstring) (c : N) :
  is_space c = false -> nonempty (trimStart (l ++ [c])) = true.
Proof.
  intros Hc. induction l as [|d l IH]; cbn [app trimStart].
  - rewrite Hc. reflexivity.
  - destruct (is_space d); [assumption | reflexivity].
Qed.

(** Trimming leaves something of every text that starts with [http]. *)
Lemma trim_http (u : jsstring) :
  startsWith u (js "http") = true -> nonempty (trim u) = true.
Proof.
  intros H. destruct u as [|c u]; [discriminate|].
  change (js "http") with [104%N; 116%N; 116%N; 112%N] in H.
  cbn [startsWith] in H.
  apply andb_prop in H as [Hc _]. apply N.eqb_eq in Hc. subst c.
  unfold trim. cbn [trimStart]. change (is_space 104) with false. cbn iota.
  unfold trimEnd. cbn [rev].
  pose proof (trimStart_snoc (rev u) 104%N eq_refl) as Hn.
  destruct (trimStart (rev u ++ [104%N])) as [|d t]; [discriminate|].
  cbn [rev]. destruct (rev t); reflexivity.
Qed.

(** A raw result with an [http]-prefixed URL and no title passes the last
    filter of the first server. *)
Lemma untitled_kept_legacy (count : nat) (json : SearchJson) (raw : RawResult) :
  In raw (firstn count (List.filter has_http_url (default [] (results json)))) ->
  truthy (r_title raw) = false ->
  In (toResult raw) (processResults_legacy count json).
Proof.
  intros Hin Ht. unfold processResults_legacy, processResults.
  apply filter_In. split; [apply in_map; assumption|].
  assert (Hu : has_http_url raw = true).
  { apply In_firstn in Hin. apply filter_In in Hin. tauto. }
  unfold has_http_url in Hu. destruct (r_url raw) as [u|] eqn:Eu; [|discriminate].
  assert (Htitle : title (toResult raw) = trim u).
  { unfold toResult, or_else, raw_url. cbn [title]. rewrite Eu. cbn [default].
    destruct (r_title raw) as [t|]; [|reflexivity].
    cbn [truthy] in Ht. rewrite Ht. reflexivity. }
  rewrite Htitle. unfold toResult, raw_url. cbn [url]. rewrite Eu.
  change (default [] (Some u)) with u.
  rewrite (trim_http u Hu). reflexivity.
Qed.

Section Adapter.
Variable W : Type.
Variable fetch : jsstring -> M W Response.
Variable SEARXNG : jsstring.
Variable encodeURIComponent : jsstring -> completion jsstring.

(** One turn of the loop accepts exactly what the specification accepts,
    and never throws. *)
Lemma tryUrl_run (process : SearchJson -> list SearchResult) (u : jsstring) (w : W) :
  tryUrl W fetch process u w
  = (Normal (accepted process (fst (fetch u w))), snd (fetch u w)).
Proof.
  unfold tryUrl, try_catch, bind, accepted.
  destruct (fetch u w) as [[response|e] w']; cbn [fst snd]; [|reflexivity].
  destruct (ok response); cbn [negb andb]; [|reflexivity].
  destruct (is_json response); cbn [negb]; [|reflexivity].
  unfold lift. destruct (body_json response) as [json|e]; [|reflexivity].
  destruct (process json); reflexivity.
Qed.

Lemma tryUrls_run (process : SearchJson -> list SearchResult) (urls : list jsstring) :
  forall w : W,
  tryUrls W fetch process urls w
  = (Normal (fst (first_accepted W fetch process urls w)),
     snd (first_accepted W fetch process urls w)).
Proof.
  induction urls as [|u rest IH]; intros w; cbn [tryUrls first_accepted].
  - reflexivity.
  - unfold bind. rewrite tryUrl_run.
    destruct (fetch u w) as [c w']; cbn [fst snd].
    destruct (accepted process c); [reflexivity | apply IH].
Qed.

(** What is accepted is a processed, non-empty result list. *)
Lemma first_accepted_from (process : SearchJson -> list SearchResult)
  (urls : list jsstring) : forall (w : W) (r : SearchResult),
  In r (fst (first_accepted W fetch process urls w)) ->
  exists json, In r (process json).
Proof.
  induction urls as [|u rest IH]; intros w r H; cbn [first_accepted] in H.
  - destruct H.
  - destruct (fetch u w) as [c w'].
    destruct (accepted process c) as [found|] eqn:Hacc; [|apply (IH w'); assumption].
    unfold accepted in Hacc. destruct c as [response|e]; [|discriminate].
    destruct (ok response && is_json response); [|discriminate].
    destruct (body_json response) as [json|e]; [|discriminate].
    exists json. destruct (process json); [discriminate|].
    injection Hacc as <-. assumption.
Qed.

Lemma webSearch_run (query q : jsstring) (count : nat) (w : W) :
  encodeURIComponent query = Normal q ->
  webSearch W fetch SEARXNG encodeURIComponent query count w
  = (Normal (fst (first_accepted W fetch (processResults count) (searchUrls SEARXNG q) w)),
     snd (first_accepted W fetch (processResults count) (searchUrls SEARXNG q) w)).
Proof.
  intros Hq. unfold webSearch, bind, lift, try_catch. rewrite Hq, tryUrls_run. reflexivity.
Qed.

Lemma webSearch_legacy_run (query q : jsstring) (count : nat) (w : W) :
  encodeURIComponent query = Normal q ->
  webSearch_legacy W fetch SEARXNG encodeURIComponent query count w
  = (Normal (fst (first_accepted W fetch (processResults_legacy count)
                    (searchUrls_legacy SEARXNG q) w)),
     snd (first_accepted W fetch (processResults_legacy count)
            (searchUrls_legacy SEARXNG q) w)).
Proof.
  intros Hq. unfold webSearch_legacy, bind, lift, try_catch.
  rewrite Hq, tryUrls_run. reflexivity.
Qed.

Lemma webSearch_from (query : jsstring) (count : nat) (w w' : W)
  (found : list SearchResult) (r : SearchResult) :
  webSearch W fetch SEARXNG encodeURIComponent query count w = (Normal found, w') ->
  In r found -> exists raw, has_http_url raw = true /\ r = toResult raw.
Proof.
  intros Hrun Hr. destruct (encodeURIComponent query) as [q|e] eqn:Hq.
  - rewrite (webSearch_run query q count w Hq) in Hrun.
    assert (found = fst (first_accepted W fetch (processResults count)
                           (searchUrls SEARXNG q) w)) as -> by congruence.
    apply first_accepted_from in Hr as [json Hr].
    apply processResults_from in Hr as (raw & _ & H1 & H2). eauto.
  - unfold webSearch, bind, lift in Hrun. rewrite Hq in Hrun. discriminate.
Qed.

Lemma webSearch_legacy_from (query : jsstring) (count : nat) (w w' : W)
  (found : list SearchResult) (r : SearchResult) :
  webSearch_legacy W fetch SEARXNG encodeURIComponent query count w = (Normal found, w') ->
  In r found ->
  (exists raw, has_http_url raw = true /\ r = toResult raw) /\ nonempty (title r) = true.
Proof.
  intros Hrun Hr. destruct (encodeURIComponent query) as [q|e] eqn:Hq.
  - rewrite (webSearch_legacy_run query q count w Hq) in Hrun.
    assert (found = fst (first_accepted W fetch (processResults_legacy count)
                           (searchUrls_legacy SEARXNG q) w)) as -> by congruence.
    apply first_accepted_from in Hr as [json Hr].
    apply processResults_legacy_from in Hr as (Hr & Ht & _).
    apply processResults_from in Hr as (raw & _ & H1 & H2). eauto.
  - unfold webSearch_legacy, bind, lift, try_catch in Hrun. rewrite Hq in Hrun.
    destruct (eqb (exn_name e) (js "AbortError")); [discriminate|].
    assert (found = []) as -> by (unfold ret in Hrun; congruence). destruct Hr.
Qed.

(** C6, amended: both servers try the URL variants in order and return
    the processed results of the first variant whose response is a success
    with a JSON content type and a non-empty processed result list, or
    nothing; every returned result comes from a raw result whose URL starts
    with [http], so a raw result without such a URL never appears; a raw
    result with such a URL but no title is not discarded: it is among the
    processed results of its variant, with its trimmed URL as title; in the
    first server every returned title is non-empty. *)
Theorem webSearch_adapter (query : jsstring) (count : nat) (w : W) :
  (forall q : jsstring,
     encodeURIComponent query = Normal q ->
     webSearch W fetch SEARXNG encodeURIComponent query count w
     = (Normal (fst (first_accepted W fetch (processResults count)
                       (searchUrls SEARXNG q) w)),
        snd (first_accepted W fetch (processResults count) (searchUrls SEARXNG q) w))
     /\ webSearch_legacy W fetch SEARXNG encodeURIComponent query count w
        = (Normal (fst (first_accepted W fetch (processResults_legacy count)
                          (searchUrls_legacy SEARXNG q) w)),
           snd (first_accepted W fetch (processResults_legacy count)
                  (searchUrls_legacy SEARXNG q) w)))
  /\ (forall (found : list SearchResult) (w' : W) (r : SearchResult),
        webSearch W fetch SEARXNG encodeURIComponent query count w = (Normal found, w') ->
        In r found -> exists raw, has_http_url raw = true /\ r = toResult raw)
  /\ (forall (found : list SearchResult) (w' : W) (r : SearchResult),
        webSearch_legacy W fetch SEARXNG encodeURIComponent query count w
        = (Normal found, w') ->
        In r found ->
        (exists raw, has_http_url raw = true /\ r = toResult raw)
        /\ nonempty (title r) = true)
  /\ (forall (json : SearchJson) (raw : RawResult),
        In raw (firstn count (List.filter has_http_url (default [] (results json)))) ->
        In (toResult raw) (processResults count json)
        /\ (truthy (r_title raw) = false ->
            title (toResult raw) = trim (raw_url raw)
            /\ In (toResult raw) (processResults_legacy count json))).
Proof.
  split; [|split; [|split]].
  - intros q Hq. split; [apply webSearch_run | apply webSearch_legacy_run]; assumption.
  - intros found w' r. apply webSearch_from.
  - intros found w' r. apply webSearch_legacy_from.
  - intros json raw Hraw. split.
    + unfold processResults. apply in_map. assumption.
    + intros Ht. split; [|apply untitled_kept_legacy; assumption].
      unfold toResult, or_else. cbn [title].
      destruct (r_title raw) as [t|]; [|reflexivity].
      cbn [truthy] in Ht. rewrite Ht. reflexivity.
Qed.

End Adapter.

(** C6, as stated, fails: a raw result with a URL and no title is not
    discarded; both servers return it, with its URL as title. *)
Lemma untitled_result_returned :
  truthy (r_title Samples.untitled) = false
  /\ webSearch unit Samples.fetch_untitled Samples.searxng Samples.encode_id (js "q") 10 tt
     = (Normal [ {| title := js "http://a.example/";
                    url := js "http://a.example/";
                    snippet := [] |} ], tt)
  /\ webSearch_legacy unit Samples.fetch_untitled Samples.searxng Samples.encode_id
       (js "q") 6 tt
     = (Normal [ {| title := js "http://a.example/";
                    url := js "http://a.example/";
                    snippet := [] |} ], tt).
Proof. vm_compute. auto. Qed.

(** *** The content extractor *)

Lemma collapse_from_collapsed (s : jsstring) : forall b : bool,
  collapsed_from b (collapse_from b s) = true.
Proof.
  induction s as [|c s IH]; intros b; cbn [collapse_from].
  - reflexivity.
  - destruct (is_space c) eqn:Hc.
    + destruct b; [apply IH|]. cbn [collapsed_from].
      change (is_space 32) with true. cbn. apply IH.
    + cbn [collapsed_from]. rewrite Hc. apply IH.
Qed.

Lemma collapsed_trimStart_id (t : jsstring) :
  collapsed_from true t = true -> trimStart t = t.
Proof.
  destruct t as [|c t]; [reflexivity|]. cbn [collapsed_from trimStart].
  destruct (is_space c); [|reflexivity].
  rewrite andb_false_r. discriminate.
Qed.

Lemma collapsed_trimStart (t : jsstring) :
  collapsed_from false t = true -> collapsed_from true (trimStart t) = true.
Proof.
  destruct t as [|c t]; [reflexivity|]. cbn [collapsed_from trimStart].
  destruct (is_space c) eqn:Hc.
  - intros H. apply andb_prop in H as [_ H].
    rewrite (collapsed_trimStart_id t H). assumption.
  - cbn [collapsed_from]. rewrite Hc. auto.
Qed.

Lemma collapsed_prefix (p q : jsstring) : forall b : bool,
  collapsed_from b (p ++ q) = true -> collapsed_from b p = true.
Proof.
  induction p as [|c p IH]; intros b H; [reflexivity|].
  cbn [app collapsed_from] in *. destruct (is_space c).
  - apply andb_prop in H as [H1 H2]. rewrite H1. apply IH. assumption.
  - apply IH. assumption.
Qed.

Lemma trimStart_suffix (s : jsstring) : exists p, s = p ++ trimStart s.
Proof.
  induction s as [|c s [p IH]]; [exists []; reflexivity|].
  cbn [trimStart]. destruct (is_space c).
  - exists (c :: p). cbn. congruence.
  - exists []. reflexivity.
Qed.

Lemma trimEnd_prefix (s : jsstring) : exists q, s = trimEnd s ++ q.
Proof.
  unfold trimEnd. destruct (trimStart_suffix (rev s)) as [p Hp].
  exists (rev p). rewrite <- rev_app_distr, <- Hp, rev_involutive. reflexivity.
Qed.

(** The text [clean] returns: within the cap, white space collapsed. *)
Lemma clean_spec (n : nat) (text : jsstring) :
  (List.length (clean n text) <= n)%nat /\ collapsed (clean n text) = true.
Proof.
  unfold clean, collapsed. split; [apply firstn_le_length|].
  apply (collapsed_prefix _ (skipn n (trim (collapse_ws text)))).
  rewrite firstn_skipn. unfold trim.
  destruct (trimEnd_prefix (trimStart (collapse_ws text))) as [q Hq].
  apply (collapsed_prefix _ q). rewrite <- Hq.
  apply collapsed_trimStart, collapse_from_collapsed.
Qed.

Section Extractor.
Variable W : Type.
Variable fetch : jsstring -> M W Response.
Variable mainText : jsstring -> completion jsstring.
Variable mainText_legacy : jsstring -> completion jsstring.

Lemma fetchAndClean_with_spec (extract : jsstring -> completion jsstring) (n : nat)
  (u : jsstring) (w : W) :
  exists text : jsstring,
    fetchAndClean_with W fetch extract n u w = (Normal text, snd (fetch u w))
    /\ (List.length text <= n)%nat
    /\ collapsed text = true
    /\ (forall e, fst (fetch u w) = Throw e -> text = [])
    /\ (forall response,
          fst (fetch u w) = Normal response ->
          ok response = false \/ is_html response = false -> text = [])
    /\ (forall response html t,
          fst (fetch u w) = Normal response ->
          ok response = true -> is_html response = true ->
          body_text response = Normal html -> extract html = Normal t ->
          text = clean n t).
Proof.
  unfold fetchAndClean_with, try_catch, bind, lift, ret.
  assert (Hnil : (List.length (@nil N) <= n)%nat /\ collapsed [] = true)
    by (split; [cbn; lia | reflexivity]).
  assert (Hdone : forall text : jsstring,
            (text = [] \/ exists t, text = clean n t) ->
            (List.length text <= n)%nat /\ collapsed text = true).
  { intros text [-> | [t ->]]; [assumption | apply clean_spec]. }
  destruct (fetch u w) as [[response|e] w']; cbn [fst snd].
  - destruct (ok response) eqn:Hok; cbn [negb].
    + destruct (is_html response) eqn:Hhtml; cbn [negb].
      * destruct (body_text response) as [html|e] eqn:Hbody.
        -- destruct (extract html) as [t|e] eqn:Ht.
           ++ exists (clean n t). destruct (Hdone (clean n t)) as [H1 H2]; [eauto|].
              repeat split; auto; try congruence; intros; try intuition congruence.
           ++ exists []. destruct Hnil.
              repeat split; auto; try congruence; intros; try intuition congruence.
        -- exists []. destruct Hnil.
           repeat split; auto; try congruence; intros; try intuition congruence.
      * exists []. destruct Hnil.
        repeat split; auto; try congruence; intros; try intuition congruence.
    + exists []. destruct Hnil.
      repeat split; auto; try congruence; intros; try intuition congruence.
  - exists []. destruct Hnil.
    repeat split; auto; try congruence; intros; try intuition congruence.
Qed.

(** C7: [fetchAndClean] never throws, in either server: it returns a
    text, after one request; the text is empty when the request throws (a
    timeout aborts it), when the status is not a success and when the
    content type is not HTML; and every text it returns has its white space
    collapsed and is at most the cap long ([cap] is 20000 characters in the
    core server, [cap_legacy] 15000 in the first). *)
Theorem fetchAndClean_total (u : jsstring) (w : W) :
  (exists text : jsstring,
     fetchAndClean W fetch mainText u w = (Normal text, snd (fetch u w))
     /\ (List.length text <= cap)%nat
     /\ collapsed text = true
     /\ (forall e, fst (fetch u w) = Throw e -> text = [])
     /\ (forall response,
           fst (fetch u w) = Normal response ->
           ok response = false \/ is_html response = false -> text = []))
  /\ (exists text : jsstring,
        fetchAndClean_legacy W fetch mainText_legacy u w = (Normal text, snd (fetch u w))
        /\ (List.length text <= cap_legacy)%nat
        /\ collapsed text = true
        /\ (forall e, fst (fetch u w) = Throw e -> text = [])
        /\ (forall response,
              fst (fetch u w) = Normal response ->
              ok response = false \/ is_html response = false -> text = [])).
Proof.
  split.
  - destruct (fetchAndClean_with_spec mainText cap u w) as (text & H1 & H2 & H3 & H4 & H5 & _).
    exists text. repeat split; auto.
  - destruct (fetchAndClean_with_spec mainText_legacy cap_legacy u w)
      as (text & H1 & H2 & H3 & H4 & H5 & _).
    exists text. repeat split; auto.
Qed.

End Extractor.

(** A run on the sample page: the runs of white space are collapsed. *)
Example fetchAndClean_sample :
  fetchAndClean unit Samples.fetch_page Samples.text_as_is (js "http://a.example/") tt
  = (Normal (js "<p> two words </p>"), tt).
Proof. vm_compute. reflexivity. Qed.

End WebFacts.

(** ** The memory store *)

Module MemoryStoreFacts.
Import JSString Eff Similarity JSArray MemoryStore Binary64Facts.
#[local] Open Scope float_scope.

(** *** Sorting by similarity *)

Lemma bySimilarityDesc_pos (x y : Scored) :
  known x -> known y ->
  (0 <? bySimilarityDesc x y) = (similarity x <? similarity y).
Proof. intros Hx Hy. unfold bySimilarityDesc. apply sub_pos_iff_lt; assumption. Qed.

Lemma sort_insert_In (x y : Scored) (l : list Scored) :
  In y (sort_insert bySimilarityDesc x l) -> y = x \/ In y l.
Proof.
  induction l as [|z l IH]; cbn [sort_insert].
  - intros [<- | []]. auto.
  - destruct (0 <? bySimilarityDesc x z).
    + intros [<- | H]; [right; left; reflexivity|].
      apply IH in H as [H|H]; [auto | right; right; assumption].
    + intros [<- | H]; auto.
Qed.

Lemma sort_insert_perm (x : Scored) (l : list Scored) :
  Permutation (sort_insert bySimilarityDesc x l) (x :: l).
Proof.
  induction l as [|z l IH]; cbn [sort_insert]; [reflexivity|].
  destruct (0 <? bySimilarityDesc x z); [|reflexivity].
  rewrite IH. apply perm_swap.
Qed.

Lemma sort_insert_sorted (x : Scored) (l : list Scored) :
  known x -> Forall known l -> StronglySorted desc l ->
  StronglySorted desc (sort_insert bySimilarityDesc x l).
Proof.
  intros Hx Hl Hs. induction Hs as [|z l Hs IH Hz]; cbn [sort_insert].
  - repeat constructor.
  - inversion Hl as [|? ? Kz Kl]; subst.
    rewrite bySimilarityDesc_pos by assumption.
    destruct (similarity x <? similarity z) eqn:E.
    + constructor; [apply IH; assumption|].
      apply Forall_forall. intros y Hy. apply sort_insert_In in Hy as [-> | Hy].
      * apply ltb_leb. assumption.
      * revert y Hy. apply Forall_forall. assumption.
    + assert (Hzx : desc x z) by (apply ltb_false_leb; assumption).
      constructor; [constructor; assumption|].
      constructor; [assumption|].
      apply Forall_forall. intros y Hy. unfold desc in *.
      apply (leb_trans _ (similarity z)); [|assumption].
      revert y Hy. apply Forall_forall. assumption.
Qed.

Lemma sort_insert_tied (s : float) (x : Scored) (l : list Scored) :
  known x -> Forall known l ->
  List.filter (tied s) (sort_insert bySimilarityDesc x l) = List.filter (tied s) (x :: l).
Proof.
  intros Hx Hl. induction l as [|z l IH]; cbn [sort_insert]; [reflexivity|].
  inversion Hl as [|? ? Kz Kl]; subst.
  rewrite bySimilarityDesc_pos by assumption.
  destruct (similarity x <? similarity z) eqn:E; [|reflexivity].
  cbn [List.filter] in *. rewrite (IH Kl).
  destruct (tied s x) eqn:Tx; [|reflexivity].
  unfold tied in *. rewrite (ltb_eqb_false _ _ _ E Tx). reflexivity.
Qed.

(** The sort on numbers that are not NaN: sorted, a permutation, stable. *)
Lemma sort_spec (l : list Scored) :
  Forall known l ->
  StronglySorted desc (sort bySimilarityDesc l)
  /\ Permutation (sort bySimilarityDesc l) l
  /\ Forall known (sort bySimilarityDesc l)
  /\ forall s : float,
       List.filter (tied s) (sort bySimilarityDesc l) = List.filter (tied s) l.
Proof.
  induction 1 as [|x l Hx Hl (IH1 & IH2 & IH3 & IH4)]; cbn [sort fold_right].
  - repeat split; constructor.
  - fold (sort bySimilarityDesc l). repeat split.
    + apply sort_insert_sorted; assumption.
    + rewrite sort_insert_perm, IH2. reflexivity.
    + apply Forall_forall. intros y Hy. apply sort_insert_In in Hy as [-> | Hy]; [assumption|].
      revert y Hy. apply Forall_forall. assumption.
    + intros s. rewrite sort_insert_tied by assumption.
      cbn [List.filter]. rewrite IH4. reflexivity.
Qed.

Lemma StronglySorted_firstn (A : Type) (R : A -> A -> Prop) (k : nat) :
  forall l : list A, StronglySorted R l -> StronglySorted R (firstn k l).
Proof.
  induction k as [|k IH]; intros l Hl; [constructor|].
  destruct Hl as [|x l Hl Hx]; cbn [firstn]; constructor.
  - apply IH. assumption.
  - apply Forall_forall. intros y Hy. apply WebFacts.In_firstn in Hy.
    revert y Hy. apply Forall_forall. assumption.
Qed.

Lemma Forall_firstn (A : Type) (P : A -> Prop) (k : nat) (l : list A) :
  Forall P l -> Forall P (firstn k l).
Proof.
  intros H. apply Forall_forall. intros y Hy. apply WebFacts.In_firstn in Hy.
  revert y Hy. apply Forall_forall. assumption.
Qed.

(** *** Retrieval *)

Lemma candidates_spec (memory : Memory) (qe : vector) (minSim : float) :
  Forall (fun r => (minSim <=? similarity r) = true) (candidates memory qe minSim)
  /\ Forall known (candidates memory qe minSim).
Proof.
  assert (H : Forall (fun r => (minSim <=? similarity r) = true)
                (candidates memory qe minSim)).
  { apply Forall_forall. intros r Hr. unfold candidates in Hr.
    apply filter_In in Hr as [_ Hr]. assumption. }
  split; [assumption|].
  eapply Forall_impl; [|exact H]. intros r Hr. apply leb_not_nan in Hr. apply Hr.
Qed.

Section Retrieval.
Variable ollamaEmbed : jsstring -> completion (list vector).

(** C1: retrieval always returns, never throws; it returns at most [k]
    items, each with a similarity of at least [minSim], sorted by
    non-increasing similarity; the result is the first [k] of a stable
    reordering of the qualifying items, so items with equal similarity keep
    their order in the store; and it returns the empty sequence when the
    store is empty or unreadable and when the embedding request throws or
    returns no vector. *)
Theorem retrieveLongTermMemory_ranked (query : jsstring) (k : nat) (minSim : float)
  (w : world) :
  exists (found : list Scored) (w' : world),
    retrieveLongTermMemory ollamaEmbed query k minSim w = (Normal found, w')
    /\ (List.length found <= k)%nat
    /\ Forall (fun r => (minSim <=? similarity r) = true) found
    /\ StronglySorted desc found
    /\ (forall (memory : Memory) (qe : vector) (rest : list vector),
          memoryFile w = Some memory -> longTerm memory <> [] ->
          ollamaEmbed query = Normal (qe :: rest) ->
          exists ranked : list Scored,
            found = firstn k ranked
            /\ Permutation ranked (candidates memory qe minSim)
            /\ forall s : float,
                 List.filter (tied s) ranked
                 = List.filter (tied s) (candidates memory qe minSim))
    /\ (forall memory : Memory,
          memoryFile w = Some memory -> longTerm memory = [] -> found = [])
    /\ (memoryFile w = None -> found = [])
    /\ (forall e : exn, ollamaEmbed query = Throw e -> found = [])
    /\ (ollamaEmbed query = Normal [] -> found = []).
Proof.
  unfold retrieveLongTermMemory, loadMemory, readJSON, try_catch, bind, lift, ret.
  destruct (memoryFile w) as [memory|] eqn:Hm.
  - destruct (longTerm memory) as [|it items] eqn:Hl; cbn [List.length Nat.eqb].
    + exists [], w. split; [reflexivity|].
      repeat split; try constructor; try (cbn; lia); intros; congruence.
    + destruct (ollamaEmbed query) as [[|qe rest]|e] eqn:He; cbn [hd_error].
      * exists [], w. split; [reflexivity|].
        repeat split; try constructor; try (cbn; lia); intros; congruence.
      * destruct (candidates_spec memory qe minSim) as [Hmin Hknown].
        destruct (sort_spec _ Hknown) as (Hs & Hp & _ & Ht).
        eexists _, w. split; [reflexivity|].
        split; [apply firstn_le_length|].
        split.
        { apply Forall_firstn. apply Forall_forall. intros r Hr.
          apply (Permutation_in _ Hp) in Hr. revert r Hr. apply Forall_forall.
          assumption. }
        split; [apply StronglySorted_firstn; assumption|].
        split.
        { intros memory' qe' rest' Hm' _ He'.
          assert (memory' = memory) as -> by congruence.
          assert (qe' = qe) as -> by congruence.
          eexists. split; [reflexivity|]. split; assumption. }
        repeat split; intros; congruence.
      * exists [], w. split; [reflexivity|].
        repeat split; try constructor; try (cbn; lia); intros; congruence.
  - unfold writeJSON. destruct (writable w).
    + eexists [], _. split; [reflexivity|].
      repeat split; try constructor; try (cbn; lia); intros; congruence.
    + exists [], w. split; [reflexivity|].
      repeat split; try constructor; try (cbn; lia); intros; congruence.
Qed.

End Retrieval.

(** A run on the sample store: the two items tied at similarity 1 come
    back in the order of the store, the orthogonal item and the item
    without a vector do not come back; with [k = 1] only the first does. *)
Example retrieve_sample :
  fst (retrieveLongTermMemory Samples.embed (js "likes tea a lot") 5
         0x1.3333333333333p-2 (Samples.disk (Some Samples.memory4)))
  = Normal [ {| item := Samples.item_with 1 (js "likes tea") (Some [1; 0]);
                similarity := 1 |};
             {| item := Samples.item_with 3 (js "drinks tea") (Some [1; 0]);
                similarity := 1 |} ]
  /\ fst (retrieveLongTermMemory Samples.embed (js "likes tea a lot") 1
            0x1.3333333333333p-2 (Samples.disk (Some Samples.memory4)))
     = Normal [ {| item := Samples.item_with 1 (js "likes tea") (Some [1; 0]);
                   similarity := 1 |} ].
Proof. vm_compute. auto. Qed.

(** *** Insertion *)


Section Insertion.
Variable ollamaEmbed : jsstring -> completion (list vector).
Variable nowISO : jsstring.

Abbreviation upsert_item := (MemoryStore.upsert_item ollamaEmbed nowISO).
Abbreviation upsert := (upsertLongTermMemory ollamaEmbed nowISO).
Abbreviation embedding_of := (embed_best_effort ollamaEmbed).








End Insertion.




End MemoryStoreFacts.

(** ** Symmetry of the similarity *)

Module SimilaritySymmetry.
Import Binary64 Binary64Facts Similarity StoreInvariants.
#[local] Open Scope float_scope.

Lemma SFmul_comm (x y : spec_float) : SFmul prec emax x y = SFmul prec emax y x.
Proof.
  destruct x as [sx|sx| |sx mx ex], y as [sy|sy| |sy my ey]; cbn [SFmul];
    rewrite ?(xorb_comm sx sy); try reflexivity.
  rewrite (Pos.mul_comm mx my), (Z.add_comm ex ey). reflexivity.
Qed.

(** The product of two doubles does not depend on their order. *)
Lemma mul_comm (x y : float) : x * y = y * x.
Proof. apply Prim2SF_inj. rewrite !mul_spec. apply SFmul_comm. Qed.

Lemma cosSim_loop_swap (a : vector) : forall (b : vector) (acc : sums),
  List.length a = List.length b ->
  cosSim_loop b a (swap acc) = swap (cosSim_loop a b acc).
Proof.
  induction a as [|x a IH]; intros b acc Hlen.
  - destruct b; [reflexivity | discriminate].
  - destruct b as [|y b]; [discriminate|]. injection Hlen as Hlen.
    cbn [cosSim_loop hd tl]. rewrite <- (IH b) by assumption.
    f_equal. unfold swap. cbn [dotProduct normA normB].
    rewrite (mul_comm y x). reflexivity.
Qed.

Lemma denominator_swap (a b : vector) :
  List.length a = List.length b -> denominator b a = denominator a b.
Proof.
  intros Hlen. unfold denominator. cbn zeta.
  change sums0 with (swap sums0) at 1 2.
  rewrite (cosSim_loop_swap a b sums0 Hlen). cbn [swap normA normB].
  apply mul_comm.
Qed.

Lemma dotProduct_swap (a b : vector) :
  List.length a = List.length b ->
  dotProduct (cosSim_loop b a sums0) = dotProduct (cosSim_loop a b sums0).
Proof.
  intros Hlen. change sums0 with (swap sums0) at 1.
  rewrite (cosSim_loop_swap a b sums0 Hlen). reflexivity.
Qed.


(** X1: the core server's [cosSim] is symmetric on all arguments, null
    and vectors of different lengths included: the two calls return the
    same double, bit for bit. *)
Theorem cosSim_symmetric (a b : option vector) : cosSim a b = cosSim b a.
Proof.
  destruct a as [a|], b as [b|]; try reflexivity.
  unfold cosSim.
  destruct (Nat.eqb_spec (List.length a) (List.length b)) as [Hlen|Hlen].
  - rewrite <- Hlen, Nat.eqb_refl. cbn [negb].
    rewrite (denominator_swap a b Hlen), (dotProduct_swap a b Hlen). reflexivity.
  - apply not_eq_sym, Nat.eqb_neq in Hlen. rewrite Hlen. reflexivity.
Qed.

(** X2: the first server's [cosSim] is symmetric on vectors of the same
    length. *)
Theorem cosSim_legacy_symmetric (a b : vector) :
  List.length a = List.length b -> cosSim_legacy a b = cosSim_legacy b a.
Proof.
  intros Hlen. unfold cosSim_legacy, denominator_legacy.
  rewrite (denominator_swap a b Hlen), (dotProduct_swap a b Hlen). reflexivity.
Qed.

Lemma cosSim_legacy_symmetric_witness :
  cosSim_legacy [1; 2] [3; 4] = cosSim_legacy [3; 4] [1; 2].
Proof. apply (cosSim_legacy_symmetric [1; 2] [3; 4]). reflexivity. Defined.

End SimilaritySymmetry.

(** ** Invariants of the memory store *)

Module StoreInvariantFacts.
Import JSString Eff Similarity JSArray MemoryStore Http StoreInvariants.
Import Binary64Facts MemoryStoreFacts.
#[local] Open Scope float_scope.



Lemma StronglySorted_lt_NoDup (l : list Z) : StronglySorted Z.lt l -> List.NoDup l.
Proof.
  induction 1 as [|x l Hs IH Hx]; constructor; [|assumption].
  intros Hin. rewrite Forall_forall in Hx. specialize (Hx x Hin). lia.
Qed.

Section Invariants.
Variable ollamaEmbed : jsstring -> completion (list vector).
Variable nowISO : jsstring.

Abbreviation upsert_item := (MemoryStore.upsert_item ollamaEmbed nowISO).
Abbreviation upsert := (upsertLongTermMemory ollamaEmbed nowISO).
Abbreviation retrieve := (retrieveLongTermMemory ollamaEmbed).

(** The collection after an item is pushed. *)
Abbreviation pushed memory it :=
  {| longTerm := longTerm memory ++ [it]; nextId := nextId memory + 1 |}.











(** X5: retrieval returns stored items. On a readable store a call
    leaves the disk as it is, and every item it returns is an item of the
    stored collection that has an embedding, together with its similarity
    to some one vector; so when the stored ids increase, no id is returned
    twice. *)
Theorem retrieve_returns_stored (query : jsstring) (k : nat) (minSim : float)
  (w : world) (memory : Memory) :
  memoryFile w = Some memory ->
  exists found : list Scored,
    retrieve query k minSim w = (Normal found, w)
    /\ (exists qe : vector,
          Forall (fun r => In (item r) (longTerm memory)
                           /\ has_embedding (item r) = true
                           /\ similarity r = cosSim (Some qe) (embedding (item r)))
                 found)
    /\ (ids_increasing memory -> List.NoDup (List.map (fun r => id (item r)) found)).
Proof.
  intros Hm.
  assert (Hnone : exists found : list Scored,
            (Normal [] : completion (list Scored), w) = (Normal found, w)
            /\ (exists qe : vector,
                  Forall (fun r => In (item r) (longTerm memory)
                                   /\ has_embedding (item r) = true
                                   /\ similarity r = cosSim (Some qe) (embedding (item r)))
                         found)
            /\ (ids_increasing memory
                -> List.NoDup (List.map (fun r => id (item r)) found))).
  { exists []. split; [reflexivity|]. split; [exists []; constructor|].
    intros _. constructor. }
  unfold retrieveLongTermMemory, loadMemory, readJSON, try_catch, bind, lift, ret.
  rewrite Hm. destruct (longTerm memory) as [|it0 items] eqn:Hl; cbn [List.length Nat.eqb];
    [exact Hnone|].
  destruct (ollamaEmbed query) as [[|qe rest]|e]; cbn [hd_error]; try exact Hnone.
  rewrite <- Hl. clear Hnone.
  destruct (candidates_spec memory qe minSim) as [_ Hknown].
  destruct (sort_spec _ Hknown) as (_ & Hp & _ & _).
  eexists. split; [reflexivity|].
  assert (Hcand : forall r : Scored,
            In r (candidates memory qe minSim) ->
            In (item r) (longTerm memory)
            /\ has_embedding (item r) = true
            /\ similarity r = cosSim (Some qe) (embedding (item r))).
  { intros r Hr. unfold candidates in Hr. apply filter_In in Hr as [Hr _].
    apply in_map_iff in Hr as (it & <- & Hit). apply filter_In in Hit as [Hit He].
    cbn [score item similarity]. auto. }
  split.
  - exists qe. apply Forall_forall. intros r Hr. apply Hcand.
    apply (Permutation_in _ Hp). eapply WebFacts.In_firstn, Hr.
  - intros [Hs _]. apply StronglySorted_lt_NoDup in Hs.
    assert (Hnd : List.NoDup (List.map (fun r => id (item r))
                                (candidates memory qe minSim))).
    { unfold candidates. revert Hs. generalize (longTerm memory). clear.
      induction l as [|it l IH]; cbn [List.map List.filter]; intros Hs; [constructor|].
      inversion Hs as [|? ? Hnotin Hs']; subst. specialize (IH Hs').
      assert (Hsub : forall z : Z,
                In z (List.map (fun r => id (item r))
                        (List.filter (fun r => minSim <=? similarity r)
                           (List.map (score qe) (List.filter has_embedding l)))) ->
                In z (List.map id l)).
      { intros z Hz. apply in_map_iff in Hz as (r & <- & Hr).
        apply filter_In in Hr as [Hr _]. apply in_map_iff in Hr as (x & <- & Hx).
        apply filter_In in Hx as [Hx _]. cbn [score item]. apply in_map. assumption. }
      destruct (has_embedding it); [|assumption]. cbn [List.map List.filter].
      destruct (minSim <=? similarity (score qe it)); [|assumption].
      cbn [List.map score item]. constructor; [|assumption].
      intros Hin. apply Hnotin, Hsub, Hin. }
    assert (Hnd' : List.NoDup (List.map (fun r => id (item r))
                                 (sort (bySimilarityDesc) (candidates memory qe minSim)))).
    { eapply Permutation_NoDup; [|exact Hnd]. apply Permutation_map.
      symmetry. exact Hp. }
    revert Hnd'. generalize (sort bySimilarityDesc (candidates memory qe minSim)).
    clear. intros l. revert k. induction l as [|r l IH]; intros k Hnd.
    + rewrite firstn_nil. constructor.
    + destruct k as [|k]; [constructor|]. cbn [firstn List.map] in *.
      inversion Hnd as [|? ? Hnotin Hnd']; subst. constructor; [|apply IH; assumption].
      intros Hin. apply Hnotin. apply in_map_iff in Hin as (x & Hx & Hin).
      apply in_map_iff. exists x. split; [assumption|]. eapply WebFacts.In_firstn, Hin.
Qed.


End Invariants.



Lemma retrieve_returns_stored_witness :
  exists found : list Scored,
    retrieveLongTermMemory Samples.embed (js "likes tea a lot") 5 0
      (Samples.disk (Some Samples.memory4))
    = (Normal found, Samples.disk (Some Samples.memory4))
    /\ List.NoDup (List.map (fun r => id (item r)) found).
Proof.
  destruct (retrieve_returns_stored Samples.embed (js "likes tea a lot") 5 0
              (Samples.disk (Some Samples.memory4)) Samples.memory4 eq_refl)
    as (found & Hrun & _ & Hnd).
  exists found. split; [exact Hrun|]. apply Hnd.
  split; cbn; repeat constructor.
Defined.

End StoreInvariantFacts.

(** ** The thinking engine *)

Module ThinkingEngineFacts.
Import JSString Eff SmartWebSearch ThinkingEngine.
#[local] Open Scope float_scope.

(** *** Parsing the thinking blocks *)

Lemma startsWith_app (p rest : jsstring) : startsWith (p ++ rest) p = true.
Proof.
  induction p as [|a p IH]; [reflexivity|]. cbn [app startsWith].
  rewrite N.eqb_refl. exact IH.
Qed.

Lemma skipn_length_app (p rest : jsstring) : skipn (List.length p) (p ++ rest) = rest.
Proof. induction p as [|a p IH]; [reflexivity | exact IH]. Qed.

(** The first occurrence of a tag behind a text without [<] is where the
    text ends. *)
Lemma split_at_first_tag (tag pre rest : jsstring) :
  hd_error tag = Some 60%N -> tag_free pre = true ->
  split_at_first tag (pre ++ tag ++ rest) = Some (pre, rest).
Proof.
  intros Htag. induction pre as [|c pre IH]; intros Hfree.
  - cbn [app]. destruct (tag ++ rest) eqn:E.
    + destruct tag; [discriminate | discriminate].
    + rewrite <- E. cbn [split_at_first].
      assert (H : split_at_first tag (tag ++ rest)
                  = if startsWith (tag ++ rest) tag
                    then Some ([], skipn (List.length tag) (tag ++ rest))
                    else match tag ++ rest with
                         | [] => None
                         | c :: s' =>
                             match split_at_first tag s' with
                             | Some (b, a) => Some (c :: b, a)
                             | None => None
                             end
                         end)
        by (destruct (tag ++ rest); reflexivity).
      rewrite H, startsWith_app, skipn_length_app. reflexivity.
  - cbn [tag_free forallb] in Hfree. apply andb_prop in Hfree as [Hc Hfree].
    cbn [app split_at_first]. rewrite (IH Hfree).
    destruct tag as [|a tag]; [discriminate|]. injection Htag as ->.
    cbn [startsWith]. apply negb_true_iff in Hc.
    rewrite N.eqb_sym, Hc. reflexivity.
Qed.

Lemma split_at_first_none (tag s : jsstring) :
  hd_error tag = Some 60%N -> tag_free s = true -> split_at_first tag s = None.
Proof.
  intros Htag. destruct tag as [|a tag]; [discriminate|]. injection Htag as ->.
  induction s as [|c s IH]; intros Hfree; [reflexivity|].
  cbn [tag_free forallb] in Hfree. apply andb_prop in Hfree as [Hc Hfree].
  cbn [split_at_first startsWith]. apply negb_true_iff in Hc.
  rewrite N.eqb_sym, Hc. cbn [andb]. rewrite (IH Hfree). reflexivity.
Qed.

Lemma thinking_blocks_render (blocks : list (jsstring * jsstring)) :
  forall (text : jsstring) (fuel : nat),
    tag_free text = true ->
    Forall (fun block => tag_free (fst block) = true /\ tag_free (snd block) = true)
           blocks ->
    (List.length blocks <= fuel)%nat ->
    thinking_blocks fuel (render text blocks)
    = (List.map fst blocks, text ++ flat_map snd blocks).
Proof.
  induction blocks as [|[body after] blocks IH]; intros text fuel Ht Hb Hfuel.
  - unfold render. cbn [flat_map List.map]. rewrite app_nil_r.
    destruct fuel as [|fuel]; [reflexivity|]. cbn [thinking_blocks].
    rewrite split_at_first_none by (reflexivity || assumption). reflexivity.
  - destruct fuel as [|fuel]; [cbn in Hfuel; lia|].
    inversion Hb as [|? ? [Hbody Hafter] Hb']; subst. cbn [fst snd] in *.
    unfold render. cbn [flat_map fst snd thinking_blocks].
    rewrite <- !app_assoc.
    rewrite (split_at_first_tag open_tag) by (reflexivity || assumption).
    rewrite (split_at_first_tag close_tag) by (reflexivity || assumption).
    fold (render after blocks).
    rewrite (IH after fuel) by first [assumption | cbn in Hfuel; lia].
    cbn [List.map fst]. reflexivity.
Qed.

Lemma render_length (text : jsstring) (blocks : list (jsstring * jsstring)) :
  (List.length blocks <= List.length (render text blocks))%nat.
Proof.
  unfold render. rewrite length_app.
  induction blocks as [|b blocks IH]; cbn [flat_map List.length]; [lia|].
  rewrite !length_app. change (List.length open_tag) with 10%nat. lia.
Qed.

(** The response of a reply made of texts and blocks is its texts. *)
Lemma p_response_render (nowISO text : jsstring) (blocks : list (jsstring * jsstring)) :
  tag_free text = true ->
  Forall (fun block => tag_free (fst block) = true /\ tag_free (snd block) = true)
         blocks ->
  p_response (parseThinkingResponse nowISO (render text blocks))
  = trim (text ++ flat_map snd blocks).
Proof.
  intros Ht Hb. unfold parseThinkingResponse.
  rewrite (thinking_blocks_render blocks text _ Ht Hb (render_length text blocks)).
  reflexivity.
Qed.

(** X7: parsing gives back what a reply was made of. For a reply that
    is a text followed by blocks, each a body between [<thinking>] and
    [</thinking>] and then a text, none of them with the character [<],
    [parseThinkingResponse] returns the trimmed bodies that are not empty
    as its thoughts, in their order, and the trimmed concatenation of the
    texts as its response. *)
Theorem parseThinkingResponse_render (nowISO text : jsstring)
  (blocks : list (jsstring * jsstring)) :
  tag_free text = true ->
  Forall (fun block => tag_free (fst block) = true /\ tag_free (snd block) = true)
         blocks ->
  parseThinkingResponse nowISO (render text blocks)
  = {| p_thoughts :=
         List.map (fun body => {| t_content := body;
                                  t_type := analysis;
                                  t_timestamp := Some nowISO |})
           (List.filter nonempty (List.map (fun block => trim (fst block)) blocks));
       p_response := trim (text ++ flat_map snd blocks) |}.
Proof.
  intros Ht Hb. unfold parseThinkingResponse.
  rewrite (thinking_blocks_render blocks text _ Ht Hb (render_length text blocks)).
  rewrite List.map_map. reflexivity.
Qed.

Lemma parseThinkingResponse_render_witness :
  parseThinkingResponse Samples.now
    (js "<thinking> weigh it </thinking>Yes.<thinking> </thinking> Search.")
  = {| p_thoughts := [ {| t_content := js "weigh it";
                          t_type := analysis;
                          t_timestamp := Some Samples.now |} ];
       p_response := js "Yes. Search." |}.
Proof.
  apply (parseThinkingResponse_render Samples.now []
           [ (js " weigh it ", js "Yes."); (js " ", js " Search.") ]).
  - reflexivity.
  - repeat constructor.
Defined.

(** *** The search decision *)

Section Decision.
Variable W : Type.
Variable ollamaGenerate : jsstring -> jsstring -> M W (option jsstring).
Variable toLowerCase : jsstring -> jsstring.
Variable nowISO : jsstring.
Variable model : jsstring.

Abbreviation determineSearchNeed :=
  (ThinkingEngine.determineSearchNeed W ollamaGenerate toLowerCase nowISO model).

(** X8: the search decision always returns, and its confidence tells
    how it was reached. A query whose lower-case form contains one of the
    keywords, anywhere and also inside a longer word, is answered yes with
    confidence 0.8 and without a request to the model. Otherwise the model
    is asked once: when the request throws the answer is no with
    confidence 0.5; when it returns, the answer is yes exactly when the
    lower-case reply, its thinking blocks cut out, contains [yes],
    [search], [web] or [current], with confidence 0.7 for yes and 0.6 for
    no; what the model says inside its thinking blocks does not count. So
    a yes never comes with a confidence below 0.7 and a no never with one
    above 0.6. *)
Theorem determineSearchNeed_decides (query context : jsstring) (w : W) :
  exists (d : SearchNeed) (w' : W),
    determineSearchNeed query context w = (Normal d, w')
    /\ (forall keyword : jsstring,
          In keyword searchKeywords ->
          includes (toLowerCase query) keyword = true ->
          needsSearch d = true /\ sn_confidence d = c08 /\ w' = w)
    /\ (has_keyword toLowerCase query = false ->
        w' = snd (ollamaGenerate model (searchNeedPrompt query context) w)
        /\ match fst (ollamaGenerate model (searchNeedPrompt query context) w) with
           | Normal result =>
               let thinking := parseThinkingResponse nowISO (or_else result []) in
               needsSearch d = says_yes (toLowerCase (p_response thinking))
               /\ sn_confidence d = (if needsSearch d then c07 else c06)
               /\ sn_reason d = p_response thinking
               /\ sn_thoughts d = Some (p_thoughts thinking)
           | Throw _ => needsSearch d = false /\ sn_confidence d = c05
           end)
    /\ (forall (text : jsstring) (blocks : list (jsstring * jsstring)),
          has_keyword toLowerCase query = false ->
          fst (ollamaGenerate model (searchNeedPrompt query context) w)
          = Normal (Some (render text blocks)) ->
          tag_free text = true ->
          Forall (fun block => tag_free (fst block) = true /\ tag_free (snd block) = true)
                 blocks ->
          needsSearch d = says_yes (toLowerCase (trim (text ++ flat_map snd blocks))))
    /\ (if needsSearch d then c07 <=? sn_confidence d else sn_confidence d <=? c06) = true.
Proof.
  unfold ThinkingEngine.determineSearchNeed.
  destruct (has_keyword toLowerCase query) eqn:Hk.
  - eexists _, w. split; [reflexivity|]. cbn [needsSearch sn_confidence].
    split; [auto|]. split; [discriminate|]. split; [discriminate | reflexivity].
  - assert (Hnone : forall keyword : jsstring,
              In keyword searchKeywords ->
              includes (toLowerCase query) keyword = true -> False).
    { intros keyword Hin Hinc. unfold has_keyword in Hk.
      assert (existsb (fun keyword => includes (toLowerCase query) keyword) searchKeywords
              = true) by (apply existsb_exists; eauto).
      congruence. }
    unfold try_catch, bind, ret.
    destruct (ollamaGenerate model (searchNeedPrompt query context) w) as [[result|e] w1].
    + eexists _, w1. split; [reflexivity|].
      cbn [needsSearch sn_confidence sn_reason sn_thoughts fst snd].
      split; [intros keyword Hin Hinc; destruct (Hnone keyword Hin Hinc)|].
      split; [intros _; repeat split; reflexivity|].
      split; [|destruct (says_yes _); reflexivity].
      intros text blocks _ [= ->] Ht Hb.
      assert (Hreply : or_else (Some (render text blocks)) [] = render text blocks)
        by (unfold or_else; destruct (render text blocks); reflexivity).
      rewrite Hreply, p_response_render by assumption. reflexivity.
    + eexists _, w1. split; [reflexivity|]. cbn [needsSearch sn_confidence fst snd].
      split; [intros keyword Hin Hinc; destruct (Hnone keyword Hin Hinc)|].
      split; [intros _; repeat split; reflexivity|].
      split; [discriminate | reflexivity].
Qed.

End Decision.

(** Words inside a thinking block do not count. *)
Example determineSearchNeed_thinking :
  exists d : SearchNeed,
    determineSearchNeed unit
      (MoreSamples.replies (js "<thinking>search the web? yes</thinking>No."))
      Samples.lower Samples.now (js "m") (js "Why is the sky blue?") [] tt
    = (Normal d, tt)
    /\ needsSearch d = false /\ sn_confidence d = c06.
Proof. eexists. vm_compute. repeat split. Qed.

(** The keyword check looks for substrings: [now] inside [snow]. *)
Example determineSearchNeed_substring :
  determineSearchNeed unit MoreSamples.generate_down Samples.lower Samples.now (js "m")
    (js "Why is snow white?") [] tt
  = (Normal {| needsSearch := true;
               sn_confidence := c08;
               sn_reason := js "Contains time-sensitive keywords";
               sn_thoughts := None |}, tt).
Proof. vm_compute. reflexivity. Qed.

End ThinkingEngineFacts.

(** ** The search rounds of the chat endpoint *)

Module ChatSearchFacts.
Import JSString Eff Web SmartWebSearch ChatSearch SmartWebSearchFacts.

(** With complexity [high] the search goes on exactly below five results. *)
Lemma continuation_high (n : nat) :
  fst (fst (continuation n high)) = Nat.ltb n 5.
Proof.
  do 8 (destruct n as [|n]; [vm_compute; reflexivity|]).
  unfold continuation. reflexivity.
Qed.

Section Rounds.
Variable W : Type.
Variable webSearch : jsstring -> nat -> M W (list SearchResult).
Variable nowISO : jsstring.
Variable userMessage : jsstring.

Abbreviation loop := (searchRounds_loop W webSearch nowISO userMessage).
Abbreviation outcomes := (search_outcomes W (fun query => webSearch query 8)).

(** One round: the request, then the decision on what is in hand. *)
Lemma searchRounds_loop_step (query : jsstring) (rest : list jsstring)
  (total searchRound : nat) (all : list SearchResult) (thoughts : list Thought)
  (events : list Event) (w : W) :
  loop (query :: rest) total searchRound all thoughts (events, w)
  = match webSearch query 8 w with
    | (Throw e, w1) => (Throw e, (events ++ [search_start query searchRound total], w1))
    | (Normal results, w1) =>
        let all1 := all ++ results in
        let events1 :=
          (events ++ [search_start query searchRound total])
          ++ (if Nat.ltb 0 (List.length results)
              then [search_results query (List.length results) (List.length all1)]
              else []) in
        let thoughts1 :=
          thoughts ++ d_thoughts (shouldContinueSearching nowISO userMessage
                                    (Some all1) (Some high)) in
        if Nat.ltb searchRound total then
          if Nat.ltb (List.length all1) 5
          then loop rest total (S searchRound) all1 thoughts1 (events1, w1)
          else (Normal (all1, thoughts1),
                (events1 ++ [search_complete (js "Sufficient results found")
                               (List.length all1)], w1))
        else loop rest total (S searchRound) all1 thoughts (events1, w1)
    end.
Proof.
  cbn [searchRounds_loop]. unfold bind at 1, sendSSE at 1. cbn [fst snd].
  unfold bind at 1, search at 1. cbn [fst snd].
  destruct (webSearch query 8 w) as [[results|e] w1]; [|reflexivity].
  cbv zeta.
  destruct (shouldContinueSearching_fields SearchResult nowISO userMessage
              (Some (all ++ results)) (Some high)) as [_ Hcont].
  cbv zeta in Hcont. change (default medium (Some high)) with high in Hcont.
  rewrite continuation_high in Hcont.
  destruct results as [|r results].
  - change (Nat.ltb 0 (List.length (@nil SearchResult))) with false. cbv iota.
    rewrite !app_nil_r in *.
    unfold bind at 1, ret at 1. rewrite Hcont.
    destruct (Nat.ltb searchRound total); [|reflexivity].
    destruct (Nat.ltb (List.length all) 5); reflexivity.
  - change (Nat.ltb 0 (List.length (r :: results))) with true. cbv iota.
    unfold bind at 1, sendSSE at 1. cbn [fst snd]. rewrite Hcont.
    destruct (Nat.ltb searchRound total); [|reflexivity].
    destruct (Nat.ltb (List.length (all ++ r :: results)) 5); reflexivity.
Qed.

Lemma started_snoc (events : list Event) (e : Event) :
  started (events ++ [e])
  = started events ++ match e with search_start query _ _ => [query] | _ => [] end.
Proof. unfold started. rewrite flat_map_app. cbn. rewrite app_nil_r. reflexivity. Qed.

Lemma searchRounds_loop_spec (rest : list jsstring) :
  forall (total searchRound : nat) (all : list SearchResult) (thoughts : list Thought)
         (events : list Event) (w : W),
    (searchRound + List.length rest = total + 1)%nat ->
    exists n : nat,
      (n <= List.length rest)%nat
      /\ (rest <> [] -> (1 <= n)%nat)
      /\ let run := loop rest total searchRound all thoughts (events, w) in
         let outs := outcomes (firstn n rest) w in
         snd (snd run) = snd outs
         /\ started (fst (snd run)) = started events ++ firstn n rest
         /\ match fst run with
            | Normal (all', thoughts') =>
                all' = all ++ accumulated (fst outs)
                /\ Forall (fun c => exists found, c = Normal found) (fst outs)
                /\ ((n < List.length rest)%nat -> (5 <= List.length all')%nat)
                /\ (forall m : nat,
                      (0 < m < n)%nat ->
                      (List.length (all ++ accumulated (firstn m (fst outs))) < 5)%nat)
                /\ exists new : list Thought,
                     thoughts' = thoughts ++ new
                     /\ List.length new = Nat.min n (List.length rest - 1)
            | Throw e => nth_error (fst outs) (n - 1) = Some (Throw e)
            end.
Proof.
  induction rest as [|query rest IH]; intros total searchRound all thoughts events w Hround.
  - exists 0%nat. cbn. rewrite !app_nil_r.
    split; [lia|]. split; [congruence|]. split; [reflexivity|]. split; [reflexivity|].
    split; [reflexivity|]. split; [constructor|]. split; [lia|]. split; [intros; lia|].
    exists []. rewrite app_nil_r. split; reflexivity.
  - rewrite searchRounds_loop_step.
    destruct (webSearch query 8 w) as [[results|e] w1] eqn:Hsearch.
    + cbv zeta.
      set (all1 := all ++ results).
      set (events1 := (events ++ [search_start query searchRound total]) ++ _).
      set (thoughts1 := thoughts ++ _).
      assert (Hevents1 : started events1 = started events ++ [query]).
      { subst events1. destruct (Nat.ltb 0 (List.length results));
          rewrite ?started_snoc, ?app_nil_r, ?started_snoc; cbn; rewrite ?app_nil_r;
          reflexivity. }
      assert (Hone : let outs := outcomes (firstn 1 (query :: rest)) w in
                     snd outs = w1 /\ fst outs = [Normal results]).
      { cbn [firstn search_outcomes]. rewrite Hsearch. split; reflexivity. }
      cbv zeta in Hone. destruct Hone as [Hone1 Hone2].
      assert (Hstop : forall (thoughts' : list Thought) (events' : list Event),
                started events' = started events ++ [query] ->
                ((1 < List.length (query :: rest))%nat -> (5 <= List.length all1)%nat) ->
                (exists new : list Thought,
                   thoughts' = thoughts ++ new
                   /\ List.length new = Nat.min 1 (List.length (query :: rest) - 1)) ->
                let run := (Normal (all1, thoughts'), (events', w1)) in
                let outs := outcomes (firstn 1 (query :: rest)) w in
                snd (snd run) = snd outs
                /\ started (fst (snd run)) = started events ++ firstn 1 (query :: rest)
                /\ match fst run with
                   | Normal (all', thoughts'') =>
                       all' = all ++ accumulated (fst outs)
                       /\ Forall (fun c => exists found, c = Normal found) (fst outs)
                       /\ ((1 < List.length (query :: rest))%nat
                           -> (5 <= List.length all')%nat)
                       /\ (forall m : nat,
                             (0 < m < 1)%nat ->
                             (List.length (all ++ accumulated (firstn m (fst outs))) < 5)%nat)
                       /\ exists new : list Thought,
                            thoughts'' = thoughts ++ new
                            /\ List.length new
                               = Nat.min 1 (List.length (query :: rest) - 1)
                   | Throw e => nth_error (fst outs) (1 - 1) = Some (Throw e)
                   end).
      { intros thoughts' events' Hev Hfive Hnew. cbv zeta. rewrite Hone1, Hone2.
        cbn [fst snd]. split; [reflexivity|]. split; [exact Hev|].
        unfold accumulated. cbn [flat_map returned]. rewrite app_nil_r.
        split; [reflexivity|].
        split; [repeat constructor; eexists; reflexivity|].
        split; [exact Hfive|]. split; [intros m Hm; lia | exact Hnew]. }
      assert (Hone_thought : List.length (d_thoughts (shouldContinueSearching nowISO
                                                        userMessage (Some all1) (Some high)))
                             = 1%nat).
      { unfold shouldContinueSearching.
        destruct (continuation _ _) as [[c r] f]. reflexivity. }
      destruct (Nat.ltb searchRound total) eqn:Hlast.
      * apply Nat.ltb_lt in Hlast.
        destruct (Nat.ltb (List.length all1) 5) eqn:Hfive.
        -- apply Nat.ltb_lt in Hfive.
           destruct (IH total (S searchRound) all1 thoughts1 events1 w1)
             as (n & Hn & _ & Hres); [cbn [List.length] in Hround; lia|].
           exists (S n). cbv zeta in Hres |- *.
           cbn [List.length firstn search_outcomes]. rewrite Hsearch.
           destruct (outcomes (firstn n rest) w1) as [outs wn] eqn:Houts.
           cbn [fst snd] in *. destruct Hres as (Hw & Hst & Hres).
           split; [lia|]. split; [lia|]. split; [exact Hw|]. split.
           { rewrite Hst, Hevents1, <- app_assoc. reflexivity. }
           destruct (fst (loop rest total (S searchRound) all1 thoughts1 (events1, w1)))
             as [[all' thoughts']|e].
           ++ destruct Hres as (Hacc & Hnormal & Hstop' & Hbelow & new & Hnew & Hcount).
              unfold accumulated in *. cbn [flat_map returned].
              split; [rewrite Hacc; subst all1; rewrite <- app_assoc; reflexivity|].
              split; [constructor; [eexists; reflexivity | assumption]|].
              split; [intros; apply Hstop'; lia|].
              split.
              ** intros m Hm. destruct m as [|m]; [lia|]. cbn [firstn flat_map returned].
                 destruct m as [|m].
                 --- cbn [firstn flat_map]. rewrite app_nil_r. assumption.
                 --- rewrite app_assoc. apply Hbelow. lia.
              ** eexists. split; [rewrite Hnew; subst thoughts1; symmetry; apply app_assoc|].
                 rewrite length_app, Hone_thought, Hcount.
                 cbn [List.length] in Hround |- *. lia.
           ++ destruct n as [|n].
              ** destruct rest; [cbn [List.length] in Hround; lia|].
                 cbn in Houts. injection Houts as <- <-. cbn in Hres. discriminate.
              ** replace (S (S n) - 1)%nat with (S (S n - 1)) by lia. exact Hres.
        -- apply Nat.ltb_ge in Hfive. exists 1%nat.
           split; [cbn [List.length]; lia|]. split; [lia|].
           apply Hstop; [|intros _; exact Hfive|].
           ++ rewrite started_snoc, app_nil_r. exact Hevents1.
           ++ eexists. split; [reflexivity|]. rewrite Hone_thought.
              cbn [List.length] in Hround |- *. lia.
      * apply Nat.ltb_ge in Hlast.
        destruct rest as [|query' rest]; [|cbn [List.length] in Hround; lia].
        exists 1%nat. split; [cbn [List.length]; lia|]. split; [lia|].
        cbn [searchRounds_loop]. unfold ret.
        apply Hstop; [exact Hevents1 | cbn [List.length]; lia|].
        exists []. rewrite app_nil_r. split; reflexivity.
    + exists 1%nat. cbn [List.length firstn search_outcomes]. rewrite Hsearch.
      cbn [fst snd]. split; [lia|]. split; [lia|]. split; [reflexivity|].
      split; [|reflexivity].
      rewrite started_snoc. reflexivity.
Qed.

(** X9: the search rounds of the chat endpoint search a prefix of the
    planned queries, one request each and in order, and send one
    [search_start] per request. When the rounds end normally every request
    returned, the accumulated results are the results of these requests in
    order, and the rounds stopped before the last planned query exactly
    because at least five results were in hand, which was not so after any
    earlier round; the thoughts collected so far are kept and one thought
    is added for every decision taken, that is, after every round but the
    last planned one. When a request throws, the rounds end with that
    exception and no further request is made. *)
Theorem searchRounds_stop_rule (searchQueries : list jsstring) (thoughts : list Thought)
  (events : list Event) (w : W) :
  exists n : nat,
    (n <= List.length searchQueries)%nat
    /\ (searchQueries <> [] -> (1 <= n)%nat)
    /\ let run := searchRounds W webSearch nowISO userMessage searchQueries thoughts
                    (events, w) in
       let outs := outcomes (firstn n searchQueries) w in
       snd (snd run) = snd outs
       /\ started (fst (snd run)) = started events ++ firstn n searchQueries
       /\ match fst run with
          | Normal (all, thoughts') =>
              all = accumulated (fst outs)
              /\ Forall (fun c => exists found, c = Normal found) (fst outs)
              /\ ((n < List.length searchQueries)%nat -> (5 <= List.length all)%nat)
              /\ (forall m : nat,
                    (0 < m < n)%nat ->
                    (List.length (accumulated (firstn m (fst outs))) < 5)%nat)
              /\ exists new : list Thought,
                   thoughts' = thoughts ++ new
                   /\ List.length new = Nat.min n (List.length searchQueries - 1)
          | Throw e => nth_error (fst outs) (n - 1) = Some (Throw e)
          end.
Proof.
  unfold searchRounds.
  destruct (searchRounds_loop_spec searchQueries (List.length searchQueries) 1 []
              thoughts events w) as (n & H); [lia|].
  exists n. exact H.
Qed.

End Rounds.

End ChatSearchFacts.

(** ** The streamed reply of the model *)

Module ChatStreamFacts.
Import JSString Eff ChatStream.

(** *** Splitting at line feeds *)

Lemma split_lines_nonempty (s : jsstring) : split_lines s <> [].
Proof.
  destruct s as [|c s]; cbn [split_lines]; [discriminate|].
  destruct (c =? LF)%N; [discriminate|]. destruct (split_lines s); discriminate.
Qed.

Lemma split_lines_cons (c : N) (s : jsstring) :
  split_lines (c :: s)
  = if (c =? LF)%N then [] :: split_lines s
    else (c :: hd [] (split_lines s)) :: tl (split_lines s).
Proof.
  cbn [split_lines]. destruct (c =? LF)%N; [reflexivity|].
  pose proof (split_lines_nonempty s). destruct (split_lines s); [congruence | reflexivity].
Qed.

Lemma split_lines_parts (s : jsstring) :
  split_lines s = complete_lines s ++ [last_line s].
Proof. apply app_removelast_last, split_lines_nonempty. Qed.

(** The lines of a text that goes on: the complete lines so far, then the
    lines of the rest behind what followed the last line feed. *)
Lemma split_lines_app (s t : jsstring) :
  split_lines (s ++ t) = complete_lines s ++ split_lines (last_line s ++ t).
Proof.
  unfold complete_lines, last_line. induction s as [|c s IH]; [reflexivity|].
  cbn [app]. rewrite !split_lines_cons, IH.
  pose proof (split_lines_nonempty s) as Hs.
  destruct (c =? LF)%N eqn:Hc.
  - destruct (split_lines s) as [|l ls]; [congruence|]. reflexivity.
  - destruct (split_lines s) as [|l [|l' ls]]; [congruence| |].
    + cbn [removelast List.last hd tl app]. rewrite split_lines_cons, Hc. reflexivity.
    + reflexivity.
Qed.

Lemma complete_lines_app (s t : jsstring) :
  complete_lines (s ++ t) = complete_lines s ++ complete_lines (last_line s ++ t).
Proof.
  unfold complete_lines at 1. rewrite split_lines_app.
  apply removelast_app, split_lines_nonempty.
Qed.

Lemma last_line_app (s t : jsstring) :
  last_line (s ++ t) = last_line (last_line s ++ t).
Proof.
  unfold last_line at 1. rewrite split_lines_app.
  rewrite (split_lines_parts (last_line s ++ t)), app_assoc, !last_last. reflexivity.
Qed.

Lemma split_lines_no_line_feed (s : jsstring) :
  no_line_feed s = true -> split_lines s = [s].
Proof.
  induction s as [|c s IH]; [reflexivity|]. cbn [no_line_feed forallb].
  intros H. apply andb_prop in H as [Hc Hs]. apply negb_true_iff in Hc.
  rewrite split_lines_cons, Hc, (IH Hs). reflexivity.
Qed.

Lemma split_lines_line (l tail : jsstring) :
  no_line_feed l = true -> no_line_feed tail = true ->
  split_lines (l ++ LF :: tail) = [l; tail].
Proof.
  intros Hl Ht. induction l as [|c l IH].
  - cbn [app]. rewrite split_lines_cons, N.eqb_refl, split_lines_no_line_feed by assumption.
    reflexivity.
  - cbn [no_line_feed forallb] in Hl. apply andb_prop in Hl as [Hc Hl].
    apply negb_true_iff in Hc. cbn [app]. rewrite split_lines_cons, Hc, (IH Hl).
    reflexivity.
Qed.

Lemma last_line_no_line_feed (s : jsstring) : no_line_feed (last_line s) = true.
Proof.
  unfold last_line. induction s as [|c s IH]; [reflexivity|].
  rewrite split_lines_cons. pose proof (split_lines_nonempty s) as Hs.
  destruct (c =? LF)%N eqn:Hc.
  - destruct (split_lines s); [congruence | exact IH].
  - destruct (split_lines s) as [|l [|l' ls]]; [congruence| |exact IH].
    cbn [hd tl List.last] in *. cbn [no_line_feed forallb]. rewrite Hc. exact IH.
Qed.

Section Stream.
Variable JSON_parse : jsstring -> completion json.
Variable ToString : json -> jsstring.
Variable Uint8Array : Type.
Variable decode : Uint8Array -> jsstring.

Abbreviation onLine := (ChatStream.onLine JSON_parse ToString).
Abbreviation forLines := (ChatStream.forLines JSON_parse ToString).
Abbreviation readLoop := (ChatStream.readLoop JSON_parse ToString Uint8Array decode).
Abbreviation contribution := (ChatStream.contribution JSON_parse ToString).
Abbreviation sent := (ChatStream.sent JSON_parse).

Lemma onLine_run (line finalAnswer : jsstring) (events : list Event) :
  onLine line finalAnswer events
  = (Normal (finalAnswer ++ contribution line), events ++ sent line).
Proof.
  unfold ChatStream.onLine, ChatStream.contribution, ChatStream.sent.
  destruct (negb (nonempty (trim line))).
  - unfold ret. rewrite !app_nil_r. reflexivity.
  - unfold try_catch, bind, lift, ret, sendSSE.
    destruct (JSON_parse line) as [data|e]; [|reflexivity].
    destruct (content_of data) as [content|e]; [|reflexivity].
    destruct (truthy_json content); [reflexivity|].
    rewrite !app_nil_r. reflexivity.
Qed.

Lemma forLines_run (lines : list jsstring) :
  forall (finalAnswer : jsstring) (events : list Event),
    forLines lines finalAnswer events
    = (Normal (finalAnswer ++ flat_map contribution lines),
       events ++ flat_map sent lines).
Proof.
  induction lines as [|line lines IH]; intros finalAnswer events.
  - cbn. rewrite !app_nil_r. reflexivity.
  - cbn [ChatStream.forLines flat_map]. unfold bind. rewrite onLine_run, IH, <- !app_assoc.
    reflexivity.
Qed.

Lemma readLoop_run (chunks : list Uint8Array) :
  forall (buffer finalAnswer : jsstring) (events : list Event),
    no_line_feed buffer = true ->
    let lines := complete_lines (buffer ++ flat_map decode chunks) in
    readLoop chunks buffer finalAnswer events
    = (Normal (finalAnswer ++ flat_map contribution lines),
       events ++ flat_map sent lines).
Proof.
  induction chunks as [|value chunks IH]; intros buffer finalAnswer events Hb; cbv zeta.
  - cbn [ChatStream.readLoop flat_map]. rewrite app_nil_r.
    unfold complete_lines. rewrite split_lines_no_line_feed by assumption.
    cbn. rewrite !app_nil_r. reflexivity.
  - cbn [ChatStream.readLoop flat_map]. unfold bind. rewrite forLines_run.
    fold (complete_lines (buffer ++ decode value)).
    fold (last_line (buffer ++ decode value)).
    rewrite IH by apply last_line_no_line_feed. cbv zeta.
    rewrite (app_assoc buffer), (complete_lines_app (buffer ++ decode value)).
    rewrite !flat_map_app, <- !app_assoc. reflexivity.
Qed.

(** X10: the streamed answer does not depend on how the reply is cut
    into chunks. The loop handles the lines of the decoded text that a
    line feed ends, each once and in order, wherever the chunk boundaries
    fall: the answer grows by the contribution of each of these lines, and
    the events sent are theirs. The loop never throws on what a line holds.
    What follows the last line feed is never handled: a reply whose last
    line has no line feed loses that line. *)
Theorem readLoop_by_lines (chunks : list Uint8Array) (finalAnswer : jsstring)
  (events : list Event) :
  let lines := complete_lines (flat_map decode chunks) in
  readLoop chunks [] finalAnswer events
  = (Normal (finalAnswer ++ flat_map contribution lines), events ++ flat_map sent lines)
  /\ (forall text tail : jsstring,
        flat_map decode chunks = text ++ LF :: tail -> no_line_feed tail = true ->
        lines = split_lines text)
  /\ (no_line_feed (flat_map decode chunks) = true -> lines = []).
Proof.
  cbv zeta. split; [|split].
  - apply (readLoop_run chunks [] finalAnswer events). reflexivity.
  - intros text tail -> Htail.
    rewrite complete_lines_app.
    unfold complete_lines at 2.
    rewrite split_lines_line by (apply last_line_no_line_feed || assumption).
    cbn [removelast]. symmetry. apply split_lines_parts.
  - intros H. unfold complete_lines. rewrite split_lines_no_line_feed by assumption.
    reflexivity.
Qed.

End Stream.

End ChatStreamFacts.

(** ** Sessions *)

Module SessionsFacts.
Import JSString Eff JSArray Http Sessions.
#[local] Open Scope float_scope.

Section Sessions.
Variable Message : Type.
Variable messageContent : Message -> option jsstring.
Variable CHAT_MODEL : jsstring.
Variable sessionsDir : jsstring.
Variable path_join : jsstring -> jsstring -> jsstring.
Variable nowISO : jsstring.
Variable localeNow : jsstring.
Variable dateNow : jsstring.
Variable random : jsstring.

Abbreviation sessionFile := (Sessions.sessionFile sessionsDir path_join).
Abbreviation defaultData := (Sessions.defaultData Message CHAT_MODEL nowISO localeNow).
Abbreviation withDefaults := (Sessions.withDefaults Message CHAT_MODEL).
Abbreviation touch := (Sessions.touch Message nowISO).
Abbreviation loadSession :=
  (Sessions.loadSession Message CHAT_MODEL sessionsDir path_join nowISO localeNow).
Abbreviation saveSession := (Sessions.saveSession Message nowISO).
Abbreviation createSession :=
  (Sessions.createSession Message CHAT_MODEL sessionsDir path_join nowISO localeNow
     dateNow random).
Abbreviation deleteSession := (Sessions.deleteSession Message sessionsDir path_join).
Abbreviation renameSession :=
  (Sessions.renameSession Message CHAT_MODEL sessionsDir path_join nowISO localeNow).

(** The disk after a successful write. *)
Abbreviation written file data w :=
  {| files := <[file := Object (stringify data)]> (files w);
     writable := writable w;
     removable := removable w |}.

Lemma withDefaults_complete (data : SessionData Message) :
  is_complete data = true -> withDefaults data = data.
Proof.
  unfold is_complete, Sessions.withDefaults. destruct data as [i n m c u ms st].
  cbn. intros H. apply andb_prop in H as [H Hst]. apply andb_prop in H as [Hm Hms].
  rewrite Hm. destruct ms, st; try discriminate. reflexivity.
Qed.

Lemma withDefaults_is_complete (data : SessionData Message) :
  CHAT_MODEL <> [] -> is_complete (withDefaults data) = true.
Proof.
  intros Hmodel. unfold is_complete, Sessions.withDefaults.
  cbn [s_model s_messages s_settings].
  assert (Hne : nonempty CHAT_MODEL = true)
    by (revert Hmodel; generalize CHAT_MODEL; intros [|c l]; [congruence | reflexivity]).
  assert (truthy (if truthy (s_model data) then s_model data else Some CHAT_MODEL) = true)
    as -> by (destruct (truthy (s_model data)) eqn:Hm; [exact Hm | exact Hne]).
  destruct (s_messages data), (s_settings data); reflexivity.
Qed.

Lemma stringify_defaultData (id : jsstring) : stringify (defaultData id) = defaultData id.
Proof. reflexivity. Qed.

Lemma withDefaults_defaultData (id : jsstring) :
  withDefaults (defaultData id) = defaultData id.
Proof.
  unfold Sessions.withDefaults, Sessions.defaultData. cbn.
  destruct (nonempty CHAT_MODEL); reflexivity.
Qed.

Lemma loadSession_readable (id : jsstring) (w : world Message)
  (stored : SessionData Message) :
  files w !! sessionFile id = Some (Object stored) ->
  loadSession id w = (Normal (sessionFile id, withDefaults stored), w).
Proof.
  intros H. unfold Sessions.loadSession, try_catch, bind, readJSON.
  fold (sessionFile id). rewrite H. reflexivity.
Qed.

Lemma loadSession_unreadable (id : jsstring) (w : world Message) :
  (forall stored, files w !! sessionFile id <> Some (Object stored)) ->
  loadSession id w
  = if writable w (sessionFile id)
    then (Normal (sessionFile id, defaultData id), written (sessionFile id) (defaultData id) w)
    else (Throw (Error (js "Failed to write JSON file")), w).
Proof.
  intros H. unfold Sessions.loadSession, try_catch, bind, readJSON, writeJSON, throw.
  fold (sessionFile id).
  destruct (files w !! sessionFile id) as [[stored| |]|] eqn:E;
    [destruct (H stored); reflexivity| | |];
    destruct (writable w (sessionFile id)); reflexivity.
Qed.

(** X11: loading a session repairs it and touches nothing else.
    [loadSession] never changes a file other than the file of the session.
    When that file holds a session object the disk stays as it is, and the
    object is returned with a model, a settings object and a message list,
    its own where it had them; a complete object is returned unchanged.
    When the file is missing or holds no object, a fresh empty session is
    written under the id asked for and returned, so a second call returns
    the same session without writing; when that write fails the call
    throws and the disk stays as it is. *)
Theorem loadSession_heals (id : jsstring) (w : world Message) :
  (forall other : jsstring,
     other <> sessionFile id ->
     files (snd (loadSession id w)) !! other = files w !! other)
  /\ match files w !! sessionFile id with
     | Some (Object stored) =>
         exists data : SessionData Message,
           loadSession id w = (Normal (sessionFile id, data), w)
           /\ s_model data <> None /\ s_messages data <> None /\ s_settings data <> None
           /\ s_id data = s_id stored /\ s_name data = s_name stored
           /\ (forall ms, s_messages stored = Some ms -> s_messages data = Some ms)
           /\ (is_complete stored = true -> data = stored)
     | _ =>
         if writable w (sessionFile id)
         then exists (data : SessionData Message) (w' : world Message),
                loadSession id w = (Normal (sessionFile id, data), w')
                /\ files w' !! sessionFile id = Some (Object data)
                /\ s_id data = Some id /\ s_messages data = Some []
                /\ loadSession id w' = (Normal (sessionFile id, data), w')
         else exists e : exn, loadSession id w = (Throw e, w)
     end.
Proof.
  assert (Hfresh : (forall stored, files w !! sessionFile id <> Some (Object stored)) ->
            (forall other : jsstring,
               other <> sessionFile id ->
               files (snd (loadSession id w)) !! other = files w !! other)
            /\ if writable w (sessionFile id)
               then exists (data : SessionData Message) (w' : world Message),
                      loadSession id w = (Normal (sessionFile id, data), w')
                      /\ files w' !! sessionFile id = Some (Object data)
                      /\ s_id data = Some id /\ s_messages data = Some []
                      /\ loadSession id w' = (Normal (sessionFile id, data), w')
               else exists e : exn, loadSession id w = (Throw e, w)).
  { intros H. rewrite (loadSession_unreadable id w H).
    destruct (writable w (sessionFile id)) eqn:Hw; cbn [snd].
    - split.
      + intros other Hother. cbn [files]. apply lookup_insert_ne. congruence.
      + eexists _, _. split; [reflexivity|]. cbn [files].
        rewrite stringify_defaultData, lookup_insert_eq.
        split; [reflexivity|]. split; [reflexivity|]. split; [reflexivity|].
        rewrite (loadSession_readable id _ (defaultData id)), withDefaults_defaultData;
          [reflexivity|].
        cbn [files]. apply lookup_insert_eq.
    - split; [reflexivity | eexists; reflexivity]. }
  destruct (files w !! sessionFile id) as [[stored| |]|] eqn:E;
    [|apply Hfresh; congruence | apply Hfresh; congruence | apply Hfresh; congruence].
  rewrite (loadSession_readable id w stored E). cbn [snd]. split; [reflexivity|].
  eexists. split; [reflexivity|].
  split; [cbn; destruct (truthy (s_model stored)) eqn:Hm;
          [destruct (s_model stored); [discriminate | discriminate Hm] | discriminate]|].
  split; [cbn; destruct (s_messages stored); discriminate|].
  split; [cbn; destruct (s_settings stored); discriminate|].
  split; [reflexivity|]. split; [reflexivity|].
  split; [intros ms Hms; cbn; rewrite Hms; reflexivity|].
  apply withDefaults_complete.
Qed.


Lemma saveSession_run (file : jsstring) (data : SessionData Message) (w : world Message) :
  saveSession file data w
  = if writable w file
    then (Normal (touch data), written file (touch data) w)
    else (Throw (Error (js "Failed to write JSON file")), w).
Proof.
  unfold Sessions.saveSession, bind, writeJSON. destruct (writable w file); reflexivity.
Qed.


(** X13: the life of a session. On a file that can be written and
    removed, [createSession] stores a session without messages under a
    fresh id and returns it; loading that id returns the same session.
    Deleting it removes the file, and a second delete replies with status
    404. Loading the id after the delete does not fail: it stores and
    returns a new empty session under the same id. *)
Theorem session_life_cycle (name model : option jsstring) (w : world Message) :
  let id := js "session_" ++ dateNow ++ js "_" ++ random in
  writable w (sessionFile id) = true -> removable w (sessionFile id) = true ->
  exists (created : SessionData Message) (w1 w2 w3 : world Message),
    createSession name model w = (Normal created, w1)
    /\ s_id created = Some id /\ s_messages created = Some []
    /\ loadSession id w1 = (Normal (sessionFile id, created), w1)
    /\ deleteSession id w1 = (Normal (json_reply tt), w2)
    /\ files w2 !! sessionFile id = None
    /\ deleteSession id w2 = (Normal (error_reply 404 (js "Session not found")), w2)
    /\ loadSession id w2 = (Normal (sessionFile id, defaultData id), w3)
    /\ files w3 !! sessionFile id = Some (Object (defaultData id)).
Proof.
  intros id Hw Hr.
  unfold Sessions.createSession, bind, writeJSON. fold id. fold (sessionFile id).
  rewrite Hw. eexists _, _, _, _. split; [reflexivity|].
  split; [reflexivity|]. split; [reflexivity|].
  split.
  { erewrite loadSession_readable by (cbn [files]; apply lookup_insert_eq).
    f_equal. f_equal. unfold Sessions.withDefaults, stringify. cbn.
    destruct (nonempty (or_else model CHAT_MODEL)) eqn:E; [reflexivity|].
    unfold or_else in *. destruct model as [m|]; [destruct (nonempty m) eqn:Em|];
      rewrite ?E, ?Em in *; try congruence; reflexivity. }
  split.
  { unfold Sessions.deleteSession, try_catch, bind, unlink. fold (sessionFile id).
    cbn [files removable]. rewrite lookup_insert_eq, Hr. reflexivity. }
  cbn [files]. rewrite delete_insert_eq.
  split; [apply lookup_delete_eq|].
  split.
  { unfold Sessions.deleteSession, try_catch, bind, unlink. fold (sessionFile id).
    cbn [files]. rewrite lookup_delete_eq. reflexivity. }
  split.
  - rewrite loadSession_unreadable
      by (intros stored; cbn [files]; rewrite lookup_delete_eq; discriminate).
    cbn [writable]. rewrite Hw. reflexivity.
  - cbn [files]. apply lookup_insert_eq.
Qed.

(** X14: renaming. [PUT /api/sessions/:id/name] replies with status 400
    and leaves the disk as it is when the name is missing, is not a string,
    is empty or is longer than 100 characters. With any other name, on a
    session that can be read and written, it replies [ok], leaves every
    other file as it is, and the session then loads with the trimmed name
    and with the messages it had; so a name of white space only is
    accepted and stored as the empty name. *)
Theorem renameSession_stores_trimmed (id : jsstring) (name : option jsstring)
  (w : world Message) (stored : SessionData Message) :
  files w !! sessionFile id = Some (Object stored) ->
  writable w (sessionFile id) = true ->
  let valid := match name with
               | Some text => nonempty text && Nat.leb (List.length text) 100
               | None => false
               end in
  if valid
  then exists (w' : world Message) (data : SessionData Message),
         renameSession id name w = (Normal (json_reply tt), w')
         /\ loadSession id w' = (Normal (sessionFile id, data), w')
         /\ s_name data = option_map trim name
         /\ s_messages data = s_messages (withDefaults stored)
         /\ (forall other : jsstring,
               other <> sessionFile id -> files w' !! other = files w !! other)
  else renameSession id name w = (Normal (error_reply 400 (js "Invalid name")), w).
Proof.
  intros Hstored Hw valid. subst valid. unfold Sessions.renameSession, try_catch.
  destruct name as [text|]; [|reflexivity].
  rewrite Nat.leb_antisym. destruct (nonempty text); [|reflexivity].
  cbn [negb orb andb]. destruct (Nat.ltb 100 (List.length text)); [reflexivity|].
  cbn [negb]. unfold bind at 1. fold loadSession.
  rewrite (loadSession_readable id w stored Hstored). cbn [fst snd].
  unfold bind at 1. fold saveSession. rewrite saveSession_run, Hw.
  eexists _, _. split; [reflexivity|]. split.
  - erewrite loadSession_readable by (cbn [files]; apply lookup_insert_eq).
    reflexivity.
  - split; [reflexivity|]. split.
    + cbn. destruct (s_messages stored); reflexivity.
    + intros other Hother. cbn [files]. apply lookup_insert_ne. congruence.
Qed.

End Sessions.


Lemma session_life_cycle_witness :
  exists (created : SessionData jsstring) (w1 : world jsstring),
    Sessions.createSession jsstring (js "llama3") (js "sessions") MoreSamples.join
      Samples.now (js "1/2/2024") (js "1704153600000") (js "k3x9ab") None None
      MoreSamples.session_disk
    = (Normal created, w1)
    /\ s_id created = Some (js "session_1704153600000_k3x9ab").
Proof.
  destruct (session_life_cycle jsstring (js "llama3") (js "sessions") MoreSamples.join
              Samples.now (js "1/2/2024") (js "1704153600000") (js "k3x9ab") None None
              MoreSamples.session_disk eq_refl eq_refl)
    as (created & w1 & _ & _ & Hcreate & Hid & _).
  exists created, w1. split; [exact Hcreate | exact Hid].
Defined.

Lemma renameSession_stores_trimmed_witness :
  exists (w' : world jsstring) (data : SessionData jsstring),
    Sessions.renameSession jsstring (js "llama3") (js "sessions") MoreSamples.join
      Samples.now (js "1/2/2024") (js "s1") (Some (js " Green tea "))
      MoreSamples.session_disk
    = (Normal (json_reply tt), w')
    /\ Sessions.loadSession jsstring (js "llama3") (js "sessions") MoreSamples.join
         Samples.now (js "1/2/2024") (js "s1") w'
       = (Normal (Sessions.sessionFile (js "sessions") MoreSamples.join (js "s1"), data), w')
    /\ s_name data = Some (js "Green tea").
Proof.
  pose proof (renameSession_stores_trimmed jsstring (js "llama3") (js "sessions")
                MoreSamples.join Samples.now (js "1/2/2024") (js "s1")
                (Some (js " Green tea ")) MoreSamples.session_disk MoreSamples.chat
                (lookup_singleton_eq _ _) eq_refl) as H.
  cbv zeta in H. change (nonempty (js " Green tea ") && _) with true in H. cbv iota in H.
  destruct H as (w' & data & Hrename & Hload & Hname & _).
  exists w', data. split; [exact Hrename|]. split; [exact Hload | exact Hname].
Defined.

End SessionsFacts.

(** ** Sorting by a numeric key, largest first *)

Module JSArrayFacts.
Import JSArray Binary64Facts.
#[local] Open Scope float_scope.

Section ByKey.
Context {A : Type}.
Variable key : A -> float.

(** [(a, b) => key(b) - key(a)] *)
Abbreviation descending := (fun a b : A => key b - key a).
Abbreviation numeric := (fun x : A => is_nan (key x) = false).
Abbreviation ordered := (fun a b : A => (key b <=? key a) = true).

Lemma sort_insert_by_key_In (x y : A) (l : list A) :
  In y (sort_insert descending x l) -> y = x \/ In y l.
Proof.
  induction l as [|z l IH]; cbn [sort_insert].
  - intros [<- | []]. auto.
  - destruct (0 <? key z - key x).
    + intros [<- | H]; [right; left; reflexivity|].
      apply IH in H as [H|H]; [auto | right; right; assumption].
    + intros [<- | H]; auto.
Qed.

Lemma sort_insert_by_key_perm (x : A) (l : list A) :
  Permutation (sort_insert descending x l) (x :: l).
Proof.
  induction l as [|z l IH]; cbn [sort_insert]; [reflexivity|].
  destruct (0 <? key z - key x); [|reflexivity].
  rewrite IH. apply perm_swap.
Qed.

(** Whatever the keys are, sorting only reorders. *)
Lemma sort_by_key_perm (l : list A) : Permutation (sort descending l) l.
Proof.
  induction l as [|x l IH]; cbn [sort fold_right]; [reflexivity|].
  fold (sort descending l). rewrite sort_insert_by_key_perm, IH. reflexivity.
Qed.

Lemma sort_insert_by_key_sorted (x : A) (l : list A) :
  numeric x -> Forall numeric l -> StronglySorted ordered l ->
  StronglySorted ordered (sort_insert descending x l).
Proof.
  intros Hx Hl Hs. induction Hs as [|z l Hs IH Hz]; cbn [sort_insert].
  - repeat constructor.
  - inversion Hl as [|? ? Kz Kl]; subst.
    rewrite sub_pos_iff_lt by assumption.
    destruct (key x <? key z) eqn:E.
    + constructor; [apply IH; assumption|].
      apply Forall_forall. intros y Hy. apply sort_insert_by_key_In in Hy as [-> | Hy].
      * apply ltb_leb. assumption.
      * revert y Hy. apply Forall_forall. assumption.
    + assert (Hzx : ordered x z) by (apply ltb_false_leb; assumption).
      constructor; [constructor; assumption|].
      constructor; [assumption|].
      apply Forall_forall. intros y Hy. cbv beta in *.
      apply (leb_trans _ (key z)); [|assumption].
      revert y Hy. apply Forall_forall. assumption.
Qed.

Lemma sort_insert_by_key_tied (s : float) (x : A) (l : list A) :
  numeric x -> Forall numeric l ->
  List.filter (fun y => key y =? s) (sort_insert descending x l)
  = List.filter (fun y => key y =? s) (x :: l).
Proof.
  intros Hx Hl. induction l as [|z l IH]; cbn [sort_insert]; [reflexivity|].
  inversion Hl as [|? ? Kz Kl]; subst.
  rewrite sub_pos_iff_lt by assumption.
  destruct (key x <? key z) eqn:E; [|reflexivity].
  cbn [List.filter] in *. rewrite (IH Kl).
  destruct (key x =? s) eqn:Tx; [|reflexivity].
  rewrite (ltb_eqb_false _ _ _ E Tx). reflexivity.
Qed.

(** With keys that are numbers, sorting puts the largest first and keeps
    the order of the elements that have the same key. *)
Lemma sort_by_key_sorted (l : list A) :
  Forall numeric l ->
  StronglySorted ordered (sort descending l)
  /\ Forall numeric (sort descending l)
  /\ forall s : float,
       List.filter (fun y => key y =? s) (sort descending l)
       = List.filter (fun y => key y =? s) l.
Proof.
  induction 1 as [|x l Hx Hl (IH1 & IH2 & IH3)]; cbn [sort fold_right].
  - repeat split; constructor.
  - fold (sort descending l). repeat split.
    + apply sort_insert_by_key_sorted; assumption.
    + apply Forall_forall. intros y Hy.
      apply sort_insert_by_key_In in Hy as [-> | Hy]; [assumption|].
      revert y Hy. apply Forall_forall. assumption.
    + intros s. rewrite sort_insert_by_key_tied by assumption.
      cbn [List.filter]. rewrite IH3. reflexivity.
Qed.

End ByKey.

End JSArrayFacts.

(** ** The listing of the sessions *)

Module SessionListFacts.
Import JSString Eff JSArray Http Sessions JSArrayFacts.
#[local] Open Scope float_scope.

Section Listing.
Variable Message : Type.
Variable messageContent : Message -> option jsstring.
Variable sessionsDir : jsstring.
Variable path_join : jsstring -> jsstring -> jsstring.
Variable readdir : M (world Message) (list jsstring).
Variable dateValue : option jsstring -> float.

Abbreviation readSessions :=
  (Sessions.readSessions Message messageContent sessionsDir path_join).
Abbreviation listSessions :=
  (Sessions.listSessions Message messageContent sessionsDir path_join readdir dateValue).
Abbreviation readable_summaries :=
  (Sessions.readable_summaries Message messageContent sessionsDir path_join).

Lemma readSessions_run (names : list jsstring) :
  forall (sessions : list Summary) (w : world Message),
    readSessions names sessions w = (Normal (sessions ++ readable_summaries w names), w).
Proof.
  induction names as [|file names IH]; intros sessions w.
  - cbn. rewrite app_nil_r. reflexivity.
  - cbn [Sessions.readSessions Sessions.readable_summaries flat_map].
    unfold bind at 1, try_catch, bind at 1, readJSON.
    fold (readable_summaries w names).
    destruct (files w !! path_join sessionsDir file) as [[data| |]|];
      unfold ret; rewrite IH, <- ?app_assoc; reflexivity.
Qed.

Lemma readable_summaries_length (w : world Message) (names : list jsstring) :
  (List.length (readable_summaries w names) <= List.length names)%nat.
Proof.
  induction names as [|file names IH]; cbn [Sessions.readable_summaries flat_map List.length];
    [lia|].
  fold (readable_summaries w names). rewrite length_app.
  destruct (files w !! path_join sessionsDir file) as [[data| |]|]; cbn [List.length]; lia.
Qed.

(** X15: the listing of the sessions. [listSessions] never throws and
    never writes. It looks at the first [limit] names of the directory
    that end in [.json], in directory order, and returns one entry for each
    of them whose content can be used, the others skipped: so at most
    [limit] entries, and a reordering of those entries. When every entry
    has a valid date the listing is sorted by [updated], latest first,
    entries with the same time in directory order. When the directory
    cannot be read the listing is empty. *)
Theorem listSessions_lists (limit : nat) (w : world Message) :
  exists sessions : list Summary,
    listSessions limit w = (Normal sessions, snd (readdir w))
    /\ (List.length sessions <= limit)%nat
    /\ match fst (readdir w) with
       | Normal names =>
           let jsonFiles :=
             firstn limit (List.filter (fun f => endsWith f (js ".json")) names) in
           let entries := readable_summaries (snd (readdir w)) jsonFiles in
           Permutation sessions entries
           /\ (Forall (fun s => is_nan (dateValue (sm_updated s)) = false) entries ->
               StronglySorted
                 (fun a b => (dateValue (sm_updated b) <=? dateValue (sm_updated a)) = true)
                 sessions
               /\ forall t : float,
                    List.filter (fun s => dateValue (sm_updated s) =? t) sessions
                    = List.filter (fun s => dateValue (sm_updated s) =? t) entries)
       | Throw _ => sessions = []
       end.
Proof.
  unfold Sessions.listSessions, try_catch, bind at 1.
  destruct (readdir w) as [[names|e] w1]; cbn [fst snd].
  - unfold bind. rewrite readSessions_run. cbn [app]. unfold ret.
    eexists. split; [reflexivity|].
    set (jsonFiles := firstn limit (List.filter _ names)).
    set (entries := readable_summaries w1 jsonFiles).
    pose proof (sort_by_key_perm (fun s => dateValue (sm_updated s)) entries) as Hperm.
    split.
    + unfold byUpdatedDesc. rewrite (Permutation_length Hperm).
      etransitivity; [apply readable_summaries_length|].
      subst jsonFiles. apply firstn_le_length.
    + cbv zeta. split; [exact Hperm|].
      intros Hdates.
      destruct (sort_by_key_sorted (fun s => dateValue (sm_updated s)) entries Hdates)
        as (Hsorted & _ & Hstable).
      split; [exact Hsorted | exact Hstable].
  - exists []. split; [reflexivity|]. split; [cbn; lia | reflexivity].
Qed.

End Listing.

End SessionListFacts.

(** ** The memory store of the first server *)

Module LegacyStoreFacts.
Import JSString Eff Http Similarity JSArray LegacyStore StoreInvariants JSArrayFacts.
Import Binary64Facts.
#[local] Open Scope float_scope.

Section Store.
Variable ollamaEmbed : list jsstring -> completion (list vector).
Variable nowISO : jsstring.
Variable toLowerCase : jsstring -> jsstring.

Abbreviation retrieve := (LegacyStore.retrieveLongTermMemory ollamaEmbed).
Abbreviation upsert := (LegacyStore.upsertLongTermMemory ollamaEmbed nowISO toLowerCase).
Abbreviation is_new := (LegacyStore.is_new toLowerCase).
Abbreviation existing := (LegacyStore.existing toLowerCase).
Abbreviation push_all := (LegacyStore.push_all nowISO).

(** What the loop pushes, with a query vector. *)
Abbreviation scored_by q minSim items :=
  (List.filter (fun r => minSim <=? sim r)
     (flat_map (fun it => match embedding it with
                          | Some e => [ {| item := it; sim := cosSim_legacy q e |} ]
                          | None => []
                          end) items)).

Lemma score_loop_some (q : vector) (minSim : float) (items : list MemoryItem) :
  forall scored : list Scored,
    score_loop (Some q) minSim items scored = Normal (scored ++ scored_by q minSim items).
Proof.
  induction items as [|it items IH]; intros scored; cbn [score_loop flat_map].
  - cbn. rewrite app_nil_r. reflexivity.
  - destruct (embedding it) as [e|]; cbn [app]; [|apply IH].
    rewrite IH. cbn [List.filter sim].
    destruct (minSim <=? cosSim_legacy q e); [rewrite <- app_assoc|]; reflexivity.
Qed.

Lemma score_loop_none (minSim : float) (items : list MemoryItem) :
  forall scored : list Scored,
    score_loop None minSim items scored
    = if existsb has_embedding items
      then Throw (TypeError (js "Cannot read properties of undefined (reading 'length')"))
      else Normal scored.
Proof.
  induction items as [|it items IH]; intros scored; cbn [score_loop existsb]; [reflexivity|].
  unfold has_embedding at 1. destruct (embedding it); [reflexivity | apply IH].
Qed.

(** X16: retrieval in the first server ranks like the core server's but
    throws where that one returns the empty sequence. It never writes. On
    an empty collection it returns the empty sequence. It throws when the
    store cannot be read, when the embedding request throws, and, with a
    [TypeError], when the request returns no vector and some stored item
    has an embedding. Otherwise it returns at most [k] items, each a stored
    item with an embedding and a similarity of at least [minSim], sorted by
    non-increasing similarity, items of equal similarity in store order. *)
Theorem retrieve_legacy_ranked (query : jsstring) (k : nat) (minSim : float) (w : world) :
  snd (retrieve query k minSim w) = w
  /\ match memoryFile w with
     | None => exists e : exn, fst (retrieve query k minSim w) = Throw e
     | Some mem =>
         if Nat.eqb (List.length (longTerm mem)) 0
         then fst (retrieve query k minSim w) = Normal []
         else
           match ollamaEmbed [query] with
           | Throw e => fst (retrieve query k minSim w) = Throw e
           | Normal [] =>
               if existsb has_embedding (longTerm mem)
               then exists e : exn,
                      fst (retrieve query k minSim w) = Throw e
                      /\ exn_name e = js "TypeError"
               else fst (retrieve query k minSim w) = Normal []
           | Normal (q :: _) =>
               exists ranked : list Scored,
                 fst (retrieve query k minSim w) = Normal (firstn k ranked)
                 /\ (List.length (firstn k ranked) <= k)%nat
                 /\ StronglySorted (fun a b => (sim b <=? sim a) = true) ranked
                 /\ Permutation ranked (scored_by q minSim (longTerm mem))
                 /\ Forall (fun r => (minSim <=? sim r) = true
                                     /\ In (item r) (longTerm mem)
                                     /\ embedding (item r) <> None)
                           ranked
                 /\ forall s : float,
                      List.filter (fun r => sim r =? s) ranked
                      = List.filter (fun r => sim r =? s) (scored_by q minSim (longTerm mem))
           end
     end.
Proof.
  unfold LegacyStore.retrieveLongTermMemory, loadMemory, readJSON, bind, lift, ret.
  destruct (memoryFile w) as [mem|]; [|split; [reflexivity | eexists; reflexivity]].
  destruct (Nat.eqb (List.length (longTerm mem)) 0); [split; reflexivity|].
  destruct (ollamaEmbed [query]) as [[|q embs]|e]; cbn [hd_error];
    [| |split; reflexivity].
  - rewrite score_loop_none.
    destruct (existsb has_embedding (longTerm mem));
      [split; [reflexivity | eexists; split; reflexivity]|].
    cbn [sort fold_right fst snd]. rewrite firstn_nil. split; reflexivity.
  - rewrite score_loop_some. cbn [app fst snd]. split; [reflexivity|].
    set (scored := scored_by q minSim (longTerm mem)).
    assert (Hmin : Forall (fun r => (minSim <=? sim r) = true
                                    /\ In (item r) (longTerm mem)
                                    /\ embedding (item r) <> None) scored).
    { apply Forall_forall. intros r Hr. subst scored.
      apply filter_In in Hr as [Hr Hmin]. split; [exact Hmin|].
      apply in_flat_map in Hr as (it & Hit & Hr).
      destruct (embedding it) as [e|] eqn:He; [|destruct Hr].
      destruct Hr as [<- | []]. cbn [item]. split; [assumption | congruence]. }
    assert (Hnum : Forall (fun r => is_nan (sim r) = false) scored).
    { eapply Forall_impl; [|exact Hmin]. intros r [Hr _]. apply leb_not_nan in Hr. apply Hr. }
    destruct (sort_by_key_sorted sim scored Hnum) as (Hsorted & _ & Hstable).
    pose proof (sort_by_key_perm sim scored) as Hperm.
    exists (sort bySimDesc scored). split; [reflexivity|].
    split; [apply firstn_le_length|]. split; [exact Hsorted|]. split; [exact Hperm|].
    split; [|exact Hstable].
    apply Forall_forall. intros r Hr. apply (Permutation_in _ Hperm) in Hr.
    revert r Hr. apply Forall_forall. exact Hmin.
Qed.



End Store.


End LegacyStoreFacts.

(** ** The sources of an answer *)

Module SourcesFacts.
Import JSString Eff Web Sources.

Section Select.
Variable settled : nat -> SearchResult -> completion jsstring.

Abbreviation contentResults := (Sources.contentResults settled).

Abbreviation cites := (Sources.cites settled).

Lemma selectSources_from (threshold : nat) (results : list SearchResult) :
  forall index : nat,
    let sources := List.map toSource (validResults threshold (contentResults results index)) in
    (List.length sources <= List.length results)%nat
    /\ StronglySorted lt (List.map idx sources)
    /\ Forall (fun s => (index < idx s <= index + List.length results)%nat
                        /\ exists (r : SearchResult) (content : jsstring),
                             nth_error results (idx s - 1 - index) = Some r
                             /\ s_title s = title r /\ s_url s = url r
                             /\ settled (idx s - 1) r = Normal content
                             /\ (threshold < List.length content)%nat)
              sources.
Proof.
  induction results as [|r results IH]; intros index; cbv zeta.
  - cbn. repeat split; constructor.
  - destruct (IH (S index)) as (Hlen & Hsorted & Hall). cbv zeta in *.
    cbn [Sources.contentResults validResults flat_map].
    assert (Hshift : Forall (fun s => (index < idx s <= index + List.length (r :: results))%nat
                        /\ exists (r0 : SearchResult) (content : jsstring),
                             nth_error (r :: results) (idx s - 1 - index) = Some r0
                             /\ s_title s = title r0 /\ s_url s = url r0
                             /\ settled (idx s - 1) r0 = Normal content
                             /\ (threshold < List.length content)%nat)
              (List.map toSource (validResults threshold (contentResults results (S index))))).
    { eapply Forall_impl; [|exact Hall]. cbn [List.length].
      intros s (Hrange & r0 & content & Hnth & Hrest). split; [lia|].
      exists r0, content. split; [|exact Hrest].
      replace (idx s - 1 - index)%nat with (S (idx s - 1 - S index)) by lia. exact Hnth. }
    fold (validResults threshold (contentResults results (S index))).
    destruct (settled index r) as [content|e] eqn:Hset; cbn [app List.length];
      [|split; [lia|]; split; assumption].
    cbn [f_content].
    destruct (Nat.ltb threshold (List.length content)) eqn:Hlong;
      cbn [app]; [|split; [lia|]; split; assumption].
    apply Nat.ltb_lt in Hlong.
    cbn [List.map List.length toSource f_index f_result idx].
    split; [lia|]. split.
    + constructor; [exact Hsorted|].
      apply Forall_map. eapply Forall_impl; [|exact Hall].
      intros s [Hrange _]. cbn [toSource f_index idx]. lia.
    + constructor; [|exact Hshift].
      cbn [toSource f_index f_result idx s_title s_url List.length].
      split; [lia|]. exists r, content.
      replace (index + 1 - 1 - index)%nat with 0%nat by lia.
      replace (index + 1 - 1)%nat with index by lia.
      repeat split; try reflexivity; assumption.
Qed.

(** X18: the sources of a streamed answer are numbered by their place
    among the search results. They come from the first six results: a
    source numbered [n] is the result at place [n], and its page was
    fetched and gave more than 300 characters of text. The numbers
    increase along the list; they need not be consecutive, since a result
    without a usable page leaves a gap. *)
Theorem sources_cite_results (results : list SearchResult) :
  (List.length (chatSources settled results) <= 6)%nat
  /\ StronglySorted lt (List.map idx (chatSources settled results))
  /\ Forall (fun s => (idx s <= 6)%nat /\ cites 300%nat results s)
            (chatSources settled results).
Proof.
  unfold chatSources, Sources.selectSources.
  destruct (selectSources_from 300%nat (firstn 6 results) 0) as (Hlen & Hsorted & Hall).
  cbv zeta in *. pose proof (firstn_le_length 6 results) as Htop.
  split; [lia|]. split; [exact Hsorted|].
  eapply Forall_impl; [|exact Hall].
  intros s ((Hpos & Hle) & r & content & Hnth & Ht & Hu & Hset & Hlong).
  split; [lia|]. unfold Sources.cites. exists r, content. rewrite Nat.sub_0_r in Hnth.
  repeat split; try assumption.
  assert (Hin : (idx s - 1 < List.length (firstn 6 results))%nat)
    by (apply nth_error_Some; congruence).
  rewrite nth_error_firstn in Hnth.
  destruct (Nat.ltb (idx s - 1) 6); [exact Hnth | discriminate].
Qed.

End Select.

Lemma numberFrom_spec (results : list SearchResult) : forall i : nat,
  List.map idx (numberFrom i results) = seq (i + 1) (List.length results)
  /\ List.map s_url (numberFrom i results) = List.map url results
  /\ List.map s_title (numberFrom i results) = List.map title results.
Proof.
  induction results as [|r results IH]; intros i; [repeat split|].
  destruct (IH (S i)) as (Hi & Hu & Ht).
  cbn [numberFrom List.map List.length seq idx s_url s_title].
  rewrite Hi, Hu, Ht. replace (S i + 1)%nat with (S (i + 1)) by lia.
  repeat split.
Qed.

Lemma NoDup_firstn (A : Type) (n : nat) : forall l : list A,
  List.NoDup l -> List.NoDup (firstn n l).
Proof.
  induction n as [|n IH]; intros l Hnd; [constructor|].
  destruct Hnd as [|x l Hx Hnd]; cbn [firstn]; constructor; [|apply IH; assumption].
  intros Hin. apply Hx. eapply WebFacts.In_firstn, Hin.
Qed.

(** X19: the sources of an answer that is not streamed are numbered
    without gaps and name no page twice. [executeSearches] always returns;
    the sources the chat endpoint makes of its result are the first five of
    the deduplicated sources, numbered 1, 2, ... in that order, and no two
    of them have the same lower-cased URL. *)
Theorem plainSources_numbered (W : Type) (webSearch : jsstring -> M W (list SearchResult))
  (toLowerCase : jsstring -> jsstring) (queries : list jsstring) (w : W) :
  exists (r : SmartWebSearch.SearchOutcome) (w' : W),
    SmartWebSearch.executeSearches W webSearch toLowerCase queries w = (Normal r, w')
    /\ let sources := plainSources (SmartWebSearch.allSources r) in
       (List.length sources <= 5)%nat
       /\ List.map idx sources = seq 1 (List.length sources)
       /\ List.map s_url sources = List.map url (firstn 5 (SmartWebSearch.allSources r))
       /\ List.map s_title sources = List.map title (firstn 5 (SmartWebSearch.allSources r))
       /\ List.NoDup (List.map (fun s => toLowerCase (s_url s)) sources).
Proof.
  unfold SmartWebSearch.executeSearches, bind.
  destruct (SmartWebSearchFacts.executeSearches_loop_run W webSearch queries [] [] w)
    as [results' ->].
  cbn [app ret fst snd]. eexists _, _. split; [reflexivity|].
  cbn [SmartWebSearch.allSources]. cbv zeta. unfold plainSources.
  set (all := SmartWebSearch.deduplicateSources toLowerCase _).
  destruct (numberFrom_spec (firstn 5 all) 0) as (Hi & Hu & Ht).
  assert (Hlen : List.length (numberFrom 0 (firstn 5 all)) = List.length (firstn 5 all)).
  { rewrite <- (length_map idx), Hi, length_seq. reflexivity. }
  rewrite Hlen. split; [apply firstn_le_length|]. split; [exact Hi|].
  split; [exact Hu|]. split; [exact Ht|].
  rewrite <- (List.map_map s_url toLowerCase), Hu, List.map_map, <- firstn_map.
  apply NoDup_firstn. subst all. apply SmartWebSearchFacts.dedup_from_NoDup.
Qed.

(** Six results of which the second page is too short: the sources are
    numbered 1, 3, 4, 5, 6. *)
Example sources_gap :
  List.map idx
    (chatSources
       (fun i _ => Normal (if Nat.eqb i 1 then js "short" else repeat 120%N 301))
       (repeat (Samples.source "http://a.example/" "a") 7))
  = [1; 3; 4; 5; 6]%nat.
Proof. vm_compute. reflexivity. Qed.

End SourcesFacts.

(** ** The title the chat endpoint gives a session *)

Module AutoTitleFacts.
Import JSString Eff Http Sessions AutoTitle WebFacts.

Lemma first_line_no_line_feed (s : jsstring) :
  Forall (fun c => c <> LF) (hd [] (split_lines s)).
Proof.
  induction s as [|c s IH]; [constructor|].
  rewrite ChatStreamFacts.split_lines_cons.
  destruct (c =? LF)%N eqn:Hc; [constructor|]. cbn [hd].
  constructor; [apply N.eqb_neq; exact Hc | exact IH].
Qed.

Lemma titleOf_no_line_feed (response : option jsstring) :
  Forall (fun c => c <> LF) (titleOf response).
Proof.
  unfold titleOf, strip_end_marks, trim.
  set (line := hd [] (split_lines (or_else response []))).
  pose proof (first_line_no_line_feed (or_else response [])) as Hline. fold line in Hline.
  destruct (trimStart_suffix line) as [p Hp].
  destruct (trimEnd_prefix (trimStart line)) as [q Hq].
  assert (Htrim : Forall (fun c => c <> LF) (trimEnd (trimStart line))).
  { rewrite Hp, Hq in Hline. apply Forall_app in Hline as [_ Hline].
    apply Forall_app in Hline as [Hline _]. exact Hline. }
  apply Forall_rev. apply Forall_rev in Htrim. revert Htrim.
  generalize (rev (trimEnd (trimStart line))). clear.
  induction l as [|c l IH]; intros H; [constructor|]. cbn [drop_end_marks].
  destruct (is_end_mark c); [|exact H]. inversion H; subst. apply IH. assumption.
Qed.

Section Title.
Variable Message : Type.
Variable messageRole : Message -> option jsstring.
Variable messageContent : Message -> option jsstring.
Variable ollamaGenerate : jsstring -> jsstring -> completion (option jsstring).
Variable nowISO : jsstring.
Variable model : jsstring.

Abbreviation autoTitle :=
  (AutoTitle.autoTitle Message messageRole messageContent ollamaGenerate nowISO model).

Lemma autoTitle_titled (file : jsstring) (data : SessionData Message)
  (s : list Event * world Message) :
  untitled data = false -> autoTitle file data s = (Normal data, s).
Proof.
  intros H. unfold AutoTitle.autoTitle.
  destruct (s_messages data); [|reflexivity]. rewrite H, andb_false_r. reflexivity.
Qed.

(** X20: a session is titled at most once, and only with a short
    title. The title block of the chat endpoint never throws. It changes
    the name of a session only to a text of four to fifty characters
    without a line feed, taken from the first line of the reply of the
    model. It sends [title_updated] only after the session was saved under
    the new name, with that name. A session with settings that it has
    named, or any session already marked as titled, is left as it is by
    every later run: nothing is written and nothing is sent. *)
Theorem autoTitle_once (file : jsstring) (data : SessionData Message)
  (events : list Event) (w : world Message) :
  exists (data' : SessionData Message) (events' : list Event) (w' : world Message),
    autoTitle file data (events, w) = (Normal data', (events', w'))
    /\ (untitled data = false -> data' = data /\ events' = events /\ w' = w)
    /\ (s_name data' <> s_name data ->
        exists title : jsstring,
          s_name data' = Some title
          /\ (4 <= List.length title <= 50)%nat
          /\ Forall (fun c => c <> LF) title
          /\ (s_settings data <> None ->
              autoTitle file data' (events', w') = (Normal data', (events', w'))))
    /\ (events' <> events ->
        exists title : jsstring,
          events' = events ++ [title_updated title]
          /\ s_name data' = Some title
          /\ files w' !! file = Some (Object (stringify data'))).
Proof.
  assert (Hsame : exists (data' : SessionData Message) (events' : list Event)
                         (w' : world Message),
            (Normal data, (events, w)) = (Normal data', (events', w'))
            /\ (untitled data = false -> data' = data /\ events' = events /\ w' = w)
            /\ (s_name data' <> s_name data ->
                exists title : jsstring,
                  s_name data' = Some title
                  /\ (4 <= List.length title <= 50)%nat
                  /\ Forall (fun c => c <> LF) title
                  /\ (s_settings data <> None ->
                      autoTitle file data' (events', w') = (Normal data', (events', w'))))
            /\ (events' <> events ->
                exists title : jsstring,
                  events' = events ++ [title_updated title]
                  /\ s_name data' = Some title
                  /\ files w' !! file = Some (Object (stringify data')))).
  { exists data, events, w. split; [reflexivity|]. split; [auto|].
    split; intros H; destruct H; reflexivity. }
  destruct (untitled data) eqn:Hun.
  2:{ rewrite autoTitle_titled by assumption. exact Hsame. }
  unfold AutoTitle.autoTitle.
  destruct (s_messages data) as [messages|] eqn:Hms; [|exact Hsame].
  rewrite Hun, andb_true_r.
  destruct (Nat.leb 2 _); [|exact Hsame].
  destruct (titlePrompt _ _ _ messages) as [prompt|e]; [|exact Hsame].
  destruct (ollamaGenerate model prompt) as [response|e]; [|exact Hsame].
  set (title := titleOf response).
  destruct (nonempty title && Nat.ltb 3 (List.length title)
            && negb (bool_decide (s_name data = Some title))) eqn:Hok; [|exact Hsame].
  clear Hsame. apply andb_prop in Hok as [Hok _]. apply andb_prop in Hok as [_ Hlen].
  apply Nat.ltb_lt in Hlen.
  assert (Htitle : (4 <= List.length (firstn 50 title) <= 50)%nat
                   /\ Forall (fun c => c <> LF) (firstn 50 title)).
  { rewrite length_firstn. split; [lia|].
    apply MemoryStoreFacts.Forall_firstn, titleOf_no_line_feed. }
  cbn [s_settings withName].
  destruct (s_settings data) as [st|] eqn:Hst.
  - unfold try_catch, bind, onDisk, sendSSE. cbn [fst snd].
    rewrite SessionsFacts.saveSession_run.
    set (marked := flagged Message (withName (firstn 50 title) data) st).
    assert (Htwice : forall s, autoTitle file (touch Message nowISO marked) s
                               = (Normal (touch Message nowISO marked), s))
      by (intros s; apply autoTitle_titled; reflexivity).
    destruct (writable w file); cbn [fst snd ret]; unfold ret.
    + eexists _, _, _. split; [reflexivity|]. split; [discriminate|].
      split.
      * intros _. exists (firstn 50 title). split; [reflexivity|].
        split; [apply Htitle|]. split; [apply Htitle|]. intros _. apply Htwice.
      * intros _. exists (firstn 50 title). split; [reflexivity|]. split; [reflexivity|].
        cbn [files]. apply lookup_insert_eq.
    + eexists _, _, _. split; [reflexivity|]. split; [discriminate|].
      split.
      * intros _. exists (firstn 50 title). split; [reflexivity|].
        split; [apply Htitle|]. split; [apply Htitle|]. intros _. apply Htwice.
      * intros H. destruct H. reflexivity.
  - unfold ret. eexists _, _, _. split; [reflexivity|]. split; [discriminate|].
    split.
    + intros _. exists (firstn 50 title). split; [reflexivity|].
      split; [apply Htitle|]. split; [apply Htitle|]. intros H. destruct H. reflexivity.
    + intros H. destruct H. reflexivity.
Qed.

End Title.

End AutoTitleFacts.

(** ** More on the search orchestrator *)

Module SmartWebSearchMore.
Import JSString Eff Web SmartWebSearch SmartWebSearchFacts.

Section Deduplication.
Variable toLowerCase : jsstring -> jsstring.

Abbreviation key := (fun s : SearchResult => toLowerCase (url s)) (only parsing).
Abbreviation dedup_from := (SmartWebSearch.dedup_from toLowerCase).
Abbreviation deduplicateSources := (SmartWebSearch.deduplicateSources toLowerCase).

(** Sources with distinct keys, none of them seen, all pass. *)
Lemma dedup_from_distinct (sources : list SearchResult) : forall seen : gset jsstring,
  List.NoDup (List.map key sources) ->
  (forall s, In s sources -> key s ∉ seen) ->
  dedup_from seen sources = sources.
Proof.
  induction sources as [|x sources IH]; intros seen Hnd Hseen; [reflexivity|].
  cbn [SmartWebSearch.dedup_from]. inversion Hnd as [|? ? Hx Hnd']; subst.
  case_bool_decide as Hin; [destruct (Hseen x (or_introl eq_refl) Hin)|].
  f_equal. apply IH; [assumption|].
  intros s Hs. rewrite not_elem_of_union, not_elem_of_singleton. split.
  - intros Heq. apply Hx. rewrite <- Heq. apply (in_map key). assumption.
  - apply Hseen. right. assumption.
Qed.

Lemma dedup_from_app (l1 l2 : list SearchResult) : forall seen : gset jsstring,
  exists rest : list SearchResult,
    dedup_from seen (l1 ++ l2) = dedup_from seen l1 ++ rest /\ sublist rest l2.
Proof.
  induction l1 as [|x l1 IH]; intros seen; cbn [app SmartWebSearch.dedup_from].
  - eexists. split; [reflexivity|]. apply dedup_from_sublist.
  - case_bool_decide; [apply IH|].
    destruct (IH ({[toLowerCase (url x)]} ∪ seen)) as (rest & -> & Hsub).
    exists rest. split; [reflexivity | assumption].
Qed.

(** X21: deduplication settles. [deduplicateSources] returns a list
    whose lower-cased URLs are distinct as it is; so deduplicating a second
    time changes nothing. What it returns for a list is the beginning of
    what it returns for any longer list: results that arrive later never
    remove or reorder the sources already chosen, they can only add
    sources of their own, in their order. *)
Theorem deduplicateSources_settles (sources later : list SearchResult) :
  (List.NoDup (List.map key sources) -> deduplicateSources sources = sources)
  /\ deduplicateSources (deduplicateSources sources) = deduplicateSources sources
  /\ exists rest : list SearchResult,
       deduplicateSources (sources ++ later) = deduplicateSources sources ++ rest
       /\ sublist rest later.
Proof.
  unfold SmartWebSearch.deduplicateSources. split; [|split].
  - intros Hnd. apply dedup_from_distinct; [assumption|]. intros s _. set_solver.
  - apply dedup_from_distinct; [apply dedup_from_NoDup|]. intros s _. set_solver.
  - apply dedup_from_app.
Qed.

End Deduplication.

Lemma continuation_monotone (n m : nat) (complexity : jsstring) :
  (n <= m)%nat ->
  fst (fst (continuation n complexity)) = false ->
  fst (fst (continuation m complexity)) = false.
Proof.
  intros Hle. unfold continuation.
  destruct (Nat.eqb_spec n 0) as [->|Hn]; [discriminate|].
  destruct (Nat.eqb_spec m 0) as [->|Hm]; [lia|].
  destruct (Nat.ltb_spec n 3), (Nat.ltb_spec m 3), (Nat.ltb_spec n 8), (Nat.ltb_spec m 8),
    (Nat.ltb_spec n 5), (Nat.ltb_spec m 5);
    cbn [fst]; try lia; try reflexivity; try (intros ->; reflexivity);
    destruct (eqb complexity high); cbn; congruence.
Qed.

(** X22: the decision to stop is final. If [shouldContinueSearching]
    says stop with some results in hand, it says stop with any list of at
    least as many results, for the same complexity. *)
Theorem shouldContinueSearching_monotone (A : Type) (nowISO query : jsstring)
  (fewer more : list A) (complexity : option jsstring) :
  (List.length fewer <= List.length more)%nat ->
  shouldContinue (shouldContinueSearching nowISO query (Some fewer) complexity) = false ->
  shouldContinue (shouldContinueSearching nowISO query (Some more) complexity) = false.
Proof.
  intros Hle.
  destruct (shouldContinueSearching_fields A nowISO query (Some fewer) complexity)
    as [_ ->].
  destruct (shouldContinueSearching_fields A nowISO query (Some more) complexity)
    as [_ ->].
  apply continuation_monotone. exact Hle.
Qed.

Lemma shouldContinueSearching_monotone_witness :
  shouldContinue (shouldContinueSearching Samples.now (js "tea") (Some [1; 2; 3; 4; 5; 6])
                    (Some high)) = false.
Proof.
  apply (shouldContinueSearching_monotone Z Samples.now (js "tea")
           [1; 2; 3; 4; 5] [1; 2; 3; 4; 5; 6] (Some high)).
  - cbn. lia.
  - reflexivity.
Defined.

End SmartWebSearchMore.
